(** * Technical-indicator engine of [stock-analyzer.py]

    A shallow embedding of [calculate_technical_indicators] and of the
    pandas operations it calls, followed by the properties stated about it.

    Numbers.  The program computes on IEEE-754 doubles.  The embedding keeps
    the special values that decide the control flow of the program ([NaN] and
    the two infinities) and replaces the finite doubles by exact rationals
    ([Qc], canonical fractions, so that equality of values is Leibniz
    equality).  Rounding, overflow, underflow and the sign of zero are
    therefore outside the model.  The square root used by the rolling
    standard deviation is a parameter of the development. *)

From Stdlib Require Import QArith Qcanon ZArith Lia Lqa.
From stdpp Require Import base option list numbers strings gmap fin_maps.

Local Open Scope Qc_scope.

(** ** Floating-point values *)

Module Float.

Inductive fval : Type :=
| NaN
| PInf
| NInf
| Fin (q : Qc).

Definition Qc_ltb (a b : Qc) : bool :=
  match a ?= b with Lt => true | _ => false end.

Definition Qc_eqb (a b : Qc) : bool :=
  match a ?= b with Eq => true | _ => false end.

Definition Qcabs (a : Qc) : Qc := if Qc_ltb a 0 then - a else a.

(** [x != x] in numpy: the test behind [isna] and [dropna]. *)
Definition isna (x : fval) : bool :=
  match x with NaN => true | _ => false end.

Definition notna (x : fval) : bool := negb (isna x).

Definition is_finite (x : fval) : bool :=
  match x with Fin _ => true | _ => false end.

Definition is_inf (x : fval) : bool :=
  match x with PInf | NInf => true | _ => false end.

Definition fneg (x : fval) : fval :=
  match x with
  | NaN => NaN
  | PInf => NInf
  | NInf => PInf
  | Fin a => Fin (- a)
  end.

Definition fabs (x : fval) : fval :=
  match x with
  | NaN => NaN
  | PInf | NInf => PInf
  | Fin a => Fin (Qcabs a)
  end.

Definition fadd (x y : fval) : fval :=
  match x, y with
  | NaN, _ | _, NaN => NaN
  | PInf, NInf | NInf, PInf => NaN
  | PInf, _ | _, PInf => PInf
  | NInf, _ | _, NInf => NInf
  | Fin a, Fin b => Fin (a + b)
  end.

Definition fsub (x y : fval) : fval := fadd x (fneg y).

(** Sign of a value that is not [NaN]; zero counts as [Eq]. *)
Definition fsign (x : fval) : comparison :=
  match x with
  | NaN => Eq
  | PInf => Gt
  | NInf => Lt
  | Fin a => a ?= 0
  end.

Definition sign_mul (s t : comparison) : comparison :=
  match s, t with
  | Eq, _ | _, Eq => Eq
  | Gt, Gt | Lt, Lt => Gt
  | _, _ => Lt
  end.

Definition inf_of_sign (s : comparison) : fval :=
  match s with
  | Eq => NaN
  | Gt => PInf
  | Lt => NInf
  end.

Definition fmul (x y : fval) : fval :=
  match x, y with
  | NaN, _ | _, NaN => NaN
  | Fin a, Fin b => Fin (a * b)
  | _, _ => inf_of_sign (sign_mul (fsign x) (fsign y))
  end.

(** Division as numpy performs it on arrays: a zero divisor raises
    nothing, [x / 0] is an infinity of the sign of [x] and [0 / 0] is
    [NaN].  The zero of the model is the positive zero. *)
Definition fdiv (x y : fval) : fval :=
  match x, y with
  | NaN, _ | _, NaN => NaN
  | Fin a, Fin b =>
      if Qc_eqb b 0 then inf_of_sign (a ?= 0) else Fin (a / b)
  | Fin _, _ => Fin 0
  | _, Fin b => if Qc_ltb b 0 then fneg x else x
  | _, _ => NaN
  end.

(** [x < y] on doubles: false as soon as one side is [NaN]. *)
Definition flt (x y : fval) : bool :=
  match x, y with
  | NaN, _ | _, NaN => false
  | NInf, NInf => false
  | NInf, _ => true
  | _, NInf => false
  | PInf, _ => false
  | _, PInf => true
  | Fin a, Fin b => Qc_ltb a b
  end.

Definition fgt (x y : fval) : bool := flt y x.

(** The square root of a double, over a square root [sqrt] of the finite
    values.  pandas clamps a negative variance to zero before it takes
    the root. *)
Definition fsqrt (sqrt : Qc -> Qc) (x : fval) : fval :=
  match x with
  | NaN => NaN
  | PInf => PInf
  | NInf => Fin 0
  | Fin a => if Qc_ltb a 0 then Fin 0 else Fin (sqrt a)
  end.

(** The same double, [NaN] included: the comparison of two results of
    the engine (not the [==] of doubles). *)
Definition same_value (x y : fval) : bool :=
  match x, y with
  | NaN, NaN | PInf, PInf | NInf, NInf => true
  | Fin a, Fin b => Qc_eqb a b
  | _, _ => false
  end.

End Float.
Export Float.

(** ** The pandas operations the engine calls *)

Module Pandas.

(** A column: one double per row. *)
Abbreviation Series := (list fval).

Definition fsum (w : Series) : fval := foldr fadd (Fin 0) w.

(** The rows [i-k+1 .. i] of a column, the window that
    [rolling(window=k)] ends at row [i]. *)
Definition window (k i : nat) (s : Series) : Series :=
  take k (drop (i + 1 - k) s).

(** [nobs >= min_periods], with [min_periods] the window size: row [i]
    has [k] rows up to it and none of them is [NaN]. *)
Definition window_full (k i : nat) (s : Series) : bool :=
  (k <=? i + 1)%nat && forallb notna (window k i s).

Definition mean_of (k : nat) (w : Series) : fval :=
  fdiv (fsum w) (Fin (Qc_of_Z (Z.of_nat k))).

(** Sample variance, [ddof=1]. *)
Definition var_of (k : nat) (w : Series) : fval :=
  let m := mean_of k w in
  fdiv (fsum ((fun x => fmul (fsub x m) (fsub x m)) <$> w))
       (Fin (Qc_of_Z (Z.of_nat k - 1))).

(** [s.rolling(window=k).mean()] *)
Definition rolling_mean (k : nat) (s : Series) : Series :=
  (fun i => if window_full k i s then mean_of k (window k i s) else NaN)
    <$> seq 0 (length s).

(** [s.rolling(window=k).std()] *)
Definition rolling_std (sqrt : Qc -> Qc) (k : nat) (s : Series) : Series :=
  (fun i => if window_full k i s
            then fsqrt sqrt (var_of k (window k i s)) else NaN)
    <$> seq 0 (length s).

(** [s.diff(1)] *)
Definition diff (s : Series) : Series :=
  match s with
  | [] => []
  | _ :: rest => NaN :: zip_with fsub rest s
  end.

(** [s[s < 0] = 0] and [s[s > 0] = 0] *)
Definition clip_negative (s : Series) : Series :=
  (fun x => if flt x (Fin 0) then Fin 0 else x) <$> s.

Definition clip_positive (s : Series) : Series :=
  (fun x => if fgt x (Fin 0) then Fin 0 else x) <$> s.

(** The smoothing factor of [ewm(span=k)]. *)
Definition alpha_of_span (span : Z) : Qc :=
  Qc_of_Z 2 / (Qc_of_Z span + 1).

(** The weight of a new observation under [adjust=False]: [alpha], except
    that for a centre of mass of one ([alpha = 1/2], span 3) pandas takes
    what the decayed weight of the average leaves, [1 - old_wt]. *)
Definition new_weight (alpha old_wt : Qc) : Qc :=
  if Qc_eqb alpha (1 / Qc_of_Z 2) then 1 - old_wt else alpha.

(** The loop of [ewm(..., adjust=False).mean()] with pandas's defaults
    [ignore_na=False] and [min_periods=0]: [weighted] is the running
    average, [old_wt] the weight it carries (reset to one at every
    observation, decayed over a [NaN]). *)
Fixpoint ewm_loop (alpha : Qc) (weighted : fval) (old_wt : Qc)
         (vals : Series) : Series :=
  match vals with
  | [] => []
  | cur :: rest =>
      let '(weighted', old_wt') :=
        if notna weighted then
          let ow := old_wt * (1 - alpha) in
          if notna cur then
            let new_wt := new_weight alpha ow in
            (fdiv (fadd (fmul (Fin ow) weighted) (fmul (Fin new_wt) cur))
                  (Fin (ow + new_wt)), 1)
          else (weighted, ow)
        else if notna cur then (cur, old_wt)
        else (weighted, old_wt) in
      weighted' :: ewm_loop alpha weighted' old_wt' rest
  end.

(** [s.ewm(span=k, adjust=False).mean()], for the spans pandas accepts
    ([k >= 1]; the engine uses 9, 12, 14 and 26). *)
Definition ewm_mean (span : Z) (s : Series) : Series :=
  match s with
  | [] => []
  | x0 :: rest => x0 :: ewm_loop (alpha_of_span span) x0 1 rest
  end.

(** Arithmetic of a column with a column (same index) or a scalar. *)
Definition series_add (a b : Series) : Series := zip_with fadd a b.
Definition series_sub (a b : Series) : Series := zip_with fsub a b.
Definition series_div (a b : Series) : Series := zip_with fdiv a b.
Definition series_abs (a : Series) : Series := fabs <$> a.
Definition series_mul_scalar (a : Series) (c : fval) : Series :=
  (fun x => fmul x c) <$> a.
Definition scalar_add_series (c : fval) (a : Series) : Series :=
  fadd c <$> a.
Definition scalar_sub_series (c : fval) (a : Series) : Series :=
  fsub c <$> a.
Definition scalar_div_series (c : fval) (a : Series) : Series :=
  fdiv c <$> a.

End Pandas.
Export Pandas.

(** ** The engine *)

Module Engine.

(** One row of the price history that [ticker.history] returns. *)
Record Bar : Type := mkBar {
  timestamp : Z;
  open : Qc;
  high : Qc;
  low : Qc;
  close : Qc;
  volume : Qc
}.

(** A frame: the price rows and, by name, the columns attached to them. *)
Record DataFrame : Type := mkFrame {
  bars : list Bar;
  columns : gmap string (list fval)
}.

Definition from_bars (bs : list Bar) : DataFrame := mkFrame bs ∅.

(** [data.empty] *)
Definition empty (data : DataFrame) : bool :=
  match bars data with [] => true | _ => false end.

(** [data[name]]; [None] stands for the [KeyError]. *)
Definition getitem (name : string) (data : DataFrame) : option Series :=
  if String.eqb name "Open" then Some ((fun b => Fin (open b)) <$> bars data)
  else if String.eqb name "High" then Some ((fun b => Fin (high b)) <$> bars data)
  else if String.eqb name "Low" then Some ((fun b => Fin (low b)) <$> bars data)
  else if String.eqb name "Close" then Some ((fun b => Fin (close b)) <$> bars data)
  else if String.eqb name "Volume" then Some ((fun b => Fin (volume b)) <$> bars data)
  else columns data !! name.

(** [data[name] = s] for a derived column. *)
Definition setitem (name : string) (s : Series) (data : DataFrame) : DataFrame :=
  mkFrame (bars data) (<[name := s]> (columns data)).

(** Keep the entries of [l] whose position is marked in [mask]. *)
Fixpoint select {A : Type} (mask : list bool) (l : list A) : list A :=
  match mask, l with
  | b :: mask', x :: l' =>
      if b then x :: select mask' l' else select mask' l'
  | _, _ => []
  end.

(** Column [s] holds a value other than [NaN] at row [i]. *)
Definition defined_at (s : Series) (i : nat) : bool :=
  match s !! i with
  | Some x => notna x
  | None => false
  end.

(** [s.iloc[i]] holds the double [v]. *)
Definition holds (s : Series) (i : nat) (v : fval) : bool :=
  match s !! i with
  | Some x => same_value x v
  | None => false
  end.

(** Row [i] holds a value other than [NaN] in every attached column.
    The price columns hold finite numbers by their type. *)
Definition row_complete (cols : gmap string (list fval)) (i : nat) : bool :=
  bool_decide (map_Forall (fun _ s => defined_at s i = true) cols).

Definition dropna_mask (data : DataFrame) : list bool :=
  row_complete (columns data) <$> seq 0 (length (bars data)).

(** [data.dropna(inplace=True)] *)
Definition dropna (data : DataFrame) : DataFrame :=
  let mask := dropna_mask data in
  mkFrame (select mask (bars data)) (select mask <$> columns data).

(** The locals of the RSI block, as functions of the close column. *)
Definition rsi_delta (close : Series) : Series := diff close.
Definition rsi_gain (close : Series) : Series := clip_negative (rsi_delta close).
Definition rsi_loss (close : Series) : Series := clip_positive (rsi_delta close).
Definition rsi_avg_gain (close : Series) : Series :=
  ewm_mean 14 (rsi_gain close).
Definition rsi_avg_loss (close : Series) : Series :=
  series_abs (ewm_mean 14 (rsi_loss close)).
Definition rsi_rs (close : Series) : Series :=
  series_div (rsi_avg_gain close) (rsi_avg_loss close).
Definition rsi (close : Series) : Series :=
  scalar_sub_series (Fin (Qc_of_Z 100))
    (scalar_div_series (Fin (Qc_of_Z 100))
       (scalar_add_series (Fin 1) (rsi_rs close))).

Section WithSqrt.

Variable sqrt : Qc -> Qc.

(** Lines 27-58: every indicator column is attached to [data]. *)
Definition attach_indicators (data : DataFrame) : option DataFrame :=
  close ← getitem "Close" data;
  let data := setitem "SMA_20" (rolling_mean 20 close) data in
  close ← getitem "Close" data;
  let data := setitem "SMA_50" (rolling_mean 50 close) data in
  close ← getitem "Close" data;
  let data := setitem "RSI" (rsi close) data in
  close ← getitem "Close" data;
  let data := setitem "EMA_12" (ewm_mean 12 close) data in
  close ← getitem "Close" data;
  let data := setitem "EMA_26" (ewm_mean 26 close) data in
  ema_12 ← getitem "EMA_12" data;
  ema_26 ← getitem "EMA_26" data;
  let data := setitem "MACD" (series_sub ema_12 ema_26) data in
  macd ← getitem "MACD" data;
  let data := setitem "Signal_Line" (ewm_mean 9 macd) data in
  close ← getitem "Close" data;
  let data := setitem "Middle_Band" (rolling_mean 20 close) data in
  middle ← getitem "Middle_Band" data;
  close ← getitem "Close" data;
  let data :=
    setitem "Upper_Band"
      (series_add middle
         (series_mul_scalar (rolling_std sqrt 20 close) (Fin (Qc_of_Z 2))))
      data in
  middle ← getitem "Middle_Band" data;
  close ← getitem "Close" data;
  let data :=
    setitem "Lower_Band"
      (series_sub middle
         (series_mul_scalar (rolling_std sqrt 20 close) (Fin (Qc_of_Z 2))))
      data in
  volume ← getitem "Volume" data;
  let data := setitem "Volume_SMA_20" (rolling_mean 20 volume) data in
  Some data.

(** What a call makes of a frame that is not empty. *)
Definition enrich (data : DataFrame) : option DataFrame :=
  dropna <$> attach_indicators data.

(** The argument of the function: [None] or a reference to a frame. *)
Inductive pyval : Type :=
| PyNone
| PyRef (l : nat).

(** [calculate_technical_indicators(data)] over the store of frames.
    The frame is mutated in place and the reference passed in is the
    one returned.  [None] as a result stands for an exception. *)
Definition calculate_technical_indicators
           (data : pyval) (h : gmap nat DataFrame)
  : option (pyval * gmap nat DataFrame) :=
  match data with
  | PyNone => Some (data, h)
  | PyRef l =>
      df ← h !! l;
      if empty df then Some (data, h)
      else df' ← enrich df; Some (data, <[l := df']> h)
  end.

End WithSqrt.

End Engine.
Export Engine.

(** ** The columns the engine attaches

    The value each column holds once lines 27-58 have run, as a function
    of the close and volume columns of the frame. *)

Module Columns.

Definition close_col (data : DataFrame) : Series :=
  (fun b => Fin (close b)) <$> bars data.

Definition volume_col (data : DataFrame) : Series :=
  (fun b => Fin (volume b)) <$> bars data.

Definition macd (close : Series) : Series :=
  series_sub (ewm_mean 12 close) (ewm_mean 26 close).

Definition signal_line (close : Series) : Series :=
  ewm_mean 9 (macd close).

Section WithSqrt.

Variable sqrt : Qc -> Qc.

Definition band_width (close : Series) : Series :=
  series_mul_scalar (rolling_std sqrt 20 close) (Fin (Qc_of_Z 2)).

Definition upper_band (close : Series) : Series :=
  series_add (rolling_mean 20 close) (band_width close).

Definition lower_band (close : Series) : Series :=
  series_sub (rolling_mean 20 close) (band_width close).

(** The frame before [dropna]. *)
Definition attached (data : DataFrame) : DataFrame :=
  let close := close_col data in
  setitem "Volume_SMA_20" (rolling_mean 20 (volume_col data))
    (setitem "Lower_Band" (lower_band close)
      (setitem "Upper_Band" (upper_band close)
        (setitem "Middle_Band" (rolling_mean 20 close)
          (setitem "Signal_Line" (signal_line close)
            (setitem "MACD" (macd close)
              (setitem "EMA_26" (ewm_mean 26 close)
                (setitem "EMA_12" (ewm_mean 12 close)
                  (setitem "RSI" (rsi close)
                    (setitem "SMA_50" (rolling_mean 50 close)
                      (setitem "SMA_20" (rolling_mean 20 close)
                         data)))))))))).

End WithSqrt.

End Columns.
Export Columns.

(** ** The formulas of the specification

    Written from the contract of each indicator, over exact rationals; the
    theorems below compare them with what the engine computes. *)

Module Spec.

Definition Qcmax (a b : Qc) : Qc := if Qc_ltb a b then b else a.
Definition Qcmin (a b : Qc) : Qc := if Qc_ltb b a then b else a.

(** [xs[start] + ... + xs[start+n-1]] *)
Fixpoint sum_from (xs : list Qc) (start n : nat) : Qc :=
  match n with
  | O => 0
  | S n' => default 0 (xs !! start) + sum_from xs (S start) n'
  end.

(** Arithmetic mean of the [k] entries that end at position [i]. *)
Definition mean_at (xs : list Qc) (k i : nat) : Qc :=
  sum_from xs (i + 1 - k) k / Qc_of_Z (Z.of_nat k).

Definition Qcsum (xs : list Qc) : Qc := foldr Qcplus 0 xs.

Definition mean (w : list Qc) : Qc := Qcsum w / Qc_of_Z (Z.of_nat (length w)).

(** Sample variance of a window: squared deviations from the mean over
    one less than the number of entries. *)
Definition sample_var (w : list Qc) : Qc :=
  Qcsum ((fun x => (x - mean w) * (x - mean w)) <$> w)
  / Qc_of_Z (Z.of_nat (length w) - 1).

(** [EMA[i] = alpha * x[i] + (1 - alpha) * EMA[i-1]], after [prev]. *)
Fixpoint ema_from (alpha prev : Qc) (xs : list Qc) : list Qc :=
  match xs with
  | [] => []
  | x :: rest =>
      let y := alpha * x + (1 - alpha) * prev in
      y :: ema_from alpha y rest
  end.

(** The recurrence seeded at the first observation. *)
Definition ema (alpha : Qc) (xs : list Qc) : list Qc :=
  match xs with
  | [] => []
  | x0 :: rest => x0 :: ema_from alpha x0 rest
  end.

(** [delta[i] = close[i] - close[i-1]] for [i >= 1], listed from [i = 1]. *)
Definition deltas (closes : list Qc) : list Qc :=
  zip_with Qcminus (tail closes) closes.

Definition gain_of (d : Qc) : Qc := Qcmax d 0.
Definition loss_of (d : Qc) : Qc := Qcmax (- d) 0.

(** [alpha = 2 / (period + 1)] for the period 14 of the RSI. *)
Definition alpha_rsi : Qc := Q2Qc (2 # 15).

(** The gains and losses of a close column, from row 1 on. *)
Definition gains (closes : list Qc) : list Qc := gain_of <$> deltas closes.
Definition losses (closes : list Qc) : list Qc := loss_of <$> deltas closes.

(** [RSI = 100 - 100 / (1 + RS)] on doubles. *)
Definition rsi_of_rs (rs : fval) : fval :=
  fsub (Fin (Qc_of_Z 100)) (fdiv (Fin (Qc_of_Z 100)) (fadd (Fin 1) rs)).

End Spec.
Export Spec.

(** ** Inputs to run the engine on *)

Module Samples.

(** A computable square root: the root of the numerator is rounded
    down. *)
Definition sqrt_floor (x : Qc) : Qc :=
  Q2Qc (Z.sqrt (Qnum x * Zpos (Qden x)) # Qden x).

Definition bar_of_close (i : nat) (p : Z) : Bar :=
  mkBar (Z.of_nat i) (Qc_of_Z p) (Qc_of_Z p) (Qc_of_Z p) (Qc_of_Z p)
        (Qc_of_Z 1000).

(** Bars with the given closes, numbered from zero. *)
Definition bars_of_closes (ps : list Z) : list Bar :=
  zip_with bar_of_close (seq 0 (length ps)) ps.

(** Fifty bars closing at 1, 2, ..., 50. *)
Definition rising50 : list Bar :=
  bars_of_closes (Z.of_nat <$> seq 1 50).

(** Three bars at the same price. *)
Definition flat3 : list Bar := bars_of_closes [10; 10; 10]%Z.

Definition closes_of (bs : list Bar) : list Qc := close <$> bs.

End Samples.
Export Samples.

From Stdlib Require Import Ascii.

(** ** The application around the engine

    The Streamlit calls of the script are recorded as a list of events in
    the order they are made.  What the market-data provider answers is an
    argument of each function that asks it. *)

Module App.

(** A value of the [ticker.info] dictionary. *)
Inductive pyvalue : Type :=
| VNone
| VNum (x : fval)
| VOther (repr : string).

(** The format specifications of the f-strings that show a number:
    [${:,.0f}], [${:.2f}], [{:,.0f}], [{:.2f}] and [{:.2%}]. *)
Inductive fmt : Type :=
| DollarsGrouped
| Dollars2
| Grouped
| Fixed2
| Percent2.

Inductive exn : Type :=
| ProviderError (msg : string)
| FormatError (f : fmt) (v : pyvalue)
| KeyError (key : string).

Inductive trace : Type :=
| Candlestick (x : list Z) (o h l c : Series) (name : string)
| Scatter (x : list Z) (y : Series) (name : string)
          (yaxis : option string) (dashed : bool)
| BarTrace (x : list Z) (y : Series) (name : string) (yaxis : string).

(** A figure: its traces in the order they were added and the title of
    its layout (the rest of the layout is the same for every figure). *)
Record figure : Type := mkFigure {
  traces : list trace;
  title : string
}.

(** A message that ends in the text of an exception carries the
    exception apart from the text before it.  The argument of
    [st.dataframe] is a frame or [None]. *)
Inductive event : Type :=
| Title (text : string)
| Subheader (text : string)
| Write (text : string)
| WriteAnalyzing (symbols : list string) (period : string)
| Metric (label : string) (f : fmt) (x : fval)
| Info (text : string)
| Warning (text : string) (cause : option exn)
| Error (text : string) (cause : option exn)
| Dataframe (data : option DataFrame)
| PlotlyChart (fig : figure).

Inductive outcome (A : Type) : Type :=
| Returned (a : A)
| Raised (e : exn).
Arguments Returned {A} a.
Arguments Raised {A} e.

(** A computation that writes to the page and returns or raises. *)
Definition ui (A : Type) : Type := list event * outcome A.

Definition ui_ret {A : Type} (a : A) : ui A := ([], Returned a).

Definition ui_bind {A B : Type} (f : A -> ui B) (m : ui A) : ui B :=
  match m with
  | (log, Returned a) => let '(log', r) := f a in (log ++ log', r)
  | (log, Raised e) => (log, Raised e)
  end.

#[global] Instance ui_mret : MRet ui := @ui_ret.
#[global] Instance ui_mbind : MBind ui := @ui_bind.

Definition emit (e : event) : ui unit := ([e], Returned tt).

Definition raise {A : Type} (e : exn) : ui A := ([], Raised e).

(** [try: body except Exception as e: handler(e)] *)
Definition try_except (body : ui unit) (handler : exn -> ui unit) : ui unit :=
  match body with
  | (log, Returned a) => (log, Returned a)
  | (log, Raised e) => let '(log', r) := handler e in (log ++ log', r)
  end.

(** What a call to the provider did. *)
Definition lift {A : Type} (answer : outcome A) : ui A := ([], answer).

Definition when (b : bool) (m : ui unit) : ui unit :=
  if b then m else mret tt.

(** [key in info and info[key] is not None] *)
Definition has_value (info : gmap string pyvalue) (key : string) : bool :=
  match info !! key with
  | Some VNone | None => false
  | Some _ => true
  end.

(** [info[key]] *)
Definition subscript (info : gmap string pyvalue) (key : string) : ui pyvalue :=
  match info !! key with
  | Some v => mret v
  | None => raise (KeyError key)
  end.

(** [format(v, spec)] for a float specification: a number formats, any
    other object raises. *)
Definition format_float (f : fmt) (v : pyvalue) : ui fval :=
  match v with
  | VNum x => mret x
  | _ => raise (FormatError f v)
  end.

(** [st.metric(label, f"{info[key]:spec}")] *)
Definition show_metric (label : string) (f : fmt)
           (info : gmap string pyvalue) (key : string) : ui unit :=
  v ← subscript info key;
  x ← format_float f v;
  emit (Metric label f x).

Definition display_key_statistics_and_price
           (symbol : string) (ticker_info : outcome (gmap string pyvalue))
  : ui unit :=
  emit (Write ("**" ++ symbol ++ "**"));;
  try_except
    (info ← lift ticker_info;
     when (has_value info "marketCap")
          (show_metric "Market Cap" DollarsGrouped info "marketCap");;
     when (has_value info "fiftyTwoWeekHigh")
          (show_metric "52-Week High" Dollars2 info "fiftyTwoWeekHigh");;
     when (has_value info "fiftyTwoWeekLow")
          (show_metric "52-Week Low" Dollars2 info "fiftyTwoWeekLow");;
     when (has_value info "averageVolume")
          (show_metric "Average Volume" Grouped info "averageVolume");;
     if has_value info "currentPrice"
     then show_metric "Current Price" Dollars2 info "currentPrice"
     else if has_value info "regularMarketPrice"
     then show_metric "Current Price" Dollars2 info "regularMarketPrice"
     else emit (Warning ("Current price information not available for "
                         ++ symbol ++ ".") None))
    (fun e =>
       emit (Warning ("Could not retrieve financial statistics for "
                      ++ symbol ++ ": ") (Some e))).

Definition display_fundamental_analysis
           (symbol : string) (ticker_info : outcome (gmap string pyvalue))
  : ui unit :=
  emit (Write ("**" ++ symbol ++ "**"));;
  try_except
    (info ← lift ticker_info;
     (if has_value info "trailingPE"
      then show_metric "P/E Ratio (Trailing)" Fixed2 info "trailingPE"
      else if has_value info "forwardPE"
      then show_metric "P/E Ratio (Forward)" Fixed2 info "forwardPE"
      else emit (Info ("P/E Ratio information not available for "
                       ++ symbol ++ ".")));;
     (if has_value info "trailingEPS"
      then show_metric "EPS (Trailing)" Dollars2 info "trailingEPS"
      else if has_value info "forwardEPS"
      then show_metric "EPS (Forward)" Dollars2 info "forwardEPS"
      else emit (Info ("EPS information not available for "
                       ++ symbol ++ ".")));;
     (if has_value info "dividendYield"
      then show_metric "Dividend Yield" Percent2 info "dividendYield"
      else emit (Info ("Dividend Yield information not available for "
                       ++ symbol ++ ".")));;
     when (has_value info "totalAssets")
          (show_metric "Total Assets" DollarsGrouped info "totalAssets");;
     when (has_value info "totalLiabilities")
          (show_metric "Total Liabilities" DollarsGrouped info
                       "totalLiabilities");;
     (if has_value info "totalStockholderEquity"
      then show_metric "Total Stockholder Equity" DollarsGrouped info
                       "totalStockholderEquity"
      else emit (Info ("Limited Balance Sheet information available for "
                       ++ symbol ++ ".")));;
     when (has_value info "revenue")
          (show_metric "Revenue" DollarsGrouped info "revenue");;
     when (has_value info "grossProfits")
          (show_metric "Gross Profits" DollarsGrouped info "grossProfits");;
     if has_value info "netIncomeToCommon"
     then show_metric "Net Income" DollarsGrouped info "netIncomeToCommon"
     else emit (Info ("Limited Income Statement information available for "
                      ++ symbol ++ ".")))
    (fun e =>
       emit (Warning ("Could not retrieve fundamental analysis data for "
                      ++ symbol ++ ": ") (Some e))).

(** *** Charts *)

(** [name in data.columns] *)
Definition has_column (name : string) (data : DataFrame) : bool :=
  match getitem name data with
  | Some _ => true
  | None => false
  end.

(** [data[name]] where a missing column raises. *)
Definition column (name : string) (data : DataFrame) : ui Series :=
  match getitem name data with
  | Some s => mret s
  | None => raise (KeyError name)
  end.

(** [data.index] *)
Definition index (data : DataFrame) : list Z := timestamp <$> bars data.

(** [if col in data.columns: fig.add_trace(go.Scatter(x=data.index,
    y=data[col], mode='lines', name=name, ...))] *)
Definition add_line (col name : string) (yaxis : option string)
           (dashed : bool) (data : DataFrame) (fig : list trace)
  : ui (list trace) :=
  if has_column col data
  then y ← column col data;
       mret (fig ++ [Scatter (index data) y name yaxis dashed])
  else mret fig.

(** The figure built for one symbol, lines 159-207. *)
Definition chart_figure (symbol : string) (data : DataFrame) : ui figure :=
  o ← column "Open" data;
  h ← column "High" data;
  l ← column "Low" data;
  c ← column "Close" data;
  let fig := [Candlestick (index data) o h l c "Candlestick"] in
  c ← column "Close" data;
  let fig := fig ++ [Scatter (index data) c "Close Price" None false] in
  fig ← add_line "SMA_20" "SMA 20" None false data fig;
  fig ← add_line "SMA_50" "SMA 50" None false data fig;
  fig ← add_line "RSI" "RSI" (Some "y2") false data fig;
  fig ← add_line "MACD" "MACD" (Some "y3") false data fig;
  fig ← add_line "Signal_Line" "Signal Line" (Some "y3") false data fig;
  fig ← add_line "Middle_Band" "Middle Band" None true data fig;
  fig ← add_line "Upper_Band" "Upper Band" None true data fig;
  fig ← add_line "Lower_Band" "Lower Band" None true data fig;
  fig ← (if has_column "Volume" data
         then v ← column "Volume" data;
              mret (fig ++ [BarTrace (index data) v "Volume" "y4"])
         else mret fig);
  mret (mkFigure fig ("Historical Stock Price Analysis for " ++ symbol)).

(** One turn of the loop of [generate_charts]; [None] is Python's
    [None]. *)
Definition chart_one (symbol : string) (data : option DataFrame) : ui unit :=
  emit (Write ("**" ++ symbol ++ "**"));;
  match data with
  | Some df =>
      if negb (empty df)
      then fig ← chart_figure symbol df; emit (PlotlyChart fig)
      else emit (Info ("No historical data available to display charts for "
                       ++ symbol ++ "."))
  | None =>
      emit (Info ("No historical data available to display charts for "
                  ++ symbol ++ "."))
  end.

Fixpoint for_each {A : Type} (f : A -> ui unit) (l : list A) : ui unit :=
  match l with
  | [] => mret tt
  | x :: rest => f x;; for_each f rest
  end.

(** [generate_charts(historical_data_dict)]: the dictionary as the list
    of its items, in insertion order, each frame as it is when the
    function reads it. *)
Definition generate_charts (items : list (string * option DataFrame))
  : ui unit :=
  match items with
  | [] => emit (Info "Enter stock symbols and a time period to fetch data.")
  | _ :: _ =>
      emit (Subheader "Historical Price Trends and Technical Indicators");;
      for_each (fun item => chart_one item.1 item.2) items
  end.

(** *** Fetching *)

(** [fetch_historical_data(symbol, period)], given what
    [yf.Ticker(symbol).history(period=period)] did.  A frame that is
    returned is a new object of the store. *)
Definition fetch_historical_data
           (symbol period : string) (answer : outcome DataFrame)
           (h : gmap nat DataFrame)
  : list event * (pyval * gmap nat DataFrame) :=
  match answer with
  | Returned historical_data =>
      if empty historical_data
      then ([Warning ("No data found for symbol: " ++ symbol
                      ++ " with period: " ++ period
                      ++ ". Please check the symbol and time period.") None],
            (PyNone, h))
      else let l := fresh (dom h) in
           ([], (PyRef l, <[l := historical_data]> h))
  | Raised e =>
      ([Error ("An error occurred while fetching data for " ++ symbol ++ ": ")
              (Some e)],
       (PyNone, h))
  end.

(** *** The script *)

Definition is_space (c : ascii) : bool :=
  let n := nat_of_ascii c in
  ((9 <=? n) && (n <=? 13)) || ((28 <=? n) && (n <=? 32)).

Definition is_lower (c : ascii) : bool :=
  let n := nat_of_ascii c in (97 <=? n) && (n <=? 122).

Definition upper_char (c : ascii) : ascii :=
  if is_lower c then ascii_of_nat (nat_of_ascii c - 32) else c.

(** [s.split(',')] on the characters of [s]. *)
Fixpoint split_comma (s : list ascii) : list (list ascii) :=
  match s with
  | [] => [[]]
  | c :: rest =>
      if Ascii.eqb c "," then [] :: split_comma rest
      else match split_comma rest with
           | [] => [[c]]
           | w :: ws => (c :: w) :: ws
           end
  end.

Fixpoint lstrip (s : list ascii) : list ascii :=
  match s with
  | [] => []
  | c :: rest => if is_space c then lstrip rest else s
  end.

(** [s.strip()] *)
Definition strip (s : list ascii) : list ascii :=
  reverse (lstrip (reverse (lstrip s))).

(** [s.upper()] *)
Definition upper (s : list ascii) : list ascii := upper_char <$> s.

(** [[symbol.strip().upper() for symbol in text.split(',')]], for a text
    of ASCII characters. *)
Definition parse_symbols (text : string) : list string :=
  (fun w => String.string_of_list_ascii (upper (strip w)))
    <$> split_comma (String.list_ascii_of_string text).

(** [d[k] = v] on a dictionary kept as the list of its items. *)
Fixpoint dict_set {V : Type} (k : string) (v : V) (d : list (string * V))
  : list (string * V) :=
  match d with
  | [] => [(k, v)]
  | (k', v') :: rest =>
      if String.eqb k k' then (k', v) :: rest
      else (k', v') :: dict_set k v rest
  end.

(** What the provider answers: the [n]-th call of [ticker.history] of a
    run, and [ticker.info] when the statistics and when the fundamentals
    of a symbol are shown. *)
Record provider : Type := mkProvider {
  history : nat -> string -> string -> outcome DataFrame;
  info_statistics : string -> outcome (gmap string pyvalue);
  info_fundamentals : string -> outcome (gmap string pyvalue)
}.

(** Lines 233-237: the loop that fetches every symbol. *)
Fixpoint fetch_all (p : provider) (period : string) (n : nat)
         (symbols : list string) (d : list (string * pyval))
         (h : gmap nat DataFrame)
  : list event * (list (string * pyval) * gmap nat DataFrame) :=
  match symbols with
  | [] => ([], (d, h))
  | symbol :: rest =>
      let '(log, (data, h')) :=
        fetch_historical_data symbol period (history p n symbol period) h in
      let d' := match data with
                | PyNone => d
                | PyRef _ => dict_set symbol data d
                end in
      let '(log', r) := fetch_all p period (S n) rest d' h' in
      (log ++ log', r)
  end.

Section WithSqrt.

Variable sqrt : Qc -> Qc.

(** Lines 240-242: the loop that runs the engine on every item. *)
Fixpoint indicators_all (items : list (string * pyval))
         (d : list (string * pyval)) (h : gmap nat DataFrame)
  : option (list (string * pyval) * gmap nat DataFrame) :=
  match items with
  | [] => Some (d, h)
  | (symbol, data) :: rest =>
      r ← calculate_technical_indicators sqrt data h;
      indicators_all rest (dict_set symbol r.1 d) r.2
  end.

(** The frame a dictionary value refers to; [None] is Python's [None]. *)
Definition deref (h : gmap nat DataFrame) (v : pyval) : option DataFrame :=
  match v with
  | PyNone => None
  | PyRef l => h !! l
  end.

Definition show_frame (h : gmap nat DataFrame) (item : string * pyval)
  : ui unit :=
  emit (Write ("Data for " ++ item.1 ++ ":"));;
  emit (Dataframe (deref h item.2)).

(** Lines 245-260: what is shown once the data is there. *)
Definition display_all (p : provider) (d : list (string * pyval))
           (h : gmap nat DataFrame) : ui unit :=
  match d with
  | [] => emit (Info "Enter stock symbols and a time period to fetch data.")
  | _ :: _ =>
      emit (Subheader "Historical Data:");;
      for_each (show_frame h) d;;
      emit (Subheader "Key Financial Statistics and Current Price");;
      for_each (fun item =>
                  display_key_statistics_and_price
                    item.1 (info_statistics p item.1)) d;;
      emit (Subheader "Fundamental Analysis");;
      for_each (fun item =>
                  display_fundamental_analysis
                    item.1 (info_fundamentals p item.1)) d;;
      generate_charts ((fun item => (item.1, deref h item.2)) <$> d)
  end.

(** One run of the script, lines 218-260, on the text of the symbol box
    and the period chosen; [None] stands for an exception that ends the
    run. *)
Definition run_script (p : provider) (text period : string)
  : option (list event * list (string * pyval) * gmap nat DataFrame) :=
  let stock_symbols := parse_symbols text in
  let '(fetch_log, (d, h)) := fetch_all p period 0 stock_symbols [] ∅ in
  r ← indicators_all d d h;
  let '(log, res) := display_all p r.1 r.2 in
  match res with
  | Returned _ =>
      Some ([Title "Real-Time Stock Market Data Analysis";
             WriteAnalyzing stock_symbols period]
            ++ fetch_log ++ log, r.1, r.2)
  | Raised _ => None
  end.

End WithSqrt.

(** [Metric] and [Info] events: what the display functions show when
    nothing goes wrong. *)
Definition quiet (e : event) : bool :=
  match e with
  | Metric _ _ _ | Info _ => true
  | _ => false
  end.

(** A value that is absent ([None]) or a number. *)
Definition numeric_or_none (v : pyvalue) : bool :=
  match v with
  | VOther _ => false
  | _ => true
  end.

Definition trace_name (t : trace) : string :=
  match t with
  | Candlestick _ _ _ _ _ name => name
  | Scatter _ _ name _ _ => name
  | BarTrace _ _ name _ => name
  end.

(** The number of points of a trace, when all its series agree on it. *)
Definition trace_points (n : nat) (t : trace) : Prop :=
  match t with
  | Candlestick x o h l c _ =>
      length x = n /\ length o = n /\ length h = n /\ length l = n
      /\ length c = n
  | Scatter x y _ _ _ => length x = n /\ length y = n
  | BarTrace x y _ _ => length x = n /\ length y = n
  end.

(** A text of ASCII characters. *)
Definition ascii_text (s : string) : Prop :=
  Forall (fun c => (nat_of_ascii c < 128)%nat) (String.list_ascii_of_string s).

(** *** Notions used to state the properties *)

(** The names of the columns the engine attaches. *)
Definition indicator_names : list string :=
  ["SMA_20"; "SMA_50"; "RSI"; "EMA_12"; "EMA_26"; "MACD"; "Signal_Line";
   "Middle_Band"; "Upper_Band"; "Lower_Band"; "Volume_SMA_20"].

Definition is_comma (c : ascii) : bool := Ascii.eqb c ",".

(** A step that shows at most [n] quiet events, whatever its result. *)
Definition calm (n : nat) (m : ui unit) : Prop :=
  Forall (fun e => quiet e = true) m.1 /\ (length m.1 <= n)%nat.

(** Quiet events, then at most one warning, which is shown only when the
    computation returns. *)
Definition settled (n : nat) (m : ui unit) : Prop :=
  exists shown last,
    m.1 = shown ++ last
    /\ Forall (fun e => quiet e = true) shown /\ (length shown <= n)%nat
    /\ (last = [] \/ (exists t c, last = [Warning t c]) /\ m.2 = Returned tt).

(** A value of the dictionary that refers to a frame with rows. *)
Definition references_rows (h : gmap nat DataFrame) (v : pyval) : Prop :=
  exists l df, v = PyRef l /\ h !! l = Some df /\ empty df = false.

(** The provider returned [df], a frame with rows, when [s] was asked
    for, the symbols asked for being [all]. *)
Definition fetched (p : provider) (period : string) (all : list string)
           (s : string) (df : DataFrame) : Prop :=
  exists m, all !! m = Some s /\ history p m s period = Returned df
            /\ empty df = false.

(** Keys and frames of the dictionary are pairwise distinct and every
    frame was fetched. *)
Definition well_fetched (p : provider) (period : string) (all : list string)
           (d : list (string * pyval)) (h : gmap nat DataFrame) : Prop :=
  NoDup d.*1 /\ NoDup d.*2
  /\ forall s v, (s, v) ∈ d ->
       exists l df, v = PyRef l /\ h !! l = Some df
                    /\ fetched p period all s df.

End App.
Export App.

(** * Properties *)

(** ** Rationals *)

Lemma Qc_eq_Q (a b : Qc) : a = b ↔ (this a == this b)%Q.
Proof. split; [intros ->; reflexivity | apply Qc_is_canon]. Qed.

(** Turn a goal over [Qc] into one over [Q], for [lra] and [nra]. *)
Ltac qc_to_q :=
  repeat match goal with
  | H : @eq Qc _ _ |- _ => apply Qc_eq_Q in H
  | H : ¬ @eq Qc _ _ |- _ => rewrite Qc_eq_Q in H
  | H : _ ∧ _ |- _ => destruct H
  end;
  try match goal with
  | |- @eq Qc _ _ => apply Qc_eq_Q
  | |- ¬ @eq Qc _ _ => rewrite Qc_eq_Q
  end;
  unfold Qcle, Qclt, Qcminus, Qcdiv, Qcplus, Qcmult, Qcopp, Qcinv, Q2Qc,
    Qc_of_Z, inject_Z in *;
  cbn [this] in *;
  repeat match goal with
  | H : context [Qred _] |- _ => rewrite Qred_correct in H
  | |- context [Qred _] => rewrite Qred_correct
  end.

Lemma Qc_ltb_lt (a b : Qc) : Qc_ltb a b = true ↔ a < b.
Proof.
  unfold Qc_ltb. rewrite Qclt_alt. destruct (a ?= b); split; congruence.
Qed.

Lemma Qc_ltb_ge (a b : Qc) : Qc_ltb a b = false ↔ b ≤ a.
Proof.
  rewrite <- not_true_iff_false, Qc_ltb_lt. split.
  - apply Qcnot_lt_le.
  - intros H1 H2. exact (Qcle_not_lt _ _ H1 H2).
Qed.

Lemma Qc_eqb_eq (a b : Qc) : Qc_eqb a b = true ↔ a = b.
Proof.
  unfold Qc_eqb. rewrite Qceq_alt. destruct (a ?= b); split; congruence.
Qed.

Lemma Qc_eqb_neq (a b : Qc) : Qc_eqb a b = false ↔ a ≠ b.
Proof. rewrite <- not_true_iff_false, Qc_eqb_eq. reflexivity. Qed.

Lemma Qc_compare_Gt (a b : Qc) : (a ?= b) = Gt ↔ b < a.
Proof. symmetry. apply Qcgt_alt. Qed.

Lemma Qc_of_Z_pos (z : Z) : (0 < z)%Z → 0 < Qc_of_Z z.
Proof.
  intros Hz. unfold Qclt, Qc_of_Z. cbn [this].
  unfold Qlt, inject_Z. simpl. lia.
Qed.

Lemma Qc_of_Z_neq0 (z : Z) : z ≠ 0%Z → Qc_of_Z z ≠ 0.
Proof.
  intros Hz Heq. apply Qc_eq_Q in Heq. unfold Qc_of_Z in Heq.
  cbn [this] in Heq. unfold Qeq, inject_Z in Heq. simpl in Heq. lia.
Qed.

Lemma Qc_sqr_nonneg (a : Qc) : 0 ≤ a * a.
Proof. qc_to_q. nra. Qed.

Lemma Qcmult_nonneg (a b : Qc) : 0 ≤ a → 0 ≤ b → 0 ≤ a * b.
Proof. intros. qc_to_q. nra. Qed.

Lemma Qcdiv_nonneg (a b : Qc) : 0 ≤ a → 0 < b → 0 ≤ a / b.
Proof.
  intros Ha Hb.
  assert (Hne : b ≠ 0) by (intros ->; exact (Qclt_not_eq _ _ Hb eq_refl)).
  assert (Hx : a / b * b = a) by (field; exact Hne).
  destruct (Qclt_le_dec (a / b) 0) as [Hneg|]; [|assumption].
  exfalso. remember (a / b) as r. clear Heqr. qc_to_q. nra.
Qed.

(** ** Columns of finite values *)

Lemma fsum_fin (qs : list Qc) : fsum (Fin <$> qs) = Fin (Qcsum qs).
Proof.
  induction qs as [|q qs IH]; [reflexivity|].
  cbn. unfold fsum in IH. rewrite IH. reflexivity.
Qed.

Lemma forallb_notna_fin (qs : list Qc) : forallb notna (Fin <$> qs) = true.
Proof. induction qs; [reflexivity | assumption]. Qed.

Lemma window_fin (k i : nat) (qs : list Qc) :
  window k i (Fin <$> qs) = Fin <$> take k (drop (i + 1 - k) qs).
Proof. unfold window. rewrite <- fmap_drop, <- fmap_take. reflexivity. Qed.

Lemma window_full_fin (k i : nat) (qs : list Qc) :
  window_full k i (Fin <$> qs) = (k <=? i + 1)%nat.
Proof.
  unfold window_full. rewrite window_fin, forallb_notna_fin.
  apply andb_true_r.
Qed.

Lemma window_length (k i : nat) (qs : list Qc) :
  (k ≤ i + 1)%nat → (i < length qs)%nat →
  length (take k (drop (i + 1 - k) qs)) = k.
Proof. intros Hk Hi. rewrite length_take, length_drop. lia. Qed.

Lemma Qcsum_window (qs : list Qc) (k start : nat) :
  Qcsum (take k (drop start qs)) = sum_from qs start k.
Proof.
  revert start. induction k as [|k IH]; intros start; [reflexivity|].
  cbn [sum_from]. rewrite <- IH. destruct (qs !! start) as [x|] eqn:Hx.
  - rewrite (drop_S _ _ _ Hx). reflexivity.
  - apply lookup_ge_None in Hx.
    rewrite !drop_ge by lia. rewrite !take_nil. cbn. ring.
Qed.

Lemma mean_of_fin (k : nat) (w : list Qc) :
  (1 ≤ k)%nat →
  mean_of k (Fin <$> w) = Fin (Qcsum w / Qc_of_Z (Z.of_nat k)).
Proof.
  intros Hk. unfold mean_of. rewrite fsum_fin. cbn.
  assert (Hne : Qc_of_Z (Z.of_nat k) ≠ 0) by (apply Qc_of_Z_neq0; lia).
  apply Qc_eqb_neq in Hne. rewrite Hne. reflexivity.
Qed.

Lemma rolling_mean_length (k : nat) (s : Series) :
  length (rolling_mean k s) = length s.
Proof. unfold rolling_mean. rewrite length_fmap, length_seq. reflexivity. Qed.

Lemma rolling_mean_lookup (k i : nat) (s : Series) :
  (i < length s)%nat →
  rolling_mean k s !! i =
    Some (if window_full k i s then mean_of k (window k i s) else NaN).
Proof.
  intros Hi. unfold rolling_mean.
  rewrite list_lookup_fmap, lookup_seq_lt by assumption. reflexivity.
Qed.

Lemma rolling_mean_fin_lookup (k i : nat) (qs : list Qc) :
  (1 ≤ k)%nat → (i < length qs)%nat →
  rolling_mean k (Fin <$> qs) !! i =
    Some (if (k <=? i + 1)%nat then Fin (mean_at qs k i) else NaN).
Proof.
  intros Hk Hi.
  rewrite rolling_mean_lookup by (rewrite length_fmap; assumption).
  rewrite window_full_fin. destruct (k <=? i + 1)%nat; [|reflexivity].
  rewrite window_fin, mean_of_fin by assumption.
  unfold mean_at. rewrite Qcsum_window. reflexivity.
Qed.

Lemma rolling_std_length (sqrt : Qc → Qc) (k : nat) (s : Series) :
  length (rolling_std sqrt k s) = length s.
Proof. unfold rolling_std. rewrite length_fmap, length_seq. reflexivity. Qed.

Lemma rolling_std_lookup (sqrt : Qc → Qc) (k i : nat) (s : Series) :
  (i < length s)%nat →
  rolling_std sqrt k s !! i =
    Some (if window_full k i s
          then fsqrt sqrt (var_of k (window k i s)) else NaN).
Proof.
  intros Hi. unfold rolling_std.
  rewrite list_lookup_fmap, lookup_seq_lt by assumption. reflexivity.
Qed.

Lemma Qcsum_nonneg (xs : list Qc) : Forall (Qcle 0) xs → 0 ≤ Qcsum xs.
Proof.
  induction 1 as [|x xs Hx _ IH]; cbn; [apply Qcle_refl|].
  apply Qcplus_nonneg_nonneg; assumption.
Qed.

Lemma sample_var_nonneg (w : list Qc) :
  (2 ≤ length w)%nat → 0 ≤ sample_var w.
Proof.
  intros Hw. unfold sample_var. apply Qcdiv_nonneg.
  - apply Qcsum_nonneg. apply Forall_fmap, Forall_forall.
    intros x _. apply Qc_sqr_nonneg.
  - apply Qc_of_Z_pos. lia.
Qed.

Lemma fmap_sq_dev_fin (m : Qc) (w : list Qc) :
  (fun x => fmul (fsub x (Fin m)) (fsub x (Fin m))) <$> (Fin <$> w)
  = Fin <$> ((fun x => (x - m) * (x - m)) <$> w).
Proof.
  rewrite <- !list_fmap_compose. apply list_fmap_ext. intros _ x _.
  reflexivity.
Qed.

Lemma var_of_fin (w : list Qc) :
  (2 ≤ length w)%nat →
  var_of (length w) (Fin <$> w) = Fin (sample_var w).
Proof.
  intros Hw. unfold var_of. rewrite mean_of_fin by lia.
  rewrite fmap_sq_dev_fin, fsum_fin. cbn.
  assert (Hne : Qc_of_Z (Z.of_nat (length w) - 1) ≠ 0)
    by (apply Qc_of_Z_neq0; lia).
  apply Qc_eqb_neq in Hne. rewrite Hne. reflexivity.
Qed.

Lemma rolling_std_fin_lookup (sqrt : Qc → Qc) (k i : nat) (qs : list Qc) :
  (2 ≤ k)%nat → (i < length qs)%nat →
  rolling_std sqrt k (Fin <$> qs) !! i =
    Some (if (k <=? i + 1)%nat
          then Fin (sqrt (sample_var (take k (drop (i + 1 - k) qs))))
          else NaN).
Proof.
  intros Hk Hi.
  rewrite rolling_std_lookup by (rewrite length_fmap; assumption).
  rewrite window_full_fin. destruct (k <=? i + 1)%nat eqn:Hki; [|reflexivity].
  apply Nat.leb_le in Hki. rewrite window_fin.
  pose proof (window_length k i qs Hki Hi) as Hlen.
  rewrite <- Hlen at 1. rewrite var_of_fin by lia.
  cbn. assert (Hge : 0 ≤ sample_var (take k (drop (i + 1 - k) qs)))
    by (apply sample_var_nonneg; lia).
  apply Qc_ltb_ge in Hge. rewrite Hge. reflexivity.
Qed.

(** ** Exponential smoothing *)

Lemma ewm_loop_length (alpha : Qc) (w : fval) (ow : Qc) (s : Series) :
  length (ewm_loop alpha w ow s) = length s.
Proof.
  revert w ow. induction s as [|x s IH]; intros w ow; [reflexivity|].
  cbn [ewm_loop].
  destruct (if notna w then _ else _) as [w' ow']. cbn. rewrite IH.
  reflexivity.
Qed.

Lemma ewm_mean_length (span : Z) (s : Series) :
  length (ewm_mean span s) = length s.
Proof. destruct s; cbn; [|rewrite ewm_loop_length]; reflexivity. Qed.

(** Without a gap the weight of a new observation is [alpha] for every
    span. *)
Lemma new_weight_no_gap (alpha : Qc) :
  new_weight alpha (1 * (1 - alpha)) = alpha.
Proof. unfold new_weight. destruct (Qc_eqb _ _); [ring | reflexivity]. Qed.

Lemma ewm_step_fin (alpha prev x : Qc) :
  fdiv (fadd (fmul (Fin (1 * (1 - alpha))) (Fin prev))
             (fmul (Fin (new_weight alpha (1 * (1 - alpha)))) (Fin x)))
       (Fin (1 * (1 - alpha) + new_weight alpha (1 * (1 - alpha))))
  = Fin (alpha * x + (1 - alpha) * prev).
Proof.
  rewrite new_weight_no_gap.
  replace (1 * (1 - alpha) + alpha) with (Q2Qc 1) by ring.
  cbn. f_equal. field. exact Q_apart_0_1.
Qed.

Lemma ewm_loop_fin (alpha prev : Qc) (xs : list Qc) :
  ewm_loop alpha (Fin prev) 1 (Fin <$> xs) = Fin <$> ema_from alpha prev xs.
Proof.
  revert prev. induction xs as [|x xs IH]; intros prev; [reflexivity|].
  cbn [ewm_loop fmap list_fmap ema_from notna isna negb].
  rewrite ewm_step_fin, IH. reflexivity.
Qed.

Lemma ewm_mean_fin (span : Z) (xs : list Qc) :
  ewm_mean span (Fin <$> xs) = Fin <$> ema (alpha_of_span span) xs.
Proof. destruct xs as [|x xs]; cbn; [|rewrite ewm_loop_fin]; reflexivity. Qed.

(** A column whose first entry is [NaN]: the average starts at the second
    entry. *)
Lemma ewm_mean_nan_fin (span : Z) (xs : list Qc) :
  ewm_mean span (NaN :: (Fin <$> xs))
  = NaN :: (Fin <$> ema (alpha_of_span span) xs).
Proof.
  destruct xs as [|x xs]; [reflexivity|].
  cbn [ewm_mean fmap list_fmap ewm_loop notna isna negb ema].
  rewrite ewm_loop_fin. reflexivity.
Qed.

Lemma ema_from_length (alpha prev : Qc) (xs : list Qc) :
  length (ema_from alpha prev xs) = length xs.
Proof.
  revert prev. induction xs as [|x xs IH]; intros prev; cbn;
    [|rewrite IH]; reflexivity.
Qed.

Lemma ema_length (alpha : Qc) (xs : list Qc) : length (ema alpha xs) = length xs.
Proof. destruct xs; cbn; [|rewrite ema_from_length]; reflexivity. Qed.

Lemma ema_from_lookup_0 (alpha prev : Qc) (xs : list Qc) (x : Qc) :
  xs !! 0%nat = Some x →
  ema_from alpha prev xs !! 0%nat = Some (alpha * x + (1 - alpha) * prev).
Proof. destruct xs; cbn; [discriminate|]. intros [= ->]. reflexivity. Qed.

Lemma ema_from_lookup_S (alpha prev : Qc) (xs : list Qc) (i : nat) (x y : Qc) :
  ema_from alpha prev xs !! i = Some y →
  xs !! S i = Some x →
  ema_from alpha prev xs !! S i = Some (alpha * x + (1 - alpha) * y).
Proof.
  revert prev i. induction xs as [|x0 xs IH]; intros prev i; [discriminate|].
  destruct i as [|i]; cbn.
  - intros [= <-] Hx. apply ema_from_lookup_0. exact Hx.
  - intros Hy Hx. apply (IH _ i); assumption.
Qed.

(** The recurrence, entry by entry. *)
Lemma ema_lookup_0 (alpha : Qc) (xs : list Qc) : ema alpha xs !! 0%nat = xs !! 0%nat.
Proof. destruct xs; reflexivity. Qed.

Lemma ema_lookup_S (alpha : Qc) (xs : list Qc) (i : nat) (x y : Qc) :
  ema alpha xs !! i = Some y →
  xs !! S i = Some x →
  ema alpha xs !! S i = Some (alpha * x + (1 - alpha) * y).
Proof.
  destruct xs as [|x0 xs]; [discriminate|]. destruct i as [|i]; cbn.
  - intros [= <-] Hx. apply ema_from_lookup_0. exact Hx.
  - intros Hy Hx. apply (ema_from_lookup_S _ _ _ i); assumption.
Qed.

Lemma ema_from_opp (alpha prev : Qc) (xs : list Qc) :
  ema_from alpha (- prev) (Qcopp <$> xs) = Qcopp <$> ema_from alpha prev xs.
Proof.
  revert prev. induction xs as [|x xs IH]; intros prev; [reflexivity|].
  cbn. replace (alpha * - x + (1 - alpha) * - prev)
    with (- (alpha * x + (1 - alpha) * prev)) by ring.
  rewrite IH. reflexivity.
Qed.

Lemma ema_opp (alpha : Qc) (xs : list Qc) :
  ema alpha (Qcopp <$> xs) = Qcopp <$> ema alpha xs.
Proof. destruct xs; cbn; [|rewrite ema_from_opp]; reflexivity. Qed.

Section Smoothing.

Variable alpha : Qc.
Hypothesis alpha_pos : 0 < alpha.
Hypothesis alpha_lt1 : alpha < 1.

Lemma ema_step_nonneg (x prev : Qc) :
  0 ≤ x → 0 ≤ prev → 0 ≤ alpha * x + (1 - alpha) * prev.
Proof using alpha_pos alpha_lt1. intros. qc_to_q. nra. Qed.

Lemma ema_step_pos (x prev : Qc) :
  0 ≤ x → 0 < prev → 0 < alpha * x + (1 - alpha) * prev.
Proof using alpha_pos alpha_lt1. intros. qc_to_q. nra. Qed.

Lemma ema_from_nonneg (prev : Qc) (xs : list Qc) :
  0 ≤ prev → Forall (Qcle 0) xs → Forall (Qcle 0) (ema_from alpha prev xs).
Proof using alpha_pos alpha_lt1.
  intros Hp Hxs. revert prev Hp.
  induction Hxs as [|x xs Hx _ IH]; intros prev Hp; cbn; constructor.
  - apply ema_step_nonneg; assumption.
  - apply IH. apply ema_step_nonneg; assumption.
Qed.

Lemma ema_nonneg (xs : list Qc) :
  Forall (Qcle 0) xs → Forall (Qcle 0) (ema alpha xs).
Proof using alpha_pos alpha_lt1.
  destruct 1 as [|x xs Hx Hxs]; cbn; constructor; [assumption|].
  apply ema_from_nonneg; assumption.
Qed.

(** Once positive, the smoothed average of non-negative values stays
    positive. *)
Lemma ema_pos_step (xs : list Qc) (i : nat) (y z : Qc) :
  Forall (Qcle 0) xs →
  ema alpha xs !! i = Some y → 0 < y →
  ema alpha xs !! S i = Some z → 0 < z.
Proof using alpha_pos alpha_lt1.
  intros Hxs Hy Hpos Hz.
  assert (Hlt : (S i < length xs)%nat).
  { apply lookup_lt_Some in Hz. rewrite ema_length in Hz. exact Hz. }
  destruct (lookup_lt_is_Some_2 xs (S i) Hlt) as [x Hx].
  rewrite (ema_lookup_S _ _ _ _ _ Hy Hx) in Hz. injection Hz as <-.
  apply ema_step_pos; [|assumption].
  rewrite Forall_lookup in Hxs. exact (Hxs _ _ Hx).
Qed.

End Smoothing.

Lemma alpha_of_span_14 : alpha_of_span 14 = alpha_rsi.
Proof. apply Qc_is_canon. reflexivity. Qed.

Lemma alpha_rsi_pos : 0 < alpha_rsi.
Proof. reflexivity. Qed.

Lemma alpha_rsi_lt1 : alpha_rsi < 1.
Proof. reflexivity. Qed.

(** ** The RSI block *)

Lemma zip_with_fsub_fin (xs ys : list Qc) :
  zip_with fsub (Fin <$> xs) (Fin <$> ys) = Fin <$> zip_with Qcminus xs ys.
Proof.
  revert ys. induction xs as [|x xs IH]; intros [|y ys]; cbn; try reflexivity.
  rewrite IH. reflexivity.
Qed.

Lemma rsi_delta_fin (c0 : Qc) (cs : list Qc) :
  rsi_delta (Fin <$> c0 :: cs) = NaN :: (Fin <$> deltas (c0 :: cs)).
Proof.
  unfold rsi_delta, diff, deltas. cbn [fmap list_fmap tail].
  rewrite <- zip_with_fsub_fin. reflexivity.
Qed.

Lemma clip_negative_fin (ds : list Qc) :
  clip_negative (NaN :: (Fin <$> ds)) = NaN :: (Fin <$> (gain_of <$> ds)).
Proof.
  unfold clip_negative. cbn. f_equal.
  rewrite <- !list_fmap_compose. apply list_fmap_ext. intros _ d _. cbn.
  unfold gain_of, Qcmax. destruct (Qc_ltb d 0); reflexivity.
Qed.

Lemma clip_positive_fin (ds : list Qc) :
  clip_positive (NaN :: (Fin <$> ds))
  = NaN :: (Fin <$> ((fun d => Qcmin d 0) <$> ds)).
Proof.
  unfold clip_positive. cbn. f_equal.
  rewrite <- !list_fmap_compose. apply list_fmap_ext. intros _ d _. cbn.
  unfold Qcmin. destruct (Qc_ltb 0 d); reflexivity.
Qed.

Lemma gain_of_nonneg (d : Qc) : 0 ≤ gain_of d.
Proof.
  unfold gain_of, Qcmax. destruct (Qc_ltb d 0) eqn:Hd; [apply Qcle_refl|].
  apply Qc_ltb_ge. exact Hd.
Qed.

Lemma loss_of_nonneg (d : Qc) : 0 ≤ loss_of d.
Proof.
  unfold loss_of, Qcmax. destruct (Qc_ltb (- d) 0) eqn:Hd; [apply Qcle_refl|].
  apply Qc_ltb_ge. exact Hd.
Qed.

Lemma Qcmin_0_loss (d : Qc) : Qcmin d 0 = - loss_of d.
Proof.
  unfold Qcmin, loss_of, Qcmax.
  destruct (Qc_ltb 0 d) eqn:H1; destruct (Qc_ltb (- d) 0) eqn:H2.
  - apply Qc_is_canon. reflexivity.
  - apply Qc_ltb_lt in H1. apply Qc_ltb_ge in H2. exfalso. qc_to_q. lra.
  - apply Qc_ltb_ge in H1. apply Qc_ltb_lt in H2. exfalso. qc_to_q. lra.
  - ring.
Qed.

Lemma Qcabs_opp_nonneg (y : Qc) : 0 ≤ y → Qcabs (- y) = y.
Proof.
  intros Hy. unfold Qcabs. destruct (Qc_ltb (- y) 0) eqn:H1; [ring|].
  apply Qc_ltb_ge in H1. qc_to_q. lra.
Qed.

Lemma gains_nonneg (cs : list Qc) : Forall (Qcle 0) (gains cs).
Proof. apply Forall_fmap, Forall_forall. intros d _. apply gain_of_nonneg. Qed.

Lemma losses_nonneg (cs : list Qc) : Forall (Qcle 0) (losses cs).
Proof. apply Forall_fmap, Forall_forall. intros d _. apply loss_of_nonneg. Qed.

Lemma deltas_length (c0 : Qc) (cs : list Qc) :
  length (deltas (c0 :: cs)) = length cs.
Proof. unfold deltas. cbn [tail]. rewrite length_zip_with. cbn. lia. Qed.

Lemma deltas_lookup (cs : list Qc) (i : nat) (a b : Qc) :
  cs !! i = Some a → cs !! S i = Some b → deltas cs !! i = Some (b - a).
Proof.
  intros Ha Hb. unfold deltas. rewrite lookup_zip_with.
  rewrite lookup_tail, Hb, Ha. reflexivity.
Qed.

(** The smoothed gains: undefined at row 0, then the recurrence over the
    gains from row 1 on. *)
Lemma rsi_avg_gain_fin (c0 : Qc) (cs : list Qc) :
  rsi_avg_gain (Fin <$> c0 :: cs)
  = NaN :: (Fin <$> ema alpha_rsi (gains (c0 :: cs))).
Proof.
  unfold rsi_avg_gain, rsi_gain. rewrite rsi_delta_fin, clip_negative_fin.
  rewrite ewm_mean_nan_fin, alpha_of_span_14. reflexivity.
Qed.

(** The smoothed losses: the engine smooths the non-positive changes and
    takes the absolute value; that is the recurrence over the magnitudes. *)
Lemma rsi_avg_loss_fin (c0 : Qc) (cs : list Qc) :
  rsi_avg_loss (Fin <$> c0 :: cs)
  = NaN :: (Fin <$> ema alpha_rsi (losses (c0 :: cs))).
Proof.
  unfold rsi_avg_loss, rsi_loss. rewrite rsi_delta_fin, clip_positive_fin.
  rewrite ewm_mean_nan_fin, alpha_of_span_14.
  unfold series_abs. cbn [fmap list_fmap fabs]. f_equal.
  rewrite <- list_fmap_compose.
  replace ((fun d => Qcmin d 0) <$> deltas (c0 :: cs))
    with (Qcopp <$> losses (c0 :: cs)).
  2:{ unfold losses. rewrite <- list_fmap_compose. apply list_fmap_ext.
      intros _ d _. cbn. symmetry. apply Qcmin_0_loss. }
  rewrite ema_opp. rewrite <- list_fmap_compose.
  pose proof (ema_nonneg alpha_rsi alpha_rsi_pos alpha_rsi_lt1 _
                (losses_nonneg (c0 :: cs))) as Hnn.
  induction Hnn as [|y ys Hy _ IH]; [reflexivity|].
  cbn. rewrite Qcabs_opp_nonneg by assumption. f_equal. exact IH.
Qed.

Lemma rsi_rs_lookup (s : Series) (i : nat) (g l : fval) :
  rsi_avg_gain s !! i = Some g → rsi_avg_loss s !! i = Some l →
  rsi_rs s !! i = Some (fdiv g l).
Proof.
  intros Hg Hl. unfold rsi_rs, series_div.
  rewrite lookup_zip_with, Hg, Hl. reflexivity.
Qed.

Lemma rsi_lookup_rs (s : Series) (i : nat) :
  rsi s !! i = rsi_of_rs <$> rsi_rs s !! i.
Proof.
  unfold rsi, scalar_sub_series, scalar_div_series, scalar_add_series.
  rewrite !list_lookup_fmap. destruct (rsi_rs s !! i); reflexivity.
Qed.

Lemma rsi_lookup (s : Series) (i : nat) (g l : fval) :
  rsi_avg_gain s !! i = Some g → rsi_avg_loss s !! i = Some l →
  rsi s !! i = Some (rsi_of_rs (fdiv g l)).
Proof.
  intros Hg Hl. rewrite rsi_lookup_rs, (rsi_rs_lookup _ _ _ _ Hg Hl).
  reflexivity.
Qed.

Lemma rsi_length (s : Series) : length (rsi s) = length s.
Proof.
  unfold rsi, scalar_sub_series, scalar_div_series, scalar_add_series.
  rewrite !length_fmap. unfold rsi_rs, series_div. rewrite length_zip_with.
  unfold rsi_avg_gain, rsi_avg_loss, series_abs.
  rewrite length_fmap, !ewm_mean_length.
  unfold rsi_gain, rsi_loss, clip_negative, clip_positive.
  rewrite !length_fmap. unfold rsi_delta, diff.
  destruct s as [|x s]; [reflexivity|]. cbn. rewrite length_zip_with. cbn. lia.
Qed.

(** The three cases of the quotient of two non-negative averages. *)
Lemma rsi_of_rs_both_zero : rsi_of_rs (fdiv (Fin 0) (Fin 0)) = NaN.
Proof. reflexivity. Qed.

Lemma fdiv_zero_loss (g : Qc) : 0 < g → fdiv (Fin g) (Fin 0) = PInf.
Proof.
  intros Hg. cbn. apply Qc_compare_Gt in Hg. rewrite Hg. reflexivity.
Qed.

Lemma rsi_of_rs_inf : rsi_of_rs PInf = Fin (Qc_of_Z 100).
Proof. cbn. f_equal. apply Qc_is_canon. reflexivity. Qed.

Lemma rsi_of_rs_pos_loss (g l : Qc) :
  0 ≤ g → 0 < l →
  rsi_of_rs (fdiv (Fin g) (Fin l))
  = Fin (Qc_of_Z 100 - Qc_of_Z 100 / (1 + g / l)).
Proof.
  intros Hg Hl.
  assert (Hl0 : l ≠ 0) by (intros ->; exact (Qclt_not_eq _ _ Hl eq_refl)).
  assert (Hq : 0 ≤ g / l) by (apply Qcdiv_nonneg; assumption).
  assert (Hs : 1 + g / l ≠ 0).
  { intros Heq. remember (g / l) as q. clear Heqq. qc_to_q. lra. }
  unfold rsi_of_rs. cbn [fdiv].
  apply Qc_eqb_neq in Hl0. rewrite Hl0. cbn [fadd fdiv].
  apply Qc_eqb_neq in Hs. rewrite Hs. reflexivity.
Qed.

Lemma rsi_value_range (g l : Qc) :
  0 ≤ g → 0 < l →
  0 ≤ Qc_of_Z 100 - Qc_of_Z 100 / (1 + g / l)
  ∧ Qc_of_Z 100 - Qc_of_Z 100 / (1 + g / l) < Qc_of_Z 100
  ∧ (Qc_of_Z 100 - Qc_of_Z 100 / (1 + g / l) = 0 ↔ g = 0).
Proof.
  intros Hg Hl.
  assert (Hl0 : l ≠ 0) by (intros ->; exact (Qclt_not_eq _ _ Hl eq_refl)).
  assert (Hgl : g + l ≠ 0) by (intros Heq; qc_to_q; lra).
  assert (Hr : (Qc_of_Z 100 - Qc_of_Z 100 / (1 + g / l)) * (g + l)
               = Qc_of_Z 100 * g).
  { field. split; [assumption|]. rewrite Qcplus_comm. assumption. }
  remember (Qc_of_Z 100 - Qc_of_Z 100 / (1 + g / l)) as r. clear Heqr.
  repeat split.
  - destruct (Qclt_le_dec r 0) as [Hneg|]; [|assumption].
    exfalso. qc_to_q. nra.
  - apply Qcnot_le_lt. intros Hge. qc_to_q. nra.
  - intros ->. qc_to_q. nra.
  - intros ->. qc_to_q. nra.
Qed.

(** ** The frame after the indicator columns are attached *)

Lemma attach_indicators_eq (sqrt : Qc → Qc) (data : DataFrame) :
  attach_indicators sqrt data = Some (attached sqrt data).
Proof.
  unfold attach_indicators.
  repeat first
    [ progress cbn [getitem setitem bars columns mbind option_bind
                    String.eqb Ascii.eqb Bool.eqb]
    | rewrite lookup_insert_eq
    | rewrite lookup_insert_ne by done ].
  reflexivity.
Qed.

Lemma attached_bars (sqrt : Qc → Qc) (data : DataFrame) :
  bars (attached sqrt data) = bars data.
Proof. reflexivity. Qed.

Lemma enrich_eq (sqrt : Qc → Qc) (data : DataFrame) :
  enrich sqrt data = Some (dropna (attached sqrt data)).
Proof. unfold enrich. rewrite attach_indicators_eq. reflexivity. Qed.

(** A call on a frame that holds rows: the frame is replaced in the
    store and its reference returned. *)
Lemma calculate_nonempty (sqrt : Qc → Qc) (h : gmap nat DataFrame)
      (l : nat) (df : DataFrame) :
  h !! l = Some df → empty df = false →
  calculate_technical_indicators sqrt (PyRef l) h
  = Some (PyRef l, <[l := dropna (attached sqrt df)]> h).
Proof.
  intros Hl He. unfold calculate_technical_indicators.
  rewrite Hl. cbn [mbind option_bind]. rewrite He, enrich_eq. reflexivity.
Qed.

Lemma calculate_empty (sqrt : Qc → Qc) (h : gmap nat DataFrame)
      (l : nat) (df : DataFrame) :
  h !! l = Some df → empty df = true →
  calculate_technical_indicators sqrt (PyRef l) h = Some (PyRef l, h).
Proof.
  intros Hl He. unfold calculate_technical_indicators.
  rewrite Hl. cbn [mbind option_bind]. rewrite He. reflexivity.
Qed.

Lemma close_col_fin (data : DataFrame) :
  close_col data = Fin <$> (close <$> bars data).
Proof. unfold close_col. rewrite <- list_fmap_compose. reflexivity. Qed.

Lemma volume_col_fin (data : DataFrame) :
  volume_col data = Fin <$> (volume <$> bars data).
Proof. unfold volume_col. rewrite <- list_fmap_compose. reflexivity. Qed.

(** The columns of the frame once the indicators are attached. *)
Lemma attached_lookup (sqrt : Qc → Qc) (data : DataFrame) :
  let a := attached sqrt data in
  let close := close_col data in
  columns a !! "SMA_20" = Some (rolling_mean 20 close)
  ∧ columns a !! "SMA_50" = Some (rolling_mean 50 close)
  ∧ columns a !! "RSI" = Some (rsi close)
  ∧ columns a !! "EMA_12" = Some (ewm_mean 12 close)
  ∧ columns a !! "EMA_26" = Some (ewm_mean 26 close)
  ∧ columns a !! "MACD" = Some (macd close)
  ∧ columns a !! "Signal_Line" = Some (signal_line close)
  ∧ columns a !! "Middle_Band" = Some (rolling_mean 20 close)
  ∧ columns a !! "Upper_Band" = Some (upper_band sqrt close)
  ∧ columns a !! "Lower_Band" = Some (lower_band sqrt close)
  ∧ columns a !! "Volume_SMA_20" = Some (rolling_mean 20 (volume_col data)).
Proof.
  cbn zeta. unfold attached, setitem. cbn [columns bars].
  repeat split; by simplify_map_eq.
Qed.

(** ** Where each column is defined *)

Lemma defined_at_fin (qs : list Qc) (i : nat) :
  (i < length qs)%nat → defined_at (Fin <$> qs) i = true.
Proof.
  intros Hi. unfold defined_at. rewrite list_lookup_fmap.
  destruct (lookup_lt_is_Some_2 qs i Hi) as [q ->]. reflexivity.
Qed.

Lemma defined_at_lt (s : Series) (i : nat) :
  defined_at s i = true → (i < length s)%nat.
Proof.
  unfold defined_at. destruct (s !! i) eqn:Hs; [|discriminate].
  intros _. exact (lookup_lt_Some _ _ _ Hs).
Qed.

Lemma defined_at_rolling_mean (k i : nat) (qs : list Qc) :
  (1 ≤ k)%nat → (i < length qs)%nat →
  defined_at (rolling_mean k (Fin <$> qs)) i = (k <=? i + 1)%nat.
Proof.
  intros Hk Hi. unfold defined_at.
  rewrite rolling_mean_fin_lookup by assumption.
  destruct (k <=? i + 1)%nat; reflexivity.
Qed.

Lemma macd_fin (qs : list Qc) :
  macd (Fin <$> qs)
  = Fin <$> zip_with Qcminus (ema (alpha_of_span 12) qs)
                             (ema (alpha_of_span 26) qs).
Proof.
  unfold macd, series_sub. rewrite !ewm_mean_fin. apply zip_with_fsub_fin.
Qed.

Lemma macd_fin_length (qs : list Qc) :
  length (zip_with Qcminus (ema (alpha_of_span 12) qs)
                           (ema (alpha_of_span 26) qs)) = length qs.
Proof. rewrite length_zip_with, !ema_length. lia. Qed.

Lemma signal_line_fin (qs : list Qc) :
  signal_line (Fin <$> qs)
  = Fin <$> ema (alpha_of_span 9)
              (zip_with Qcminus (ema (alpha_of_span 12) qs)
                                (ema (alpha_of_span 26) qs)).
Proof. unfold signal_line. rewrite macd_fin, ewm_mean_fin. reflexivity. Qed.

Lemma band_width_fin_lookup (sqrt : Qc → Qc) (i : nat) (qs : list Qc) :
  (i < length qs)%nat →
  band_width sqrt (Fin <$> qs) !! i =
    Some (if (20 <=? i + 1)%nat
          then Fin (sqrt (sample_var (take 20 (drop (i + 1 - 20) qs)))
                    * Qc_of_Z 2)
          else NaN).
Proof.
  intros Hi. unfold band_width, series_mul_scalar.
  rewrite list_lookup_fmap, rolling_std_fin_lookup by (lia || assumption).
  destruct (20 <=? i + 1)%nat; reflexivity.
Qed.

Lemma upper_band_fin_lookup (sqrt : Qc → Qc) (i : nat) (qs : list Qc) :
  (i < length qs)%nat →
  upper_band sqrt (Fin <$> qs) !! i =
    Some (if (20 <=? i + 1)%nat
          then Fin (mean_at qs 20 i
                    + sqrt (sample_var (take 20 (drop (i + 1 - 20) qs)))
                      * Qc_of_Z 2)
          else NaN).
Proof.
  intros Hi. unfold upper_band, series_add.
  rewrite lookup_zip_with, rolling_mean_fin_lookup by (lia || assumption).
  rewrite band_width_fin_lookup by assumption.
  destruct (20 <=? i + 1)%nat; reflexivity.
Qed.

Lemma lower_band_fin_lookup (sqrt : Qc → Qc) (i : nat) (qs : list Qc) :
  (i < length qs)%nat →
  lower_band sqrt (Fin <$> qs) !! i =
    Some (if (20 <=? i + 1)%nat
          then Fin (mean_at qs 20 i
                    - sqrt (sample_var (take 20 (drop (i + 1 - 20) qs)))
                      * Qc_of_Z 2)
          else NaN).
Proof.
  intros Hi. unfold lower_band, series_sub.
  rewrite lookup_zip_with, rolling_mean_fin_lookup by (lia || assumption).
  rewrite band_width_fin_lookup by assumption.
  destruct (20 <=? i + 1)%nat; reflexivity.
Qed.

Lemma defined_at_upper_band (sqrt : Qc → Qc) (i : nat) (qs : list Qc) :
  (i < length qs)%nat →
  defined_at (upper_band sqrt (Fin <$> qs)) i = (20 <=? i + 1)%nat.
Proof.
  intros Hi. unfold defined_at. rewrite upper_band_fin_lookup by assumption.
  destruct (20 <=? i + 1)%nat; reflexivity.
Qed.

Lemma defined_at_lower_band (sqrt : Qc → Qc) (i : nat) (qs : list Qc) :
  (i < length qs)%nat →
  defined_at (lower_band sqrt (Fin <$> qs)) i = (20 <=? i + 1)%nat.
Proof.
  intros Hi. unfold defined_at. rewrite lower_band_fin_lookup by assumption.
  destruct (20 <=? i + 1)%nat; reflexivity.
Qed.

(** The RSI from row 1 on: the formula applied to two non-negative
    averages. *)
Lemma rsi_fin_lookup_S (c0 : Qc) (cs : list Qc) (j : nat) :
  (j < length cs)%nat →
  ∃ g l : Qc,
    ema alpha_rsi (gains (c0 :: cs)) !! j = Some g
    ∧ ema alpha_rsi (losses (c0 :: cs)) !! j = Some l
    ∧ 0 ≤ g ∧ 0 ≤ l
    ∧ rsi (Fin <$> c0 :: cs) !! S j = Some (rsi_of_rs (fdiv (Fin g) (Fin l))).
Proof.
  intros Hj.
  assert (Hg : (j < length (ema alpha_rsi (gains (c0 :: cs))))%nat).
  { rewrite ema_length. unfold gains. rewrite length_fmap, deltas_length.
    exact Hj. }
  assert (Hl : (j < length (ema alpha_rsi (losses (c0 :: cs))))%nat).
  { rewrite ema_length. unfold losses. rewrite length_fmap, deltas_length.
    exact Hj. }
  destruct (lookup_lt_is_Some_2 _ _ Hg) as [g Hg'].
  destruct (lookup_lt_is_Some_2 _ _ Hl) as [l Hl'].
  exists g, l. repeat split; try assumption.
  - pose proof (ema_nonneg alpha_rsi alpha_rsi_pos alpha_rsi_lt1 _
                  (gains_nonneg (c0 :: cs))) as Hnn.
    rewrite Forall_lookup in Hnn. exact (Hnn _ _ Hg').
  - pose proof (ema_nonneg alpha_rsi alpha_rsi_pos alpha_rsi_lt1 _
                  (losses_nonneg (c0 :: cs))) as Hnn.
    rewrite Forall_lookup in Hnn. exact (Hnn _ _ Hl').
  - apply rsi_lookup.
    + rewrite rsi_avg_gain_fin, lookup_cons, list_lookup_fmap, Hg'.
      reflexivity.
    + rewrite rsi_avg_loss_fin, lookup_cons, list_lookup_fmap, Hl'.
      reflexivity.
Qed.

Lemma rsi_fin_lookup_0 (c0 : Qc) (cs : list Qc) :
  rsi (Fin <$> c0 :: cs) !! 0%nat = Some NaN.
Proof.
  rewrite (rsi_lookup _ _ NaN NaN); [reflexivity| |].
  - rewrite rsi_avg_gain_fin. reflexivity.
  - rewrite rsi_avg_loss_fin. reflexivity.
Qed.

Lemma rsi_of_rs_defined (g l : Qc) :
  0 ≤ g → 0 ≤ l →
  notna (rsi_of_rs (fdiv (Fin g) (Fin l))) = true ↔ 0 < g ∨ 0 < l.
Proof.
  intros Hg Hl.
  destruct (Qcle_lt_or_eq _ _ Hl) as [Hlpos | <-].
  - rewrite rsi_of_rs_pos_loss by assumption. cbn. tauto.
  - destruct (Qcle_lt_or_eq _ _ Hg) as [Hgpos | <-].
    + rewrite fdiv_zero_loss, rsi_of_rs_inf by assumption. cbn. tauto.
    + rewrite rsi_of_rs_both_zero. cbn. split; [discriminate|].
      intros [H | H]; destruct (Qclt_not_eq _ _ H eq_refl).
Qed.

(** Once defined, the RSI stays defined. *)
Lemma defined_at_rsi_step (qs : list Qc) (i : nat) :
  (S i < length qs)%nat →
  defined_at (rsi (Fin <$> qs)) i = true →
  defined_at (rsi (Fin <$> qs)) (S i) = true.
Proof.
  destruct qs as [|c0 cs]; [cbn; lia|]. cbn [length]. intros Hi.
  destruct i as [|j].
  { unfold defined_at at 1. rewrite rsi_fin_lookup_0. discriminate. }
  destruct (rsi_fin_lookup_S c0 cs j ltac:(lia))
    as (g & l & Hg & Hl & Hg0 & Hl0 & Hr).
  destruct (rsi_fin_lookup_S c0 cs (S j) ltac:(lia))
    as (g' & l' & Hg' & Hl' & Hg0' & Hl0' & Hr').
  unfold defined_at. rewrite Hr, Hr'.
  rewrite !rsi_of_rs_defined by assumption.
  intros [Hpos | Hpos]; [left | right].
  - exact (ema_pos_step alpha_rsi alpha_rsi_pos alpha_rsi_lt1 _ _ _ _
             (gains_nonneg _) Hg Hpos Hg').
  - exact (ema_pos_step alpha_rsi alpha_rsi_pos alpha_rsi_lt1 _ _ _ _
             (losses_nonneg _) Hl Hpos Hl').
Qed.

(** ** Dropping the incomplete rows *)

Lemma row_complete_true (cols : gmap string (list fval)) (i : nat) :
  row_complete cols i = true
  ↔ ∀ name s, cols !! name = Some s → defined_at s i = true.
Proof. unfold row_complete. rewrite bool_decide_eq_true. reflexivity. Qed.

Lemma dropna_mask_length (data : DataFrame) :
  length (dropna_mask data) = length (bars data).
Proof. unfold dropna_mask. rewrite length_fmap, length_seq. reflexivity. Qed.

Lemma dropna_mask_lookup (data : DataFrame) (i : nat) :
  (i < length (bars data))%nat →
  dropna_mask data !! i = Some (row_complete (columns data) i).
Proof.
  intros Hi. unfold dropna_mask.
  rewrite list_lookup_fmap, lookup_seq_lt by assumption. reflexivity.
Qed.

(** On a frame that came without derived columns, a row is complete from
    row 49 on, where the RSI is defined. *)
Lemma row_complete_fresh (sqrt : Qc → Qc) (bs : list Bar) (i : nat) :
  (i < length bs)%nat →
  row_complete (columns (attached sqrt (from_bars bs))) i
  = (50 <=? i + 1)%nat && defined_at (rsi (Fin <$> (close <$> bs))) i.
Proof.
  intros Hi.
  assert (Hc : (i < length (close <$> bs))%nat) by (rewrite length_fmap; exact Hi).
  assert (Hv : (i < length (volume <$> bs))%nat) by (rewrite length_fmap; exact Hi).
  apply eq_true_iff_eq. rewrite row_complete_true, andb_true_iff.
  unfold attached, setitem. cbn [columns bars from_bars].
  rewrite close_col_fin, volume_col_fin. cbn [bars from_bars].
  split.
  - intros Hall. split.
    + rewrite <- (defined_at_rolling_mean 50 i (close <$> bs)) by (lia || assumption).
      apply (Hall "SMA_50"). by simplify_map_eq.
    + apply (Hall "RSI"). by simplify_map_eq.
  - intros [H50 Hrsi] name s Hs. apply Nat.leb_le in H50.
    assert (H20 : (20 <=? i + 1)%nat = true) by (apply Nat.leb_le; lia).
    repeat (apply lookup_insert_Some in Hs as [[<- <-] | [_ Hs]]).
    + rewrite defined_at_rolling_mean by (lia || assumption). exact H20.
    + rewrite defined_at_lower_band by assumption. exact H20.
    + rewrite defined_at_upper_band by assumption. exact H20.
    + rewrite defined_at_rolling_mean by (lia || assumption). exact H20.
    + rewrite signal_line_fin. apply defined_at_fin.
      rewrite ema_length, macd_fin_length. exact Hc.
    + rewrite macd_fin. apply defined_at_fin.
      rewrite macd_fin_length. exact Hc.
    + rewrite ewm_mean_fin. apply defined_at_fin. rewrite ema_length. exact Hc.
    + rewrite ewm_mean_fin. apply defined_at_fin. rewrite ema_length. exact Hc.
    + exact Hrsi.
    + rewrite defined_at_rolling_mean by (lia || assumption).
      apply Nat.leb_le. lia.
    + rewrite defined_at_rolling_mean by (lia || assumption). exact H20.
    + rewrite lookup_empty in Hs. discriminate.
Qed.

Lemma select_nil_r {A : Type} (mask : list bool) : select mask (@nil A) = [].
Proof. destruct mask as [|[] mask]; reflexivity. Qed.

Lemma select_all_true {A : Type} (mask : list bool) (l : list A) :
  length mask = length l → Forall (eq true) mask → select mask l = l.
Proof.
  intros Hlen Hall. revert l Hlen.
  induction Hall as [|b mask <- _ IH]; intros [|x l] Hlen;
    try discriminate; [reflexivity|].
  cbn. f_equal. apply IH. cbn in Hlen. lia.
Qed.

(** A mask that never goes back to [false] keeps a suffix. *)
Lemma select_monotone {A : Type} (mask : list bool) (l : list A) :
  length mask = length l →
  (∀ i, mask !! i = Some true → S i < length mask → mask !! S i = Some true)%nat →
  ∃ k, (k ≤ length l)%nat ∧ select mask l = drop k l
       ∧ (∀ i, (i < k)%nat → mask !! i = Some false)
       ∧ (∀ i, (k ≤ i < length l)%nat → mask !! i = Some true).
Proof.
  revert l. induction mask as [|b mask IH]; intros [|x l] Hlen Hmono;
    try discriminate.
  - exists 0%nat. cbn. repeat split; intros; lia.
  - cbn in Hlen. destruct b.
    + exists 0%nat. assert (Hall : Forall (eq true) (true :: mask)).
      { apply Forall_lookup. intros i b Hb.
        assert (Hi := lookup_lt_Some _ _ _ Hb).
        assert (Ht : (true :: mask) !! i = Some true).
        { clear Hb. induction i as [|i IHi]; [reflexivity|].
          apply Hmono; [apply IHi; lia | exact Hi]. }
        congruence. }
      repeat split.
      * lia.
      * apply select_all_true; [cbn; lia | exact Hall].
      * intros; lia.
      * intros i Hi. rewrite Forall_lookup in Hall.
        destruct (lookup_lt_is_Some_2 (true :: mask) i) as [b Hb];
          [cbn in *; lia|].
        rewrite Hb. f_equal. symmetry. exact (Hall _ _ Hb).
    + destruct (IH l ltac:(lia)) as (k & Hk & Hsel & Hlo & Hhi).
      { intros i Hi HSi. apply (Hmono (S i)); [exact Hi | cbn; lia]. }
      exists (S k). cbn. repeat split.
      * lia.
      * exact Hsel.
      * intros [|i] Hi; [reflexivity|]. apply Hlo. lia.
      * intros [|i] Hi; [lia|]. apply Hhi. lia.
Qed.

Lemma select_elem {A : Type} (mask : list bool) (l : list A) (x : A) :
  x ∈ select mask l → ∃ i, mask !! i = Some true ∧ l !! i = Some x.
Proof.
  revert l. induction mask as [|b mask IH]; intros [|y l]; cbn;
    try (intros H; apply elem_of_nil in H; contradiction).
  destruct b.
  - intros [-> | Hin]%elem_of_cons.
    + exists 0%nat. split; reflexivity.
    + destruct (IH _ Hin) as (i & Hm & Hl). exists (S i). split; assumption.
  - intros Hin. destruct (IH _ Hin) as (i & Hm & Hl).
    exists (S i). split; assumption.
Qed.

Lemma select_length_eq {A B : Type} (mask : list bool) (l : list A) (l' : list B) :
  length l = length l' → length (select mask l) = length (select mask l').
Proof.
  revert l l'. induction mask as [|b mask IH]; intros [|x l] [|y l'] Hlen;
    try discriminate; try reflexivity.
  cbn in *. destruct b; cbn; [f_equal|]; apply IH; lia.
Qed.

(** The mask of a frame that came without derived columns never goes
    back to [false]. *)
Lemma dropna_mask_fresh_monotone (sqrt : Qc → Qc) (bs : list Bar) (i : nat) :
  let mask := dropna_mask (attached sqrt (from_bars bs)) in
  mask !! i = Some true → (S i < length mask)%nat → mask !! S i = Some true.
Proof.
  cbn zeta. rewrite dropna_mask_length. cbn [bars attached setitem from_bars].
  intros Hi HSi.
  rewrite dropna_mask_lookup in Hi by (cbn; lia).
  rewrite dropna_mask_lookup by (cbn; lia).
  rewrite row_complete_fresh in * by lia.
  apply (inj Some) in Hi. apply andb_true_iff in Hi as [H50 Hrsi].
  f_equal. apply andb_true_iff. split.
  - apply Nat.leb_le in H50. apply Nat.leb_le. lia.
  - apply defined_at_rsi_step; [rewrite length_fmap; exact HSi | exact Hrsi].
Qed.

Lemma same_value_eq (x y : fval) : same_value x y = true → x = y.
Proof.
  destruct x, y; cbn; try discriminate; try reflexivity.
  intros H. apply Qc_eqb_eq in H. congruence.
Qed.

Lemma holds_lookup (s : Series) (i : nat) (v : fval) :
  holds s i v = true → s !! i = Some v.
Proof.
  unfold holds. destruct (s !! i); [|discriminate].
  intros H. apply same_value_eq in H. congruence.
Qed.

Lemma sqrt_floor_nonneg (x : Qc) : 0 ≤ sqrt_floor x.
Proof.
  unfold sqrt_floor, Qcle, Q2Qc. cbn [this]. rewrite !Qred_correct.
  unfold Qle. cbn [Qnum Qden].
  pose proof (Z.sqrt_nonneg (Qnum x * Z.pos (Qden x))). lia.
Qed.

(** ** The engine at work *)

(** Five bars against windows of twenty and fifty: no row survives. *)
Example five_bars_trimmed_to_nothing :
  (length ∘ bars) <$> enrich sqrt_floor (from_bars (take 5 rising50))
  = Some 0%nat.
Proof. vm_compute. reflexivity. Qed.

(** Closes that only rise: the RSI of the one surviving row is 100. *)
Example rising_closes_rsi_100 :
  (fun d => (fun s => holds s 0 (Fin (Qc_of_Z 100))) <$> columns d !! "RSI")
    <$> enrich sqrt_floor (from_bars rising50)
  = Some (Some true).
Proof. vm_compute. reflexivity. Qed.

(** * The claims *)

(** ** Simple moving average *)

(** C1: for a window [k >= 1] the SMA transform keeps the length of the
    close column; its entry at position [i] is undefined when [i < k-1]
    and is otherwise the arithmetic mean of the closes at positions
    [i-k+1 .. i]; the engine stores it with [k=20] and [k=50] on the close
    column and with [k=20] on the volume column. *)
Theorem C1_sma_is_window_mean
        (sqrt : Qc → Qc) (closes : list Qc) (k : nat) (data : DataFrame) :
  (1 ≤ k)%nat →
  length (rolling_mean k (Fin <$> closes)) = length closes
  ∧ (∀ i, (i < length closes)%nat → (i + 1 < k)%nat →
          rolling_mean k (Fin <$> closes) !! i = Some NaN)
  ∧ (∀ i, (i < length closes)%nat → (k ≤ i + 1)%nat →
          rolling_mean k (Fin <$> closes) !! i
          = Some (Fin (sum_from closes (i + 1 - k) k / Qc_of_Z (Z.of_nat k))))
  ∧ (∃ a, attach_indicators sqrt data = Some a
          ∧ columns a !! "SMA_20"
            = Some (rolling_mean 20 (Fin <$> (close <$> bars data)))
          ∧ columns a !! "SMA_50"
            = Some (rolling_mean 50 (Fin <$> (close <$> bars data)))
          ∧ columns a !! "Volume_SMA_20"
            = Some (rolling_mean 20 (Fin <$> (volume <$> bars data)))).
Proof.
  intros Hk. split; [|split; [|split]].
  - rewrite rolling_mean_length, length_fmap. reflexivity.
  - intros i Hi Hlt. rewrite rolling_mean_fin_lookup by assumption.
    replace (k <=? i + 1)%nat with false; [reflexivity|].
    symmetry. apply Nat.leb_gt. lia.
  - intros i Hi Hge. rewrite rolling_mean_fin_lookup by assumption.
    replace (k <=? i + 1)%nat with true; [reflexivity|].
    symmetry. apply Nat.leb_le. lia.
  - exists (attached sqrt data). split; [apply attach_indicators_eq|].
    rewrite <- close_col_fin, <- volume_col_fin.
    pose proof (attached_lookup sqrt data) as H. cbn zeta in H. tauto.
Qed.

Lemma C1_sma_is_window_mean_witness :
  (1 ≤ 2)%nat
  ∧ rolling_mean 2 (Fin <$> closes_of flat3) !! 0%nat = Some NaN
  ∧ rolling_mean 2 (Fin <$> closes_of flat3) !! 2%nat
    = Some (Fin (sum_from (closes_of flat3) 1 2 / Qc_of_Z 2)).
Proof.
  assert (Hk : (1 ≤ 2)%nat) by lia.
  destruct (C1_sma_is_window_mean sqrt_floor (closes_of flat3) 2
              (from_bars flat3) Hk) as (_ & Hnan & Hmean & _).
  split; [exact Hk|]. split.
  - apply Hnan; cbn; lia.
  - apply (Hmean 2%nat); cbn; lia.
Defined.

(** ** Exponential moving average and MACD *)

Lemma fin_lookup_total (qs : list Qc) (i : nat) :
  (i < length qs)%nat → ∃ q, (Fin <$> qs) !! i = Some (Fin q).
Proof.
  intros Hi. destruct (lookup_lt_is_Some_2 qs i Hi) as [q Hq].
  exists q. rewrite list_lookup_fmap, Hq. reflexivity.
Qed.

(** C2: on a non-empty close column the EMA of span [k] starts at the
    first close and follows [EMA[i] = alpha * close[i] + (1 - alpha) *
    EMA[i-1]] with [alpha = 2 / (k + 1)]; the columns EMA_12 and EMA_26,
    the MACD line (their difference) and the signal line (the same
    recurrence, span 9, over the MACD line) hold a number at every row. *)
Theorem C2_ema_recurrence_no_gap
        (sqrt : Qc → Qc) (span : Z) (c0 : Qc) (rest : list Qc)
        (data : DataFrame) :
  (1 ≤ span)%Z →
  let closes := c0 :: rest in
  let alpha := Qc_of_Z 2 / (Qc_of_Z span + 1) in
  let e := ewm_mean span (Fin <$> closes) in
  e !! 0%nat = Some (Fin c0)
  ∧ (∀ i x, closes !! S i = Some x →
       ∃ prev, e !! i = Some (Fin prev)
               ∧ e !! S i = Some (Fin (alpha * x + (1 - alpha) * prev)))
  ∧ (∀ i, (i < length closes)%nat → ∃ q, e !! i = Some (Fin q))
  ∧ (∃ a, attach_indicators sqrt data = Some a
       ∧ columns a !! "EMA_12"
         = Some (ewm_mean 12 (Fin <$> (close <$> bars data)))
       ∧ columns a !! "EMA_26"
         = Some (ewm_mean 26 (Fin <$> (close <$> bars data)))
       ∧ (∃ line, columns a !! "MACD" = Some line
            ∧ columns a !! "Signal_Line" = Some (ewm_mean 9 line)
            ∧ ∀ i, (i < length (bars data))%nat →
                ∃ e12 e26 sig,
                  ewm_mean 12 (Fin <$> (close <$> bars data)) !! i
                  = Some (Fin e12)
                  ∧ ewm_mean 26 (Fin <$> (close <$> bars data)) !! i
                    = Some (Fin e26)
                  ∧ line !! i = Some (Fin (e12 - e26))
                  ∧ ewm_mean 9 line !! i = Some (Fin sig))).
Proof.
  intros _. cbn zeta. split; [reflexivity|]. split; [|split].
  - intros i x Hx. rewrite ewm_mean_fin.
    assert (Hi : (i < length (ema (alpha_of_span span) (c0 :: rest)))%nat).
    { rewrite ema_length. apply lookup_lt_Some in Hx. lia. }
    destruct (lookup_lt_is_Some_2 _ _ Hi) as [prev Hprev].
    exists prev. rewrite !list_lookup_fmap, Hprev.
    rewrite (ema_lookup_S _ _ _ _ _ Hprev Hx). split; reflexivity.
  - intros i Hi. rewrite ewm_mean_fin. apply fin_lookup_total.
    rewrite ema_length. exact Hi.
  - exists (attached sqrt data). split; [apply attach_indicators_eq|].
    pose proof (attached_lookup sqrt data)
      as (_ & _ & _ & H12 & H26 & Hm & Hs & _).
    rewrite close_col_fin in *. split; [exact H12|]. split; [exact H26|].
    exists (macd (Fin <$> (close <$> bars data))).
    split; [exact Hm|]. split; [exact Hs|].
    intros i Hi.
    assert (Hc : (i < length (close <$> bars data))%nat)
      by (rewrite length_fmap; exact Hi).
    rewrite macd_fin, !ewm_mean_fin.
    destruct (lookup_lt_is_Some_2 (ema (alpha_of_span 12) (close <$> bars data)) i)
      as [e12 H1]; [rewrite ema_length; exact Hc|].
    destruct (lookup_lt_is_Some_2 (ema (alpha_of_span 26) (close <$> bars data)) i)
      as [e26 H2]; [rewrite ema_length; exact Hc|].
    destruct (lookup_lt_is_Some_2
                (ema (alpha_of_span 9)
                   (zip_with Qcminus
                      (ema (alpha_of_span 12) (close <$> bars data))
                      (ema (alpha_of_span 26) (close <$> bars data)))) i)
      as [sig Hsig]; [rewrite ema_length, macd_fin_length; exact Hc|].
    exists e12, e26, sig. rewrite !list_lookup_fmap, H1, H2, Hsig.
    rewrite lookup_zip_with, H1, H2. repeat split.
Qed.

Lemma C2_ema_recurrence_no_gap_witness :
  (1 ≤ 12)%Z
  ∧ closes_of flat3 !! 1%nat = Some (Qc_of_Z 10)
  ∧ ∃ prev,
      ewm_mean 12 (Fin <$> closes_of flat3) !! 0%nat = Some (Fin prev)
      ∧ ewm_mean 12 (Fin <$> closes_of flat3) !! 1%nat
        = Some (Fin (Qc_of_Z 2 / (Qc_of_Z 12 + 1) * Qc_of_Z 10
                     + (1 - Qc_of_Z 2 / (Qc_of_Z 12 + 1)) * prev)).
Proof.
  assert (Hspan : (1 ≤ 12)%Z) by lia.
  assert (Hx : closes_of flat3 !! 1%nat = Some (Qc_of_Z 10)) by reflexivity.
  split; [exact Hspan|]. split; [exact Hx|].
  destruct (C2_ema_recurrence_no_gap sqrt_floor 12 (Qc_of_Z 10)
              [Qc_of_Z 10; Qc_of_Z 10] (from_bars flat3) Hspan)
    as (_ & Hrec & _).
  exact (Hrec 0%nat (Qc_of_Z 10) Hx).
Defined.

(** ** Relative strength index *)

Lemma gains_lookup (cs : list Qc) (i : nat) (a b : Qc) :
  cs !! i = Some a → cs !! S i = Some b →
  gains cs !! i = Some (gain_of (b - a)).
Proof.
  intros Ha Hb. unfold gains.
  rewrite list_lookup_fmap, (deltas_lookup _ _ _ _ Ha Hb). reflexivity.
Qed.

Lemma losses_lookup (cs : list Qc) (i : nat) (a b : Qc) :
  cs !! i = Some a → cs !! S i = Some b →
  losses cs !! i = Some (loss_of (b - a)).
Proof.
  intros Ha Hb. unfold losses.
  rewrite list_lookup_fmap, (deltas_lookup _ _ _ _ Ha Hb). reflexivity.
Qed.

(** C3: on a close column of at least two rows the smoothed average gain
    and average loss are undefined at row 0, equal the gain and the loss
    of the first difference at row 1, and from there follow the EMA
    recurrence with [alpha = 2 / (14 + 1)] over [gain[i] = max(delta[i],
    0)] and [loss[i] = max(-delta[i], 0)]. *)
Theorem C3_rsi_smoothing_seeded_at_first_delta (closes : list Qc) :
  (2 ≤ length closes)%nat →
  let avg_gain := rsi_avg_gain (Fin <$> closes) in
  let avg_loss := rsi_avg_loss (Fin <$> closes) in
  let alpha := Qc_of_Z 2 / (Qc_of_Z 14 + 1) in
  avg_gain !! 0%nat = Some NaN
  ∧ avg_loss !! 0%nat = Some NaN
  ∧ (∀ a b, closes !! 0%nat = Some a → closes !! 1%nat = Some b →
       avg_gain !! 1%nat = Some (Fin (Qcmax (b - a) 0))
       ∧ avg_loss !! 1%nat = Some (Fin (Qcmax (- (b - a)) 0)))
  ∧ (∀ i a b, (1 ≤ i)%nat → closes !! i = Some a → closes !! S i = Some b →
       ∃ g l,
         avg_gain !! i = Some (Fin g)
         ∧ avg_loss !! i = Some (Fin l)
         ∧ avg_gain !! S i
           = Some (Fin (alpha * Qcmax (b - a) 0 + (1 - alpha) * g))
         ∧ avg_loss !! S i
           = Some (Fin (alpha * Qcmax (- (b - a)) 0 + (1 - alpha) * l))).
Proof.
  intros Hlen. cbn zeta.
  destruct closes as [|c0 cs]; [cbn in Hlen; lia|].
  rewrite rsi_avg_gain_fin, rsi_avg_loss_fin.
  change (Qc_of_Z 2 / (Qc_of_Z 14 + 1)) with (alpha_of_span 14).
  rewrite alpha_of_span_14.
  split; [reflexivity|]. split; [reflexivity|]. split.
  - intros a b Ha Hb. rewrite !lookup_cons, !list_lookup_fmap, !ema_lookup_0.
    rewrite (gains_lookup _ _ _ _ Ha Hb), (losses_lookup _ _ _ _ Ha Hb).
    split; reflexivity.
  - intros i a b Hi Ha Hb. destruct i as [|j]; [lia|].
    assert (Hj : (j < length cs)%nat).
    { apply lookup_lt_Some in Ha. cbn in Ha. lia. }
    destruct (lookup_lt_is_Some_2 (ema alpha_rsi (gains (c0 :: cs))) j)
      as [g Hg].
    { rewrite ema_length. unfold gains.
      rewrite length_fmap, deltas_length. exact Hj. }
    destruct (lookup_lt_is_Some_2 (ema alpha_rsi (losses (c0 :: cs))) j)
      as [l Hl].
    { rewrite ema_length. unfold losses.
      rewrite length_fmap, deltas_length. exact Hj. }
    exists g, l. rewrite !lookup_cons, !list_lookup_fmap, Hg, Hl.
    rewrite (ema_lookup_S _ _ _ _ _ Hg (gains_lookup _ _ _ _ Ha Hb)).
    rewrite (ema_lookup_S _ _ _ _ _ Hl (losses_lookup _ _ _ _ Ha Hb)).
    repeat split.
Qed.

Lemma C3_rsi_smoothing_seeded_at_first_delta_witness :
  (2 ≤ length (closes_of flat3))%nat
  ∧ rsi_avg_gain (Fin <$> closes_of flat3) !! 0%nat = Some NaN
  ∧ rsi_avg_loss (Fin <$> closes_of flat3) !! 0%nat = Some NaN.
Proof.
  assert (Hlen : (2 ≤ length (closes_of flat3))%nat) by (cbn; lia).
  destruct (C3_rsi_smoothing_seeded_at_first_delta (closes_of flat3) Hlen)
    as (Hg & Hl & _).
  split; [exact Hlen|]. split; [exact Hg | exact Hl].
Defined.

(** C4, as the engine has it: where the smoothed average loss is zero and
    the smoothed average gain is positive the RSI is exactly 100.  No
    case is singled out for it: the division is carried out, yields
    [+inf] in the [rs] column, and [100 - 100 / (1 + inf)] is 100. *)
Theorem C4_zero_loss_gives_100_through_infinity
        (close : Series) (i : nat) (g : Qc) :
  rsi_avg_loss close !! i = Some (Fin 0) →
  rsi_avg_gain close !! i = Some (Fin g) →
  0 < g →
  rsi_rs close !! i = Some PInf
  ∧ rsi close !! i = Some (Fin (Qc_of_Z 100)).
Proof.
  intros Hl Hg Hpos.
  rewrite (rsi_rs_lookup _ _ _ _ Hg Hl), (rsi_lookup _ _ _ _ Hg Hl).
  rewrite fdiv_zero_loss by assumption. rewrite rsi_of_rs_inf.
  split; reflexivity.
Qed.

(** Two closes, 1 then 2: one gain, no loss. *)
Lemma C4_zero_loss_gives_100_through_infinity_witness :
  let close := Fin <$> [Qc_of_Z 1; Qc_of_Z 2] in
  rsi_avg_loss close !! 1%nat = Some (Fin 0)
  ∧ rsi_avg_gain close !! 1%nat = Some (Fin 1)
  ∧ 0 < 1
  ∧ rsi_rs close !! 1%nat = Some PInf
  ∧ rsi close !! 1%nat = Some (Fin (Qc_of_Z 100)).
Proof.
  cbn zeta.
  assert (Hl : rsi_avg_loss (Fin <$> [Qc_of_Z 1; Qc_of_Z 2]) !! 1%nat
               = Some (Fin 0))
    by (apply holds_lookup; vm_compute; reflexivity).
  assert (Hg : rsi_avg_gain (Fin <$> [Qc_of_Z 1; Qc_of_Z 2]) !! 1%nat
               = Some (Fin 1))
    by (apply holds_lookup; vm_compute; reflexivity).
  assert (Hpos : 0 < 1) by reflexivity.
  split; [exact Hl|]. split; [exact Hg|]. split; [exact Hpos|].
  exact (C4_zero_loss_gives_100_through_infinity _ 1%nat 1 Hl Hg Hpos).
Defined.

(** C4, as stated, fails on closes 1, 2: at row 1 the average loss is 0
    and the average gain is 1, and the quotient the engine computes there
    is [+inf]; the zero divisor is not set apart. *)
Lemma C4_counterexample :
  let close := Fin <$> [Qc_of_Z 1; Qc_of_Z 2] in
  rsi_avg_loss close !! 1%nat = Some (Fin 0)
  ∧ rsi_avg_gain close !! 1%nat = Some (Fin 1)
  ∧ rsi_rs close !! 1%nat = Some PInf
  ∧ ¬ (∃ q, rsi_rs close !! 1%nat = Some (Fin q)).
Proof.
  cbn zeta.
  assert (Hrs : rsi_rs (Fin <$> [Qc_of_Z 1; Qc_of_Z 2]) !! 1%nat = Some PInf)
    by (vm_compute; reflexivity).
  split; [apply holds_lookup; vm_compute; reflexivity|].
  split; [apply holds_lookup; vm_compute; reflexivity|].
  split; [exact Hrs|].
  intros [q Hq]. rewrite Hrs in Hq. discriminate.
Qed.

Lemma rsi_avg_fin_lookup (closes : list Qc) (i : nat) :
  (1 ≤ i < length closes)%nat →
  ∃ g l : Qc,
    rsi_avg_gain (Fin <$> closes) !! i = Some (Fin g)
    ∧ rsi_avg_loss (Fin <$> closes) !! i = Some (Fin l)
    ∧ 0 ≤ g ∧ 0 ≤ l
    ∧ rsi (Fin <$> closes) !! i = Some (rsi_of_rs (fdiv (Fin g) (Fin l))).
Proof.
  intros [Hi Hlen]. destruct closes as [|c0 cs]; [cbn in Hlen; lia|].
  destruct i as [|j]; [lia|]. cbn in Hlen.
  destruct (rsi_fin_lookup_S c0 cs j ltac:(lia))
    as (g & l & Hg & Hl & Hg0 & Hl0 & Hr).
  exists g, l. rewrite rsi_avg_gain_fin, rsi_avg_loss_fin.
  rewrite !lookup_cons, !list_lookup_fmap, Hg, Hl. repeat split; assumption.
Qed.

(** ** Bollinger bands *)

Section Bollinger.

Variable sqrt : Qc → Qc.
Hypothesis sqrt_nonneg : ∀ x, 0 ≤ sqrt x.

(** C6: from row 19 on the middle band is the mean of the last twenty
    closes, the upper and the lower band lie two sample standard
    deviations of those twenty closes above and below it, their
    distance is four standard deviations, and the middle band lies
    between them, touching one of them only when the standard deviation
    is zero. *)
Theorem C6_bollinger_bands_around_middle (data : DataFrame) (i : nat) :
  (19 ≤ i < length (bars data))%nat →
  let closes := close <$> bars data in
  let sd := sqrt (sample_var (take 20 (drop (i - 19) closes))) in
  ∃ a middle upper lower,
    attach_indicators sqrt data = Some a
    ∧ columns a !! "Middle_Band" = Some middle
    ∧ columns a !! "Upper_Band" = Some upper
    ∧ columns a !! "Lower_Band" = Some lower
    ∧ rolling_std sqrt 20 (Fin <$> closes) !! i = Some (Fin sd)
    ∧ ∃ m up lo,
        middle !! i = Some (Fin m)
        ∧ upper !! i = Some (Fin up)
        ∧ lower !! i = Some (Fin lo)
        ∧ m = sum_from closes (i - 19) 20 / Qc_of_Z 20
        ∧ up = m + Qc_of_Z 2 * sd
        ∧ lo = m - Qc_of_Z 2 * sd
        ∧ up - lo = Qc_of_Z 4 * sd
        ∧ lo ≤ m ∧ m ≤ up
        ∧ (m = up ↔ sd = 0)
        ∧ (m = lo ↔ sd = 0).
Proof using sqrt_nonneg.
  intros [Hi Hlen]. cbn zeta.
  assert (Hc : (i < length (close <$> bars data))%nat)
    by (rewrite length_fmap; exact Hlen).
  assert (H20 : (20 <=? i + 1)%nat = true) by (apply Nat.leb_le; lia).
  assert (Hw : (i + 1 - 20 = i - 19)%nat) by lia.
  pose proof (attached_lookup sqrt data)
    as (_ & _ & _ & _ & _ & _ & _ & Hm & Hu & Hl & _).
  rewrite close_col_fin in *.
  exists (attached sqrt data). do 3 eexists.
  split; [apply attach_indicators_eq|].
  split; [exact Hm|]. split; [exact Hu|]. split; [exact Hl|].
  split.
  { rewrite rolling_std_fin_lookup by (lia || assumption).
    rewrite H20, Hw. reflexivity. }
  rewrite rolling_mean_fin_lookup by (lia || assumption).
  rewrite upper_band_fin_lookup, lower_band_fin_lookup by assumption.
  rewrite H20. unfold mean_at. rewrite Hw.
  pose proof (sqrt_nonneg
                (sample_var (take 20 (drop (i - 19) (close <$> bars data)))))
    as Hsd.
  remember (sqrt (sample_var (take 20 (drop (i - 19) (close <$> bars data)))))
    as sd eqn:Esd.
  remember (sum_from (close <$> bars data) (i - 19) 20 / Qc_of_Z (Z.of_nat 20))
    as m eqn:Em.
  clear Esd. exists m, (m + sd * Qc_of_Z 2), (m - sd * Qc_of_Z 2).
  split; [reflexivity|]. split; [reflexivity|]. split; [reflexivity|].
  split; [exact Em|]. clear Em.
  split; [ring|]. split; [ring|].
  split; [qc_to_q; lra|].
  repeat split.
  - qc_to_q. lra.
  - qc_to_q. lra.
  - intros Heq. qc_to_q. lra.
  - intros ->. qc_to_q. lra.
  - intros Heq. qc_to_q. lra.
  - intros ->. qc_to_q. lra.
Qed.

End Bollinger.

Lemma C6_bollinger_bands_around_middle_witness :
  (∀ x, 0 ≤ sqrt_floor x)
  ∧ (19 ≤ 19 < length (bars (from_bars (take 20 rising50))))%nat
  ∧ ∃ a middle upper lower,
      attach_indicators sqrt_floor (from_bars (take 20 rising50)) = Some a
      ∧ columns a !! "Middle_Band" = Some middle
      ∧ columns a !! "Upper_Band" = Some upper
      ∧ columns a !! "Lower_Band" = Some lower.
Proof.
  assert (Hi : (19 ≤ 19 < length (bars (from_bars (take 20 rising50))))%nat)
    by (vm_compute; lia).
  split; [exact sqrt_floor_nonneg|]. split; [exact Hi|].
  destruct (C6_bollinger_bands_around_middle sqrt_floor sqrt_floor_nonneg
              (from_bars (take 20 rising50)) 19%nat Hi)
    as (a & middle & upper & lower & Ha & Hm & Hu & Hl & _).
  exists a, middle, upper, lower. repeat split; assumption.
Defined.

(** ** The trim step *)

Lemma finite_of_notna (x : fval) :
  notna x = true → is_inf x = false → is_finite x = true.
Proof. destruct x; cbn; congruence. Qed.

Lemma rsi_of_rs_no_inf (g l : Qc) :
  0 ≤ g → 0 ≤ l → is_inf (rsi_of_rs (fdiv (Fin g) (Fin l))) = false.
Proof.
  intros Hg Hl.
  destruct (Qcle_lt_or_eq _ _ Hl) as [Hlpos | <-].
  - rewrite rsi_of_rs_pos_loss by assumption. reflexivity.
  - destruct (Qcle_lt_or_eq _ _ Hg) as [Hgpos | <-].
    + rewrite fdiv_zero_loss, rsi_of_rs_inf by assumption. reflexivity.
    + reflexivity.
Qed.

Lemma no_inf_fin (qs : list Qc) (i : nat) (x : fval) :
  (Fin <$> qs) !! i = Some x → is_inf x = false.
Proof.
  rewrite list_lookup_fmap. destruct (qs !! i); cbn; [|discriminate].
  intros [= <-]. reflexivity.
Qed.

Lemma no_inf_rolling_mean (k : nat) (qs : list Qc) (i : nat) (x : fval) :
  (1 ≤ k)%nat → rolling_mean k (Fin <$> qs) !! i = Some x → is_inf x = false.
Proof.
  intros Hk Hx. assert (Hi := lookup_lt_Some _ _ _ Hx).
  rewrite rolling_mean_length, length_fmap in Hi.
  rewrite rolling_mean_fin_lookup in Hx by assumption.
  apply (inj Some) in Hx. rewrite <- Hx.
  destruct (k <=? i + 1)%nat; reflexivity.
Qed.

Lemma upper_band_length (sqrt : Qc → Qc) (s : Series) :
  length (upper_band sqrt s) = length s.
Proof.
  unfold upper_band, series_add, band_width, series_mul_scalar.
  rewrite length_zip_with, length_fmap, rolling_mean_length, rolling_std_length.
  lia.
Qed.

Lemma lower_band_length (sqrt : Qc → Qc) (s : Series) :
  length (lower_band sqrt s) = length s.
Proof.
  unfold lower_band, series_sub, band_width, series_mul_scalar.
  rewrite length_zip_with, length_fmap, rolling_mean_length, rolling_std_length.
  lia.
Qed.

Lemma no_inf_upper_band (sqrt : Qc → Qc) (qs : list Qc) (i : nat) (x : fval) :
  upper_band sqrt (Fin <$> qs) !! i = Some x → is_inf x = false.
Proof.
  intros Hx. assert (Hi := lookup_lt_Some _ _ _ Hx).
  rewrite upper_band_length, length_fmap in Hi.
  rewrite upper_band_fin_lookup in Hx by assumption.
  apply (inj Some) in Hx. rewrite <- Hx.
  destruct (20 <=? i + 1)%nat; reflexivity.
Qed.

Lemma no_inf_lower_band (sqrt : Qc → Qc) (qs : list Qc) (i : nat) (x : fval) :
  lower_band sqrt (Fin <$> qs) !! i = Some x → is_inf x = false.
Proof.
  intros Hx. assert (Hi := lookup_lt_Some _ _ _ Hx).
  rewrite lower_band_length, length_fmap in Hi.
  rewrite lower_band_fin_lookup in Hx by assumption.
  apply (inj Some) in Hx. rewrite <- Hx.
  destruct (20 <=? i + 1)%nat; reflexivity.
Qed.

Lemma no_inf_rsi (qs : list Qc) (i : nat) (x : fval) :
  rsi (Fin <$> qs) !! i = Some x → is_inf x = false.
Proof.
  intros Hx. assert (Hi := lookup_lt_Some _ _ _ Hx).
  rewrite rsi_length, length_fmap in Hi.
  destruct i as [|j].
  - destruct qs as [|c0 cs]; [cbn in Hi; lia|].
    rewrite rsi_fin_lookup_0 in Hx. injection Hx as <-. reflexivity.
  - destruct (rsi_avg_fin_lookup qs (S j) ltac:(lia))
      as (g & l & _ & _ & Hg0 & Hl0 & Hr).
    rewrite Hr in Hx. injection Hx as <-.
    apply rsi_of_rs_no_inf; assumption.
Qed.

(** Every column attached to a frame that came without derived columns
    has one entry per row, and no entry is an infinity. *)
Lemma attached_fresh_shape (sqrt : Qc → Qc) (bs : list Bar)
      (name : string) (s : Series) :
  columns (attached sqrt (from_bars bs)) !! name = Some s →
  length s = length bs ∧ ∀ i x, s !! i = Some x → is_inf x = false.
Proof.
  unfold attached, setitem. cbn [columns bars from_bars].
  rewrite close_col_fin, volume_col_fin. cbn [bars from_bars].
  intros Hs.
  repeat (apply lookup_insert_Some in Hs as [[<- <-] | [_ Hs]]).
  - split; [rewrite rolling_mean_length, !length_fmap; reflexivity|].
    intros i x. apply no_inf_rolling_mean. lia.
  - split; [rewrite lower_band_length, !length_fmap; reflexivity|].
    intros i x. apply no_inf_lower_band.
  - split; [rewrite upper_band_length, !length_fmap; reflexivity|].
    intros i x. apply no_inf_upper_band.
  - split; [rewrite rolling_mean_length, !length_fmap; reflexivity|].
    intros i x. apply no_inf_rolling_mean. lia.
  - rewrite signal_line_fin.
    split; [rewrite length_fmap, ema_length, macd_fin_length, length_fmap;
            reflexivity|].
    intros i x. apply no_inf_fin.
  - rewrite macd_fin.
    split; [rewrite length_fmap, macd_fin_length, length_fmap; reflexivity|].
    intros i x. apply no_inf_fin.
  - split; [rewrite ewm_mean_length, !length_fmap; reflexivity|].
    rewrite ewm_mean_fin. intros i x. apply no_inf_fin.
  - split; [rewrite ewm_mean_length, !length_fmap; reflexivity|].
    rewrite ewm_mean_fin. intros i x. apply no_inf_fin.
  - split; [rewrite rsi_length, !length_fmap; reflexivity|].
    intros i x. apply no_inf_rsi.
  - split; [rewrite rolling_mean_length, !length_fmap; reflexivity|].
    intros i x. apply no_inf_rolling_mean. lia.
  - split; [rewrite rolling_mean_length, !length_fmap; reflexivity|].
    intros i x. apply no_inf_rolling_mean. lia.
  - rewrite lookup_empty in Hs. discriminate.
Qed.

Lemma dropna_bars (data : DataFrame) :
  bars (dropna data) = select (dropna_mask data) (bars data).
Proof. reflexivity. Qed.

Lemma dropna_columns_lookup (data : DataFrame) (name : string) (s : Series) :
  columns (dropna data) !! name = Some s →
  ∃ s0, columns data !! name = Some s0 ∧ s = select (dropna_mask data) s0.
Proof.
  unfold dropna. cbn [columns]. rewrite lookup_fmap. intros Hs.
  apply fmap_Some in Hs as (s0 & Hs0 & ->). exists s0. split; [exact Hs0|].
  reflexivity.
Qed.

(** What [dropna] leaves of such a frame. *)
Lemma dropna_fresh_dense (sqrt : Qc → Qc) (bs : list Bar)
      (name : string) (s : Series) :
  columns (dropna (attached sqrt (from_bars bs))) !! name = Some s →
  length s = length (bars (dropna (attached sqrt (from_bars bs))))
  ∧ Forall (fun x => is_finite x = true) s.
Proof.
  intros Hs. apply dropna_columns_lookup in Hs as (s0 & Hs0 & ->).
  destruct (attached_fresh_shape sqrt bs name s0 Hs0) as [Hlen Hinf].
  rewrite dropna_bars, attached_bars. split.
  - apply select_length_eq. rewrite Hlen. reflexivity.
  - apply Forall_forall. intros x Hin.
    destruct (select_elem _ _ _ Hin) as (i & Hm & Hx).
    assert (Hi := lookup_lt_Some _ _ _ Hm).
    rewrite dropna_mask_length in Hi.
    rewrite dropna_mask_lookup in Hm by exact Hi.
    apply (inj Some) in Hm. rewrite row_complete_true in Hm.
    specialize (Hm name s0 Hs0). unfold defined_at in Hm. rewrite Hx in Hm.
    apply finite_of_notna; [exact Hm | exact (Hinf _ _ Hx)].
Qed.

Lemma dropna_fresh_short (sqrt : Qc → Qc) (bs : list Bar) :
  (length bs < 50)%nat → bars (dropna (attached sqrt (from_bars bs))) = [].
Proof.
  intros Hshort. rewrite dropna_bars.
  destruct (select (dropna_mask (attached sqrt (from_bars bs)))
                   (bars (attached sqrt (from_bars bs)))) as [|b rest] eqn:Hsel;
    [reflexivity|].
  exfalso.
  assert (Hin : b ∈ select (dropna_mask (attached sqrt (from_bars bs)))
                      (bars (attached sqrt (from_bars bs))))
    by (rewrite Hsel; apply list_elem_of_here).
  destruct (select_elem _ _ _ Hin) as (i & Hm & _).
  assert (Hi := lookup_lt_Some _ _ _ Hm).
  rewrite dropna_mask_length in Hi.
  rewrite dropna_mask_lookup in Hm by exact Hi.
  rewrite attached_bars in Hi. change (bars (from_bars bs)) with bs in Hi.
  rewrite row_complete_fresh in Hm by exact Hi.
  apply (inj Some) in Hm. apply andb_true_iff in Hm as [H50 _].
  apply Nat.leb_le in H50. lia.
Qed.

(** A call on a frame that came without derived columns, rows or no
    rows. *)
Lemma calculate_fresh (sqrt : Qc → Qc) (h : gmap nat DataFrame) (l : nat)
      (bs : list Bar) :
  h !! l = Some (from_bars bs) →
  ∃ out,
    calculate_technical_indicators sqrt (PyRef l) h
    = Some (PyRef l, <[l := out]> h)
    ∧ bars out = select (dropna_mask (attached sqrt (from_bars bs))) bs
    ∧ (bs ≠ [] → out = dropna (attached sqrt (from_bars bs)))
    ∧ (bs = [] → out = from_bars bs).
Proof.
  intros Hl. destruct bs as [|b bs].
  - exists (from_bars []). split; [|split; [reflexivity|split]].
    + rewrite (calculate_empty sqrt h l _ Hl) by reflexivity.
      rewrite insert_id by exact Hl. reflexivity.
    + intros Hne. destruct (Hne eq_refl).
    + reflexivity.
  - exists (dropna (attached sqrt (from_bars (b :: bs)))).
    split; [|split; [reflexivity|split]].
    + apply calculate_nonempty; [exact Hl | reflexivity].
    + reflexivity.
    + discriminate.
Qed.

(** *** Facts shared by the statements on the trim step *)

(** A mask that is [false] below [k] and [true] from [k] on keeps what
    [drop k] keeps. *)
Lemma select_threshold {A : Type} (mask : list bool) (l : list A) (k : nat) :
  length mask = length l →
  (∀ i, (i < k)%nat → (i < length l)%nat → mask !! i = Some false) →
  (∀ i, (k ≤ i < length l)%nat → mask !! i = Some true) →
  select mask l = drop k l.
Proof.
  revert mask l. induction k as [|k IH]; intros mask l Hlen Hlo Hhi.
  - rewrite drop_0. apply select_all_true; [exact Hlen|].
    apply Forall_lookup. intros i b Hb.
    assert (Hi := lookup_lt_Some _ _ _ Hb). rewrite Hlen in Hi.
    rewrite Hhi in Hb by lia. congruence.
  - destruct mask as [|b mask], l as [|x l]; try discriminate; [reflexivity|].
    cbn in Hlen. assert (Hb : b = false).
    { specialize (Hlo 0%nat ltac:(lia) ltac:(cbn; lia)). cbn in Hlo. congruence. }
    subst b. cbn. apply IH; [lia| |].
    + intros i Hi Hl. apply (Hlo (S i)); cbn; lia.
    + intros i Hi. apply (Hhi (S i)). cbn. lia.
Qed.

Lemma attached_fresh_dom (sqrt : Qc → Qc) (bs : list Bar) :
  dom (columns (attached sqrt (from_bars bs))) = list_to_set indicator_names.
Proof.
  unfold attached, setitem. cbn [columns bars from_bars].
  rewrite !dom_insert_L, dom_empty_L. cbn. set_solver.
Qed.

Lemma dropna_dom (data : DataFrame) :
  dom (columns (dropna data)) = dom (columns data).
Proof. unfold dropna. cbn [columns]. apply dom_fmap_L. Qed.

Lemma dropna_columns_fmap (data : DataFrame) (name : string) :
  columns (dropna data) !! name
  = select (dropna_mask data) <$> columns data !! name.
Proof. unfold dropna. cbn [columns]. apply lookup_fmap. Qed.

(** The rows a new frame keeps: those from some row [k] on, [k] being
    the first row at which every attached column is defined. *)
Lemma fresh_threshold (sqrt : Qc → Qc) (bs : list Bar) :
  ∃ k, (k ≤ length bs)%nat
       ∧ select (dropna_mask (attached sqrt (from_bars bs))) bs = drop k bs
       ∧ (∀ i, (i < length bs)%nat →
            ((k ≤ i)%nat
             ↔ row_complete (columns (attached sqrt (from_bars bs))) i = true))
       ∧ (∀ name s0,
            columns (attached sqrt (from_bars bs)) !! name = Some s0 →
            select (dropna_mask (attached sqrt (from_bars bs))) s0 = drop k s0).
Proof.
  destruct (select_monotone (dropna_mask (attached sqrt (from_bars bs))) bs)
    as (k & Hk & Hsel & Hlo & Hhi).
  { apply dropna_mask_length. }
  { intros i. apply dropna_mask_fresh_monotone. }
  exists k. split; [exact Hk|]. split; [exact Hsel|]. split.
  - intros i Hi.
    pose proof (dropna_mask_lookup (attached sqrt (from_bars bs)) i Hi) as Hm.
    split.
    + intros Hki. rewrite (Hhi i ltac:(lia)) in Hm. congruence.
    + intros Hc. destruct (decide (k ≤ i)%nat) as [Hki|Hki]; [exact Hki|].
      rewrite (Hlo i ltac:(lia)), Hc in Hm. discriminate Hm.
  - intros name s0 Hs0.
    destruct (attached_fresh_shape sqrt bs name s0 Hs0) as [Hlen _].
    apply select_threshold.
    + rewrite dropna_mask_length. cbn [bars attached setitem from_bars].
      symmetry. exact Hlen.
    + intros i Hi _. apply Hlo. exact Hi.
    + intros i Hi. apply Hhi. lia.
Qed.

(** The frame a call leaves behind a reference is read off its result. *)
Lemma stored_frame_inj (l : nat) (a b : DataFrame) (h : gmap nat DataFrame) :
  Some (PyRef l, <[l := a]> h) = Some (PyRef l, <[l := b]> h) → a = b.
Proof.
  intros Heq. apply (inj Some) in Heq.
  assert (Hm : <[l := a]> h !! l = <[l := b]> h !! l) by congruence.
  rewrite !lookup_insert_eq in Hm. congruence.
Qed.

(** On any frame the 50-bar average is undefined at the first 49 rows, so
    the trim step drops them. *)
Lemma dropna_mask_attached_early (sqrt : Qc → Qc) (data : DataFrame)
      (i : nat) :
  (i < 49)%nat → (i < length (bars data))%nat →
  dropna_mask (attached sqrt data) !! i = Some false.
Proof.
  intros H49 Hi.
  rewrite dropna_mask_lookup by (rewrite attached_bars; exact Hi).
  f_equal. apply not_true_iff_false. rewrite row_complete_true. intros Hall.
  destruct (attached_lookup sqrt data) as (_ & H50 & _).
  specialize (Hall _ _ H50). rewrite close_col_fin in Hall.
  rewrite defined_at_rolling_mean in Hall
    by (rewrite ?length_fmap; lia).
  apply Nat.leb_le in Hall. lia.
Qed.

Lemma select_length_le {A : Type} (mask : list bool) (l : list A) :
  (length (select mask l) ≤ length l)%nat.
Proof.
  revert l. induction mask as [|b mask IH]; intros [|x l]; cbn; try lia.
  specialize (IH l). destruct b; cbn; lia.
Qed.

Lemma select_prefix_false_length {A : Type} (k : nat) (mask : list bool)
      (l : list A) :
  (∀ i, (i < k)%nat → (i < length l)%nat → mask !! i = Some false) →
  (length (select mask l) ≤ length l - k)%nat.
Proof.
  revert mask l. induction k as [|k IH]; intros mask l Hlo.
  - pose proof (select_length_le mask l). lia.
  - destruct mask as [|b mask], l as [|x l]; cbn; try lia.
    assert (Hb : b = false).
    { specialize (Hlo 0%nat ltac:(lia) ltac:(cbn; lia)). cbn in Hlo.
      congruence. }
    subst b. apply IH. intros i Hi Hl. apply (Hlo (S i)); cbn; lia.
Qed.

(** Every call on a frame with rows loses at least 49 of them. *)
Lemma dropna_attached_length (sqrt : Qc → Qc) (data : DataFrame) :
  (length (bars (dropna (attached sqrt data))) ≤ length (bars data) - 49)%nat.
Proof.
  rewrite dropna_bars, attached_bars.
  apply select_prefix_false_length.
  intros i H49 Hi. apply dropna_mask_attached_early; assumption.
Qed.

(** What one call leaves of fifty bars closing at 1, 2, ..., 50. *)
Lemma rising50_first_call (out : DataFrame) :
  calculate_technical_indicators sqrt_floor (PyRef 0)
    {[ 0%nat := from_bars rising50 ]}
  = Some (PyRef 0, <[0%nat := out]> {[ 0%nat := from_bars rising50 ]}) →
  out = dropna (attached sqrt_floor (from_bars rising50))
  ∧ length (bars out) = 1%nat.
Proof.
  intros Hcall.
  rewrite (calculate_nonempty sqrt_floor _ 0%nat (from_bars rising50))
    in Hcall by (apply lookup_singleton_eq || reflexivity).
  apply stored_frame_inj in Hcall. subst out. split; [reflexivity|].
  vm_compute. reflexivity.
Qed.

(** *** The RSI, in range or undefined *)

(** C5, as the engine has it: at every row from 1 on the two smoothed
    averages are non-negative numbers.  Where one of them is positive the
    RSI column holds a number of [0, 100], which is 100 when the average
    loss is zero and 0 when the average gain is zero, and a row the trim
    step keeps carries that number.  Where both are zero (the price has
    not moved since the first row) the RSI is [NaN] and the trim step
    drops the row. *)
Theorem C5_rsi_in_range_where_defined
        (sqrt : Qc → Qc) (h : gmap nat DataFrame) (l : nat) (bs : list Bar)
        (i : nat) :
  h !! l = Some (from_bars bs) →
  (1 ≤ i < length bs)%nat →
  let close := close_col (from_bars bs) in
  ∃ (g lo : Qc) (out : DataFrame) (k : nat) (rsi_col : Series),
    rsi_avg_gain close !! i = Some (Fin g)
    ∧ rsi_avg_loss close !! i = Some (Fin lo)
    ∧ 0 ≤ g ∧ 0 ≤ lo
    ∧ calculate_technical_indicators sqrt (PyRef l) h
      = Some (PyRef l, <[l := out]> h)
    ∧ bars out = drop k bs
    ∧ columns (attached sqrt (from_bars bs)) !! "RSI" = Some rsi_col
    ∧ (0 < g ∨ 0 < lo →
       ∃ r, rsi_col !! i = Some (Fin r)
            ∧ 0 ≤ r ∧ r ≤ Qc_of_Z 100
            ∧ (lo = 0 → r = Qc_of_Z 100)
            ∧ (g = 0 → r = 0)
            ∧ ((k ≤ i)%nat →
               ∃ s, columns out !! "RSI" = Some s
                    ∧ s !! (i - k)%nat = Some (Fin r)))
    ∧ (g = 0 ∧ lo = 0 → rsi_col !! i = Some NaN ∧ (i < k)%nat).
Proof.
  intros Hl Hi. cbn zeta. rewrite close_col_fin. cbn [bars from_bars].
  destruct (rsi_avg_fin_lookup (close <$> bs) i) as
    (g & lo & Hg & Hlo & Hg0 & Hl0 & Hr).
  { rewrite length_fmap. exact Hi. }
  destruct (calculate_fresh sqrt h l bs Hl) as (out & Hcall & Hbars & Hout & _).
  destruct (fresh_threshold sqrt bs) as (k & Hk & Hsel & Hrow & Hcols).
  destruct (attached_lookup sqrt (from_bars bs)) as (_ & _ & Hrsi & _).
  rewrite close_col_fin in Hrsi. cbn [bars from_bars] in Hrsi.
  assert (Hne : bs ≠ []) by (intros ->; cbn in Hi; lia).
  exists g, lo, out, k, (rsi (Fin <$> (close <$> bs))).
  split; [exact Hg|]. split; [exact Hlo|]. split; [exact Hg0|].
  split; [exact Hl0|]. split; [exact Hcall|].
  split; [rewrite Hbars; exact Hsel|]. split; [exact Hrsi|].
  rewrite Hr. split.
  - intros Hmoved.
    assert (Hkept : ∀ r, rsi (Fin <$> (close <$> bs)) !! i = Some (Fin r) →
              (k ≤ i)%nat →
              ∃ s, columns out !! "RSI" = Some s
                   ∧ s !! (i - k)%nat = Some (Fin r)).
    { intros r Hri Hki. exists (drop k (rsi (Fin <$> (close <$> bs)))).
      split.
      - rewrite (Hout Hne), dropna_columns_fmap, Hrsi.
        cbn [fmap option_fmap option_map]. f_equal. exact (Hcols _ _ Hrsi).
      - rewrite lookup_drop. replace (k + (i - k))%nat with i by lia.
        exact Hri. }
    rewrite Hr in Hkept.
    destruct (Qcle_lt_or_eq _ _ Hl0) as [Hlpos | <-].
    + rewrite rsi_of_rs_pos_loss in * by assumption.
      destruct (rsi_value_range g lo Hg0 Hlpos) as (Hlow & Hhi & Hzero).
      eexists. split; [reflexivity|].
      split; [exact Hlow|]. split; [apply Qclt_le_weak; exact Hhi|].
      split; [|split].
      * intros ->. destruct (Qclt_not_eq _ _ Hlpos eq_refl).
      * apply Hzero.
      * apply Hkept. reflexivity.
    + assert (Hgpos : 0 < g).
      { destruct Hmoved as [H | H]; [exact H|].
        destruct (Qclt_not_eq _ _ H eq_refl). }
      rewrite fdiv_zero_loss, rsi_of_rs_inf in * by assumption.
      eexists. split; [reflexivity|].
      split; [apply Qclt_le_weak, Qc_of_Z_pos; lia|].
      split; [apply Qcle_refl|]. split; [|split].
      * reflexivity.
      * intros ->. destruct (Qclt_not_eq _ _ Hgpos eq_refl).
      * apply Hkept. reflexivity.
  - intros [-> ->]. split; [reflexivity|].
    destruct (decide (i < k)%nat) as [Hik|Hik]; [exact Hik|]. exfalso.
    assert (Hc : row_complete (columns (attached sqrt (from_bars bs))) i = true).
    { apply Hrow; lia. }
    rewrite row_complete_true in Hc. specialize (Hc _ _ Hrsi).
    unfold defined_at in Hc. rewrite Hr in Hc. discriminate Hc.
Qed.

Lemma C5_rsi_in_range_where_defined_witness :
  let bs := bars_of_closes [3; 2; 1]%Z in
  let h : gmap nat DataFrame := {[ 0%nat := from_bars bs ]} in
  h !! 0%nat = Some (from_bars bs)
  ∧ (1 ≤ 1 < length bs)%nat
  ∧ ∃ rsi_col,
      columns (attached sqrt_floor (from_bars bs)) !! "RSI" = Some rsi_col
      ∧ rsi_col !! 1%nat = Some (Fin 0).
Proof.
  cbn zeta.
  assert (Hl : ({[ 0%nat := from_bars (bars_of_closes [3; 2; 1]%Z) ]}
                : gmap nat DataFrame) !! 0%nat
               = Some (from_bars (bars_of_closes [3; 2; 1]%Z))) by reflexivity.
  assert (Hi : (1 ≤ 1 < length (bars_of_closes [3; 2; 1]%Z))%nat)
    by (cbn; lia).
  split; [exact Hl|]. split; [exact Hi|].
  destruct (C5_rsi_in_range_where_defined sqrt_floor _ 0%nat _ 1%nat Hl Hi)
    as (g & lo & out & k & rsi_col & Hg & Hlo & _ & _ & _ & _ & Hcol
        & Hmoved & _).
  assert (Hg' : rsi_avg_gain (close_col (from_bars (bars_of_closes [3; 2; 1]%Z)))
                  !! 1%nat = Some (Fin 0))
    by (apply holds_lookup; vm_compute; reflexivity).
  assert (Hlo' : rsi_avg_loss (close_col (from_bars (bars_of_closes [3; 2; 1]%Z)))
                   !! 1%nat = Some (Fin (Qc_of_Z 1)))
    by (apply holds_lookup; vm_compute; reflexivity).
  assert (Hg0 : g = 0) by congruence.
  assert (Hlo1 : lo = Qc_of_Z 1) by congruence.
  destruct Hmoved as (r & Hr & _ & _ & _ & Hzero & _).
  { right. rewrite Hlo1. apply Qc_of_Z_pos. lia. }
  exists rsi_col. split; [exact Hcol|]. rewrite Hr, (Hzero Hg0). reflexivity.
Defined.

(** C5, as stated, fails on three closes at 10: at row 1 both smoothed
    averages are zero and the RSI is [NaN], neither 0 nor a number of
    [0, 100]. *)
Lemma C5_counterexample :
  let close := Fin <$> closes_of flat3 in
  rsi_avg_gain close !! 1%nat = Some (Fin 0)
  ∧ rsi_avg_loss close !! 1%nat = Some (Fin 0)
  ∧ rsi close !! 1%nat = Some NaN
  ∧ ¬ (∃ r, rsi close !! 1%nat = Some (Fin r) ∧ 0 ≤ r ∧ r ≤ Qc_of_Z 100).
Proof.
  cbn zeta.
  assert (Hr : rsi (Fin <$> closes_of flat3) !! 1%nat = Some NaN)
    by (vm_compute; reflexivity).
  split; [apply holds_lookup; vm_compute; reflexivity|].
  split; [apply holds_lookup; vm_compute; reflexivity|].
  split; [exact Hr|].
  intros (r & Hq & _). rewrite Hr in Hq. discriminate.
Qed.

(** *** The rows and columns kept *)

(** C7: the trim step keeps the rows from some row [k] on, and a row is
    kept exactly when every attached indicator column is defined at it;
    each of the eleven indicator columns is returned, cut to the rows
    kept; every column of the returned frame holds a number at every row;
    an input of fewer than fifty bars gives a frame without rows, returned
    like any other. *)
Theorem C7_trim_keeps_complete_rows
        (sqrt : Qc → Qc) (h : gmap nat DataFrame) (l : nat) (bs : list Bar) :
  h !! l = Some (from_bars bs) →
  ∃ out k,
    calculate_technical_indicators sqrt (PyRef l) h
    = Some (PyRef l, <[l := out]> h)
    ∧ bars out = drop k bs
    ∧ (∀ i, (i < length bs)%nat →
         ((k ≤ i)%nat
          ↔ ∀ name s,
              columns (attached sqrt (from_bars bs)) !! name = Some s →
              defined_at s i = true))
    ∧ (bs ≠ [] →
       ∀ name, name ∈ indicator_names →
         ∃ s0, columns (attached sqrt (from_bars bs)) !! name = Some s0
               ∧ length s0 = length bs
               ∧ columns out !! name = Some (drop k s0))
    ∧ (∀ name s, columns out !! name = Some s →
         name ∈ indicator_names
         ∧ length s = length (bars out)
         ∧ Forall (fun x => is_finite x = true) s)
    ∧ ((length bs < 50)%nat → bars out = []).
Proof.
  intros Hl.
  destruct (calculate_fresh sqrt h l bs Hl) as (out & Hcall & Hbars & Hne & He).
  destruct (fresh_threshold sqrt bs) as (k & Hk & Hsel & Hrow & Hcols).
  exists out, k. split; [exact Hcall|]. split; [rewrite Hbars; exact Hsel|].
  split; [|split; [|split]].
  - intros i Hi. rewrite <- row_complete_true. apply Hrow. exact Hi.
  - intros Hrows name Hin.
    assert (Hdom : name ∈ dom (columns (attached sqrt (from_bars bs)))).
    { rewrite attached_fresh_dom, elem_of_list_to_set. exact Hin. }
    apply elem_of_dom in Hdom as [s0 Hs0]. exists s0.
    split; [exact Hs0|].
    split; [exact (proj1 (attached_fresh_shape sqrt bs name s0 Hs0))|].
    rewrite (Hne Hrows), dropna_columns_fmap, Hs0.
    cbn [fmap option_fmap option_map]. f_equal. exact (Hcols _ _ Hs0).
  - intros name s Hs. destruct bs as [|b bs].
    + rewrite (He eq_refl) in Hs. cbn [columns from_bars] in Hs.
      rewrite lookup_empty in Hs. discriminate Hs.
    + rewrite (Hne ltac:(discriminate)) in *. split.
      * apply (elem_of_list_to_set (C := gset string)).
        rewrite <- (attached_fresh_dom sqrt (b :: bs)), <- dropna_dom.
        apply elem_of_dom. eexists. exact Hs.
      * exact (dropna_fresh_dense sqrt _ name s Hs).
  - intros Hshort. destruct bs as [|b bs].
    + rewrite (He eq_refl). reflexivity.
    + rewrite (Hne ltac:(discriminate)).
      apply dropna_fresh_short. exact Hshort.
Qed.

Lemma C7_trim_keeps_complete_rows_witness :
  let h : gmap nat DataFrame := {[ 0%nat := from_bars rising50 ]} in
  h !! 0%nat = Some (from_bars rising50)
  ∧ ∃ out,
      calculate_technical_indicators sqrt_floor (PyRef 0) h
      = Some (PyRef 0, <[0%nat := out]> h)
      ∧ bars out = drop 49 rising50
      ∧ ∃ s, columns out !! "SMA_50" = Some s ∧ length s = 1%nat.
Proof.
  cbn zeta.
  assert (Hl : ({[ 0%nat := from_bars rising50 ]} : gmap nat DataFrame) !! 0%nat
               = Some (from_bars rising50)) by reflexivity.
  split; [exact Hl|].
  destruct (C7_trim_keeps_complete_rows sqrt_floor _ 0%nat rising50 Hl)
    as (out & k & Hcall & Hbars & Hrow & Hcols & _ & _).
  assert (H49 : row_complete
                  (columns (attached sqrt_floor (from_bars rising50))) 49
                = true) by (vm_compute; reflexivity).
  assert (H48 : row_complete
                  (columns (attached sqrt_floor (from_bars rising50))) 48
                = false) by (vm_compute; reflexivity).
  assert (Hlen : length rising50 = 50%nat) by (vm_compute; reflexivity).
  assert (Hk : k = 49%nat).
  { assert (Hle : (k ≤ 49)%nat).
    { assert (H49' : (49 < length rising50)%nat) by (rewrite Hlen; lia).
      apply (proj2 (Hrow 49%nat H49')).
      apply row_complete_true. exact H49. }
    assert (Hgt : ¬ (k ≤ 48)%nat).
    { intros Hc.
      assert (H48' : (48 < length rising50)%nat) by (rewrite Hlen; lia).
      pose proof (proj1 (Hrow 48%nat H48') Hc) as Hall.
      apply row_complete_true in Hall. rewrite Hall in H48.
      discriminate H48. }
    lia. }
  subst k. exists out. split; [exact Hcall|]. split; [exact Hbars|].
  destruct (Hcols ltac:(discriminate) "SMA_50") as (s0 & _ & Hs0 & Hout).
  { unfold indicator_names. apply list_elem_of_further, list_elem_of_here. }
  exists (drop 49 s0). split; [exact Hout|].
  rewrite length_drop, Hs0, Hlen. reflexivity.
Defined.

(** C8: the rows that survive the trim step are a suffix of the input:
    some [k] rows are dropped from the front and every row after them is
    kept. *)
Theorem C8_trim_keeps_a_suffix
        (sqrt : Qc → Qc) (h : gmap nat DataFrame) (l : nat) (bs : list Bar) :
  h !! l = Some (from_bars bs) →
  ∃ out k,
    calculate_technical_indicators sqrt (PyRef l) h
    = Some (PyRef l, <[l := out]> h)
    ∧ (k ≤ length bs)%nat
    ∧ bars out = drop k bs
    ∧ (∀ i, (i < k)%nat →
         dropna_mask (attached sqrt (from_bars bs)) !! i = Some false)
    ∧ (∀ i, (k ≤ i < length bs)%nat →
         dropna_mask (attached sqrt (from_bars bs)) !! i = Some true).
Proof.
  intros Hl.
  destruct (calculate_fresh sqrt h l bs Hl) as (out & Hcall & Hbars & _).
  destruct (select_monotone (dropna_mask (attached sqrt (from_bars bs))) bs)
    as (k & Hk & Hsel & Hlo & Hhi).
  - apply dropna_mask_length.
  - intros i. apply dropna_mask_fresh_monotone.
  - exists out, k. rewrite Hbars. repeat split; assumption.
Qed.

Lemma C8_trim_keeps_a_suffix_witness :
  let h : gmap nat DataFrame := {[ 0%nat := from_bars flat3 ]} in
  h !! 0%nat = Some (from_bars flat3)
  ∧ ∃ out k,
      calculate_technical_indicators sqrt_floor (PyRef 0) h
      = Some (PyRef 0, <[0%nat := out]> h)
      ∧ bars out = drop k flat3.
Proof.
  cbn zeta.
  assert (Hl : ({[ 0%nat := from_bars flat3 ]} : gmap nat DataFrame) !! 0%nat
               = Some (from_bars flat3)) by reflexivity.
  split; [exact Hl|].
  destruct (C8_trim_keeps_a_suffix sqrt_floor _ 0%nat flat3 Hl)
    as (out & k & Hcall & _ & Hdrop & _).
  exists out, k. split; assumption.
Defined.

(** ** Calling the engine *)

(** C9, as the engine has it: equal frame contents give equal results,
    whatever the store and the reference.  The call returns the
    reference it was given and rewrites the frame behind it, which loses
    rows whenever it had any.  A second call on the same reference
    therefore works on the trimmed frame: it leaves the frame as it is
    when the first result has no rows, and leaves other rows when it
    has. *)
Theorem C9_result_determined_by_frame_contents
        (sqrt : Qc → Qc) (h h' : gmap nat DataFrame) (l l' : nat)
        (df : DataFrame) :
  h !! l = Some df →
  h' !! l' = Some df →
  ∃ out1 out2,
    calculate_technical_indicators sqrt (PyRef l) h
    = Some (PyRef l, <[l := out1]> h)
    ∧ calculate_technical_indicators sqrt (PyRef l') h'
      = Some (PyRef l', <[l' := out1]> h')
    ∧ calculate_technical_indicators sqrt (PyRef l) (<[l := out1]> h)
      = Some (PyRef l, <[l := out2]> (<[l := out1]> h))
    ∧ (empty df = false → out1 = dropna (attached sqrt df))
    ∧ (empty df = true → out1 = df)
    ∧ (bars df ≠ [] → bars out1 ≠ bars df)
    ∧ (bars out1 = [] → out2 = out1)
    ∧ (bars out1 ≠ [] → bars out2 ≠ bars out1).
Proof.
  intros Hl Hl'.
  assert (Hshrink : ∀ d : DataFrame,
            bars d ≠ [] → bars (dropna (attached sqrt d)) ≠ bars d).
  { intros d Hd Heq. apply (f_equal length) in Heq.
    pose proof (dropna_attached_length sqrt d) as Hle.
    destruct (bars d) as [|b rest]; [destruct (Hd eq_refl)|].
    cbn [length] in *. lia. }
  assert (Hrows : ∀ d : DataFrame, empty d = true ↔ bars d = []).
  { intros d. unfold empty. destruct (bars d); split; congruence. }
  destruct (empty df) eqn:He.
  - exists df, df. rewrite !insert_id by assumption.
    rewrite (calculate_empty sqrt h l df Hl He).
    rewrite (calculate_empty sqrt h' l' df Hl' He).
    apply Hrows in He.
    split; [reflexivity|]. split; [reflexivity|]. split; [reflexivity|].
    split; [discriminate|]. split; [reflexivity|].
    split; [intros Hne; destruct (Hne He)|].
    split; [reflexivity|]. intros Hne. destruct (Hne He).
  - set (out1 := dropna (attached sqrt df)).
    assert (Hl1 : <[l := out1]> h !! l = Some out1) by apply lookup_insert_eq.
    assert (Hdf : bars df ≠ []).
    { intros Hnil. apply Hrows in Hnil. congruence. }
    destruct (empty out1) eqn:He1.
    + exists out1, out1.
      rewrite (calculate_nonempty sqrt h l df Hl He).
      rewrite (calculate_nonempty sqrt h' l' df Hl' He).
      rewrite (calculate_empty sqrt _ l out1 Hl1 He1).
      rewrite insert_insert_eq. apply Hrows in He1.
      split; [reflexivity|]. split; [reflexivity|]. split; [reflexivity|].
      split; [reflexivity|]. split; [discriminate|].
      split; [intros _; apply Hshrink; exact Hdf|].
      split; [reflexivity|]. intros Hne. destruct (Hne He1).
    + exists out1, (dropna (attached sqrt out1)).
      rewrite (calculate_nonempty sqrt h l df Hl He).
      rewrite (calculate_nonempty sqrt h' l' df Hl' He).
      rewrite (calculate_nonempty sqrt _ l out1 Hl1 He1).
      split; [reflexivity|]. split; [reflexivity|]. split; [reflexivity|].
      split; [reflexivity|]. split; [discriminate|].
      split; [intros _; apply Hshrink; exact Hdf|].
      split; [|apply Hshrink].
      intros Hnil. apply Hrows in Hnil. rewrite Hnil in He1. discriminate He1.
Qed.

Lemma C9_result_determined_by_frame_contents_witness :
  let h : gmap nat DataFrame := {[ 0%nat := from_bars rising50 ]} in
  let h' : gmap nat DataFrame := {[ 5%nat := from_bars rising50 ]} in
  h !! 0%nat = Some (from_bars rising50)
  ∧ h' !! 5%nat = Some (from_bars rising50)
  ∧ ∃ out1 out2,
      calculate_technical_indicators sqrt_floor (PyRef 0) h
      = Some (PyRef 0, <[0%nat := out1]> h)
      ∧ calculate_technical_indicators sqrt_floor (PyRef 5) h'
        = Some (PyRef 5, <[5%nat := out1]> h')
      ∧ calculate_technical_indicators sqrt_floor (PyRef 0) (<[0%nat := out1]> h)
        = Some (PyRef 0, <[0%nat := out2]> (<[0%nat := out1]> h))
      ∧ bars out1 ≠ bars (from_bars rising50)
      ∧ bars out2 ≠ bars out1.
Proof.
  cbn zeta.
  assert (Hl : ({[ 0%nat := from_bars rising50 ]} : gmap nat DataFrame) !! 0%nat
               = Some (from_bars rising50)) by reflexivity.
  assert (Hl' : ({[ 5%nat := from_bars rising50 ]} : gmap nat DataFrame) !! 5%nat
                = Some (from_bars rising50)) by reflexivity.
  split; [exact Hl|]. split; [exact Hl'|].
  destruct (C9_result_determined_by_frame_contents sqrt_floor _ _ 0%nat 5%nat (from_bars rising50) Hl Hl')
    as (out1 & out2 & H1 & H2 & H3 & _ & _ & Hmut & _ & Hdiff).
  destruct (rising50_first_call out1 H1) as [_ Hrows].
  exists out1, out2. split; [exact H1|]. split; [exact H2|].
  split; [exact H3|]. split.
  - apply Hmut. discriminate.
  - apply Hdiff. intros Hnil. rewrite Hnil in Hrows. discriminate Hrows.
Defined.

Lemma empty_false_of_rows (df : DataFrame) (n : nat) :
  length (bars df) = S n → empty df = false.
Proof. unfold empty. destruct (bars df); [discriminate | reflexivity]. Qed.

(** C9, as stated, fails on fifty bars closing at 1, 2, ..., 50: the
    first call leaves one row in the frame; the second call, on the same
    frame object, computes the indicators over that one row and leaves
    none. *)
Lemma C9_counterexample :
  let h0 : gmap nat DataFrame := {[ 0%nat := from_bars rising50 ]} in
  ∃ d1 d2,
    calculate_technical_indicators sqrt_floor (PyRef 0) h0
    = Some (PyRef 0, <[0%nat := d1]> h0)
    ∧ calculate_technical_indicators sqrt_floor (PyRef 0) (<[0%nat := d1]> h0)
      = Some (PyRef 0, <[0%nat := d2]> (<[0%nat := d1]> h0))
    ∧ length (bars d1) = 1%nat
    ∧ length (bars d2) = 0%nat
    ∧ d1 ≠ d2.
Proof.
  cbn zeta.
  assert (H1 : length (bars (dropna (attached sqrt_floor (from_bars rising50))))
               = 1%nat) by (vm_compute; reflexivity).
  assert (H2 : length (bars (dropna (attached sqrt_floor
                 (dropna (attached sqrt_floor (from_bars rising50))))))
               = 0%nat) by (vm_compute; reflexivity).
  exists (dropna (attached sqrt_floor (from_bars rising50))),
         (dropna (attached sqrt_floor
            (dropna (attached sqrt_floor (from_bars rising50))))).
  split; [|split; [|split; [exact H1|split; [exact H2|]]]].
  - apply (calculate_nonempty sqrt_floor _ 0%nat (from_bars rising50));
      [apply lookup_singleton_eq | reflexivity].
  - apply (calculate_nonempty sqrt_floor _ 0%nat
             (dropna (attached sqrt_floor (from_bars rising50))));
      [apply lookup_insert_eq | exact (empty_false_of_rows _ _ H1)].
  - intros Heq. rewrite <- Heq, H1 in H2. discriminate H2.
Qed.

(** C10: called with [None], or with a frame without rows, the engine
    returns its argument and leaves the store, and with it the frame and
    its columns, as they were. *)
Theorem C10_none_or_empty_returned_unchanged
        (sqrt : Qc → Qc) (h : gmap nat DataFrame) :
  calculate_technical_indicators sqrt PyNone h = Some (PyNone, h)
  ∧ ∀ l df, h !! l = Some df → bars df = [] →
      calculate_technical_indicators sqrt (PyRef l) h = Some (PyRef l, h).
Proof.
  split; [reflexivity|]. intros l df Hl Hb.
  apply (calculate_empty sqrt h l df Hl). unfold empty. rewrite Hb.
  reflexivity.
Qed.

Lemma C10_none_or_empty_returned_unchanged_witness :
  let h : gmap nat DataFrame := {[ 3%nat := from_bars [] ]} in
  h !! 3%nat = Some (from_bars [])
  ∧ bars (from_bars []) = []
  ∧ calculate_technical_indicators sqrt_floor PyNone h = Some (PyNone, h)
  ∧ calculate_technical_indicators sqrt_floor (PyRef 3) h = Some (PyRef 3, h).
Proof.
  cbn zeta.
  assert (Hl : ({[ 3%nat := from_bars [] ]} : gmap nat DataFrame) !! 3%nat
               = Some (from_bars [])) by reflexivity.
  assert (Hb : bars (from_bars []) = []) by reflexivity.
  destruct (C10_none_or_empty_returned_unchanged sqrt_floor
              {[ 3%nat := from_bars [] ]}) as [Hnone Hempty].
  split; [exact Hl|]. split; [exact Hb|]. split; [exact Hnone|].
  exact (Hempty 3%nat (from_bars []) Hl Hb).
Defined.

(** * Further properties of the engine and of the application *)

(** ** More on the trim step *)

Lemma select_all_false {A : Type} (mask : list bool) (l : list A) :
  Forall (eq false) mask → select mask l = [].
Proof.
  intros Hall. revert l. induction Hall as [|b mask <- _ IH]; intros [|x l];
    try reflexivity. cbn. apply IH.
Qed.

Lemma ema_from_zeros (alpha : Qc) (xs : list Qc) :
  Forall (eq 0) xs → Forall (eq 0) (ema_from alpha 0 xs).
Proof.
  induction 1 as [|x xs <- _ IH]; cbn; constructor.
  - ring.
  - replace (alpha * 0 + (1 - alpha) * 0) with (Q2Qc 0) by ring. exact IH.
Qed.

Lemma ema_zeros (alpha : Qc) (xs : list Qc) :
  Forall (eq 0) xs → Forall (eq 0) (ema alpha xs).
Proof.
  destruct 1 as [|x xs <- Hxs]; cbn; constructor; [reflexivity|].
  apply ema_from_zeros. exact Hxs.
Qed.

Lemma deltas_lookup_inv (cs : list Qc) (j : nat) (d : Qc) :
  deltas cs !! j = Some d →
  ∃ a b, cs !! j = Some a ∧ cs !! S j = Some b ∧ d = b - a.
Proof.
  unfold deltas. intros H. apply lookup_zip_with_Some in H as (b & a & -> & Hb & Ha).
  rewrite lookup_tail in Hb. exists a, b. repeat split; assumption.
Qed.

Lemma gain_of_0 : gain_of 0 = 0.
Proof. reflexivity. Qed.

Lemma loss_of_0 : loss_of 0 = 0.
Proof. apply Qc_is_canon. reflexivity. Qed.

Lemma deltas_flat (cs : list Qc) (p : Qc) :
  Forall (eq p) cs → Forall (eq 0) (deltas cs).
Proof.
  intros Hflat. apply Forall_lookup. intros j d Hd.
  apply deltas_lookup_inv in Hd as (a & b & Ha & Hb & ->).
  rewrite Forall_lookup in Hflat.
  rewrite <- (Hflat _ _ Ha), <- (Hflat _ _ Hb). ring.
Qed.

Lemma rsi_flat_undefined (cs : list Qc) (p : Qc) (i : nat) :
  Forall (eq p) cs → defined_at (rsi (Fin <$> cs)) i = false.
Proof.
  intros Hflat. unfold defined_at.
  destruct (rsi (Fin <$> cs) !! i) as [x|] eqn:Hx; [|reflexivity].
  assert (Hi := lookup_lt_Some _ _ _ Hx). rewrite rsi_length, length_fmap in Hi.
  destruct cs as [|c0 cs]; [cbn in Hi; lia|]. destruct i as [|j].
  { rewrite rsi_fin_lookup_0 in Hx. injection Hx as <-. reflexivity. }
  cbn in Hi.
  destruct (rsi_fin_lookup_S c0 cs j ltac:(lia))
    as (g & l & Hg & Hl & _ & _ & Hr).
  pose proof (deltas_flat _ _ Hflat) as Hd.
  assert (Hg0 : g = 0).
  { assert (Hz : Forall (eq 0) (ema alpha_rsi (gains (c0 :: cs)))).
    { apply ema_zeros. unfold gains. apply Forall_fmap.
      eapply Forall_impl; [exact Hd|]. intros d <-. reflexivity. }
    rewrite Forall_lookup in Hz. symmetry. exact (Hz _ _ Hg). }
  assert (Hl0 : l = 0).
  { assert (Hz : Forall (eq 0) (ema alpha_rsi (losses (c0 :: cs)))).
    { apply ema_zeros. unfold losses. apply Forall_fmap.
      eapply Forall_impl; [exact Hd|]. intros d <-. cbn. symmetry. apply loss_of_0. }
    rewrite Forall_lookup in Hz. symmetry. exact (Hz _ _ Hl). }
  subst g l. rewrite Hr in Hx. injection Hx as <-. reflexivity.
Qed.

(** X1: when every bar closes at the same price the RSI is undefined at
    every row, so the engine returns a frame without rows, however long
    the history is. *)
Theorem flat_prices_leave_no_row
        (sqrt : Qc → Qc) (h : gmap nat DataFrame) (l : nat) (bs : list Bar)
        (p : Qc) :
  h !! l = Some (from_bars bs) →
  Forall (fun b => close b = p) bs →
  ∃ out,
    calculate_technical_indicators sqrt (PyRef l) h
    = Some (PyRef l, <[l := out]> h)
    ∧ bars out = [].
Proof.
  intros Hl Hflat.
  destruct (calculate_fresh sqrt h l bs Hl) as (out & Hcall & Hbars & _).
  exists out. split; [exact Hcall|]. rewrite Hbars.
  apply select_all_false. apply Forall_lookup. intros i b Hb.
  assert (Hi := lookup_lt_Some _ _ _ Hb). rewrite dropna_mask_length in Hi.
  rewrite dropna_mask_lookup in Hb by exact Hi.
  change (bars (attached sqrt (from_bars bs))) with bs in Hi.
  rewrite row_complete_fresh in Hb by exact Hi.
  rewrite (rsi_flat_undefined _ p), andb_false_r in Hb; [congruence|].
  apply Forall_fmap. eapply Forall_impl; [exact Hflat|]. intros b' <-. reflexivity.
Qed.

(** ** The RSI after the first price change *)

Section SmoothingMore.

Variable alpha : Qc.
Hypothesis alpha_pos : 0 < alpha.
Hypothesis alpha_lt1 : alpha < 1.

Lemma ema_pos_at (xs : list Qc) (j : nat) (x y : Qc) :
  Forall (Qcle 0) xs →
  xs !! j = Some x → 0 < x → ema alpha xs !! j = Some y → 0 < y.
Proof using alpha_pos alpha_lt1.
  intros Hnn Hx Hpos Hy. destruct j as [|j].
  - rewrite ema_lookup_0, Hx in Hy. congruence.
  - assert (Hj : (j < length (ema alpha xs))%nat).
    { apply lookup_lt_Some in Hy. lia. }
    destruct (lookup_lt_is_Some_2 _ _ Hj) as [prev Hprev].
    rewrite (ema_lookup_S _ _ _ _ _ Hprev Hx) in Hy. injection Hy as <-.
    pose proof (ema_nonneg alpha alpha_pos alpha_lt1 xs Hnn) as He.
    rewrite Forall_lookup in He. specialize (He _ _ Hprev).
    qc_to_q. nra.
Qed.

Lemma ema_pos_from (xs : list Qc) (j i : nat) (y z : Qc) :
  Forall (Qcle 0) xs → (j ≤ i)%nat →
  ema alpha xs !! j = Some y → 0 < y →
  ema alpha xs !! i = Some z → 0 < z.
Proof using alpha_pos alpha_lt1.
  intros Hnn Hji Hy Hpos. revert z.
  induction Hji as [|i Hji IH]; intros z Hz.
  - congruence.
  - assert (Hi : (i < length (ema alpha xs))%nat).
    { apply lookup_lt_Some in Hz. lia. }
    destruct (lookup_lt_is_Some_2 _ _ Hi) as [w Hw].
    exact (ema_pos_step alpha alpha_pos alpha_lt1 xs i w z Hnn Hw (IH _ Hw) Hz).
Qed.

End SmoothingMore.

Lemma gain_or_loss_pos (d : Qc) : d ≠ 0 → 0 < gain_of d ∨ 0 < loss_of d.
Proof.
  intros Hd. unfold gain_of, loss_of, Qcmax.
  destruct (Qc_ltb d 0) eqn:H1.
  - right. apply Qc_ltb_lt in H1.
    destruct (Qc_ltb (- d) 0) eqn:H2.
    + apply Qc_ltb_lt in H2. exfalso. qc_to_q. lra.
    + qc_to_q. lra.
  - left. apply Qc_ltb_ge in H1.
    destruct (Qcle_lt_or_eq _ _ H1) as [H | H]; [exact H|].
    destruct Hd. symmetry. exact H.
Qed.

(** From the row after the first change of the close on, the RSI holds a
    number. *)
Lemma rsi_defined_after_move (cs : list Qc) (j i : nat) (a b : Qc) :
  cs !! j = Some a → cs !! S j = Some b → a ≠ b →
  (S j ≤ i < length cs)%nat →
  defined_at (rsi (Fin <$> cs)) i = true.
Proof.
  intros Ha Hb Hne [Hji Hi].
  destruct cs as [|c0 cs]; [discriminate|]. destruct i as [|i]; [lia|].
  cbn in Hi.
  destruct (rsi_fin_lookup_S c0 cs i ltac:(lia))
    as (g & l & Hg & Hl & Hg0 & Hl0 & Hr).
  unfold defined_at. rewrite Hr. apply rsi_of_rs_defined; [assumption..|].
  assert (Hd : b - a ≠ 0) by (intros Heq; apply Hne; qc_to_q; lra).
  assert (Hgj : (j < length (ema alpha_rsi (gains (c0 :: cs))))%nat).
  { apply lookup_lt_Some in Hg. lia. }
  assert (Hlj : (j < length (ema alpha_rsi (losses (c0 :: cs))))%nat).
  { apply lookup_lt_Some in Hl. lia. }
  destruct (lookup_lt_is_Some_2 _ _ Hgj) as [gj Hgj'].
  destruct (lookup_lt_is_Some_2 _ _ Hlj) as [lj Hlj'].
  destruct (gain_or_loss_pos _ Hd) as [Hpos | Hpos]; [left | right].
  - apply (ema_pos_from alpha_rsi alpha_rsi_pos alpha_rsi_lt1 _ j i gj g
             (gains_nonneg _) ltac:(lia) Hgj'); [|exact Hg].
    exact (ema_pos_at alpha_rsi alpha_rsi_pos alpha_rsi_lt1 _ j _ gj
             (gains_nonneg _) (gains_lookup _ _ _ _ Ha Hb) Hpos Hgj').
  - apply (ema_pos_from alpha_rsi alpha_rsi_pos alpha_rsi_lt1 _ j i lj l
             (losses_nonneg _) ltac:(lia) Hlj'); [|exact Hl].
    exact (ema_pos_at alpha_rsi alpha_rsi_pos alpha_rsi_lt1 _ j _ lj
             (losses_nonneg _) (losses_lookup _ _ _ _ Ha Hb) Hpos Hlj').
Qed.

Lemma dropna_mask_fresh_lookup (sqrt : Qc → Qc) (bs : list Bar) (i : nat) :
  (i < length bs)%nat →
  dropna_mask (attached sqrt (from_bars bs)) !! i
  = Some ((50 <=? i + 1)%nat && defined_at (rsi (Fin <$> (close <$> bs))) i).
Proof.
  intros Hi. rewrite dropna_mask_lookup by exact Hi.
  rewrite row_complete_fresh by exact Hi. reflexivity.
Qed.

(** X2: when the close changes between two consecutive bars among the
    first fifty, an input of [n >= 50] bars comes back as its last
    [n - 49] bars. *)
Theorem price_change_in_first_fifty_drops_49
        (sqrt : Qc → Qc) (h : gmap nat DataFrame) (l : nat) (bs : list Bar)
        (j : nat) (a b : Bar) :
  h !! l = Some (from_bars bs) →
  (50 ≤ length bs)%nat →
  (j < 49)%nat → bs !! j = Some a → bs !! S j = Some b → close a ≠ close b →
  ∃ out,
    calculate_technical_indicators sqrt (PyRef l) h
    = Some (PyRef l, <[l := out]> h)
    ∧ bars out = drop 49 bs
    ∧ length (bars out) = (length bs - 49)%nat.
Proof.
  intros Hl Hlen Hj Ha Hb Hne.
  destruct (calculate_fresh sqrt h l bs Hl) as (out & Hcall & Hbars & _).
  exists out. split; [exact Hcall|].
  assert (Hdrop : bars out = drop 49 bs).
  { rewrite Hbars. apply select_threshold.
    - apply dropna_mask_length.
    - intros i Hi Hil. rewrite dropna_mask_fresh_lookup by exact Hil.
      replace (50 <=? i + 1)%nat with false; [reflexivity|].
      symmetry. apply Nat.leb_gt. lia.
    - intros i [Hi Hil]. rewrite dropna_mask_fresh_lookup by exact Hil.
      replace (50 <=? i + 1)%nat with true
        by (symmetry; apply Nat.leb_le; lia).
      rewrite (rsi_defined_after_move _ j i (close a) (close b)); [reflexivity|..].
      + rewrite list_lookup_fmap, Ha. reflexivity.
      + rewrite list_lookup_fmap, Hb. reflexivity.
      + exact Hne.
      + rewrite length_fmap. lia. }
  split; [exact Hdrop|]. rewrite Hdrop, length_drop. reflexivity.
Qed.

(** ** The shape of the returned frame *)

(** X3: the trim step recomputes nothing.  The returned frame has the
    eleven indicator columns, and each of them is the column computed over
    the whole history with its first [k] entries dropped, [k] being the
    number of rows dropped: row [j] of the result holds the indicators of
    input row [k + j]. *)
Theorem trim_keeps_values_of_original_rows
        (sqrt : Qc → Qc) (h : gmap nat DataFrame) (l : nat) (bs : list Bar) :
  h !! l = Some (from_bars bs) →
  bs ≠ [] →
  ∃ out k,
    calculate_technical_indicators sqrt (PyRef l) h
    = Some (PyRef l, <[l := out]> h)
    ∧ bars out = drop k bs
    ∧ (∀ name, name ∈ indicator_names ↔ is_Some (columns out !! name))
    ∧ (∀ name, columns out !! name
               = drop k <$> columns (attached sqrt (from_bars bs)) !! name)
    ∧ (∀ name s0 j,
         columns (attached sqrt (from_bars bs)) !! name = Some s0 →
         ∃ s, columns out !! name = Some s ∧ s !! j = s0 !! (k + j)%nat).
Proof.
  intros Hl Hne.
  destruct (calculate_fresh sqrt h l bs Hl) as (out & Hcall & Hbars & Hout & _).
  specialize (Hout Hne).
  destruct (select_monotone (dropna_mask (attached sqrt (from_bars bs))) bs)
    as (k & Hk & Hsel & Hlo & Hhi).
  { apply dropna_mask_length. }
  { intros i. apply dropna_mask_fresh_monotone. }
  assert (Hcol : ∀ name, columns out !! name
                 = drop k <$> columns (attached sqrt (from_bars bs)) !! name).
  { intros name. rewrite Hout, dropna_columns_fmap.
    destruct (columns (attached sqrt (from_bars bs)) !! name) as [s0|] eqn:Hs0;
      [|reflexivity].
    cbn [fmap option_fmap option_map]. f_equal.
    destruct (attached_fresh_shape sqrt bs name s0 Hs0) as [Hlen _].
    apply select_threshold.
    - rewrite dropna_mask_length. cbn [bars attached setitem from_bars].
      symmetry. exact Hlen.
    - intros i Hi _. apply Hlo. exact Hi.
    - intros i Hi. apply Hhi. lia. }
  exists out, k. split; [exact Hcall|]. split; [congruence|].
  split; [|split; [exact Hcol|]].
  - intros name. rewrite <- elem_of_dom, Hout, dropna_dom, attached_fresh_dom.
    rewrite elem_of_list_to_set. reflexivity.
  - intros name s0 j Hs0. exists (drop k s0). rewrite Hcol, Hs0.
    split; [reflexivity|]. apply lookup_drop.
Qed.

(** ** A second call on the same frame *)

Lemma attached_overwrites (sqrt : Qc → Qc) (data : DataFrame) :
  dom (columns data) ⊆ list_to_set indicator_names →
  attached sqrt data = attached sqrt (from_bars (bars data)).
Proof.
  intros Hdom. unfold attached, setitem. cbn [columns bars from_bars].
  unfold close_col, volume_col. cbn [bars from_bars]. f_equal.
  apply map_eq. intros name. rewrite !lookup_insert.
  repeat (case_decide; [reflexivity|]).
  rewrite lookup_empty. apply not_elem_of_dom. intros Hin.
  apply Hdom in Hin. rewrite elem_of_list_to_set in Hin.
  unfold indicator_names in Hin.
  repeat (apply elem_of_cons in Hin as [Hin | Hin]; [congruence|]).
  apply elem_of_nil in Hin. exact Hin.
Qed.

Lemma dropna_fresh_length (sqrt : Qc → Qc) (bs : list Bar) :
  (length (bars (dropna (attached sqrt (from_bars bs))))
   ≤ length bs - 49)%nat.
Proof.
  destruct (select_monotone (dropna_mask (attached sqrt (from_bars bs))) bs)
    as (k & Hk & Hsel & Hlo & Hhi).
  { apply dropna_mask_length. }
  { intros i. apply dropna_mask_fresh_monotone. }
  rewrite dropna_bars. cbn [bars attached setitem from_bars].
  rewrite Hsel, length_drop.
  destruct (decide (k < 49 ∧ k < length bs)%nat) as [[H49 Hlt]|Hge]; [|lia].
  exfalso. specialize (Hhi k ltac:(lia)).
  rewrite dropna_mask_fresh_lookup in Hhi by exact Hlt.
  replace (50 <=? k + 1)%nat with false in Hhi; [discriminate|].
  symmetry. apply Nat.leb_gt. lia.
Qed.

(** X4: a second call on the frame a first call returned works on the
    trimmed rows: it leaves at least 49 rows fewer, or none, so it loses
    rows whenever the first result has any. *)
Theorem second_call_loses_rows
        (sqrt : Qc → Qc) (h : gmap nat DataFrame) (l : nat) (bs : list Bar) :
  h !! l = Some (from_bars bs) →
  ∃ out1 out2,
    calculate_technical_indicators sqrt (PyRef l) h
    = Some (PyRef l, <[l := out1]> h)
    ∧ calculate_technical_indicators sqrt (PyRef l) (<[l := out1]> h)
      = Some (PyRef l, <[l := out2]> (<[l := out1]> h))
    ∧ (length (bars out2) ≤ length (bars out1) - 49)%nat
    ∧ (bars out1 ≠ [] → (length (bars out2) < length (bars out1))%nat).
Proof.
  intros Hl.
  destruct (calculate_fresh sqrt h l bs Hl) as (out1 & Hcall & Hbars & Hne & He).
  assert (Hl1 : <[l := out1]> h !! l = Some out1) by apply lookup_insert_eq.
  assert (Hdom : dom (columns out1) ⊆ list_to_set indicator_names).
  { destruct bs as [|b bs].
    - rewrite (He eq_refl). cbn [columns from_bars]. rewrite dom_empty_L.
      apply empty_subseteq.
    - rewrite (Hne ltac:(discriminate)), dropna_dom, attached_fresh_dom.
      reflexivity. }
  destruct (empty out1) eqn:Hempty.
  - exists out1, out1. split; [exact Hcall|]. split; [|split].
    + rewrite (calculate_empty sqrt _ l out1 Hl1 Hempty).
      rewrite insert_insert_eq. reflexivity.
    + unfold empty in Hempty. destruct (bars out1); [cbn; lia | discriminate].
    + intros Hrows. unfold empty in Hempty.
      destruct (bars out1); [destruct (Hrows eq_refl) | discriminate].
  - exists out1, (dropna (attached sqrt out1)).
    split; [exact Hcall|]. split; [|split].
    + apply calculate_nonempty; assumption.
    + rewrite (attached_overwrites sqrt out1 Hdom). apply dropna_fresh_length.
    + intros Hrows. rewrite (attached_overwrites sqrt out1 Hdom).
      pose proof (dropna_fresh_length sqrt (bars out1)) as Hle.
      destruct (bars out1) as [|b rest] eqn:Hb; [destruct (Hrows eq_refl)|].
      cbn [length] in *. lia.
Qed.

(** ** The RSI of one-way price series *)

Lemma loss_of_rise (d : Qc) : 0 ≤ d → loss_of d = 0.
Proof.
  intros Hd. unfold loss_of, Qcmax.
  destruct (Qc_ltb (- d) 0) eqn:H; [reflexivity|].
  apply Qc_ltb_ge in H. qc_to_q. lra.
Qed.

Lemma gain_of_fall (d : Qc) : d ≤ 0 → gain_of d = 0.
Proof.
  intros Hd. unfold gain_of, Qcmax.
  destruct (Qc_ltb d 0) eqn:H; [reflexivity|].
  apply Qc_ltb_ge in H. qc_to_q. lra.
Qed.

Lemma losses_never_falling (cs : list Qc) :
  (∀ j a b, cs !! j = Some a → cs !! S j = Some b → a ≤ b) →
  Forall (eq 0) (losses cs).
Proof.
  intros Hup. unfold losses. apply Forall_fmap, Forall_lookup.
  intros j d Hd. apply deltas_lookup_inv in Hd as (a & b & Ha & Hb & ->).
  cbn. symmetry. apply loss_of_rise. specialize (Hup _ _ _ Ha Hb).
  qc_to_q. lra.
Qed.

Lemma gains_never_rising (cs : list Qc) :
  (∀ j a b, cs !! j = Some a → cs !! S j = Some b → b ≤ a) →
  Forall (eq 0) (gains cs).
Proof.
  intros Hdown. unfold gains. apply Forall_fmap, Forall_lookup.
  intros j d Hd. apply deltas_lookup_inv in Hd as (a & b & Ha & Hb & ->).
  cbn. symmetry. apply gain_of_fall. specialize (Hdown _ _ _ Ha Hb).
  qc_to_q. lra.
Qed.

(** X5: where the RSI is defined it is 100 on closes that never fall
    and 0 on closes that never rise. *)
Theorem rsi_saturates_on_one_way_prices (closes : list Qc) (i : nat) :
  defined_at (rsi (Fin <$> closes)) i = true →
  ((∀ j a b, closes !! j = Some a → closes !! S j = Some b → a ≤ b) →
   rsi (Fin <$> closes) !! i = Some (Fin (Qc_of_Z 100)))
  ∧ ((∀ j a b, closes !! j = Some a → closes !! S j = Some b → b ≤ a) →
     rsi (Fin <$> closes) !! i = Some (Fin 0)).
Proof.
  intros Hdef.
  assert (Hi := defined_at_lt _ _ Hdef). rewrite rsi_length, length_fmap in Hi.
  destruct closes as [|c0 cs]; [cbn in Hi; lia|].
  destruct i as [|j].
  { unfold defined_at in Hdef. rewrite rsi_fin_lookup_0 in Hdef. discriminate. }
  cbn in Hi.
  destruct (rsi_fin_lookup_S c0 cs j ltac:(lia))
    as (g & l & Hg & Hl & Hg0 & Hl0 & Hr).
  unfold defined_at in Hdef. rewrite Hr in Hdef.
  apply rsi_of_rs_defined in Hdef; [|assumption..].
  split; intros Hway.
  - assert (Hz : l = 0).
    { pose proof (ema_zeros alpha_rsi _ (losses_never_falling _ Hway)) as Hz.
      rewrite Forall_lookup in Hz. symmetry. exact (Hz _ _ Hl). }
    subst l. destruct Hdef as [Hpos | Hpos];
      [|destruct (Qclt_not_eq _ _ Hpos eq_refl)].
    rewrite Hr, fdiv_zero_loss, rsi_of_rs_inf by assumption. reflexivity.
  - assert (Hz : g = 0).
    { pose proof (ema_zeros alpha_rsi _ (gains_never_rising _ Hway)) as Hz.
      rewrite Forall_lookup in Hz. symmetry. exact (Hz _ _ Hg). }
    subst g. destruct Hdef as [Hpos | Hpos];
      [destruct (Qclt_not_eq _ _ Hpos eq_refl)|].
    rewrite Hr, rsi_of_rs_pos_loss by assumption.
    destruct (rsi_value_range 0 l Hg0 Hpos) as (_ & _ & Hzero).
    rewrite (proj2 Hzero eq_refl). reflexivity.
Qed.

(** ** Averages stay within the range of the prices *)

Lemma Qc_of_Z_le (a b : Z) : (a ≤ b)%Z → Qc_of_Z a ≤ Qc_of_Z b.
Proof.
  intros H. unfold Qcle, Qc_of_Z. cbn [this]. unfold Qle, inject_Z. cbn. lia.
Qed.

Lemma alpha_of_span_range (span : Z) :
  (1 ≤ span)%Z → 0 < alpha_of_span span ∧ alpha_of_span span ≤ 1.
Proof.
  intros Hs. unfold alpha_of_span.
  pose proof (Qc_of_Z_le 1 span Hs) as H1.
  remember (Qc_of_Z span) as s eqn:Es. clear Es.
  assert (Hne : s + 1 ≠ 0) by (intros Heq; qc_to_q; lra).
  assert (Hx : Qc_of_Z 2 / (s + 1) * (s + 1) = Qc_of_Z 2) by (field; exact Hne).
  remember (Qc_of_Z 2 / (s + 1)) as x eqn:Ex. clear Ex. split.
  - apply Qcnot_le_lt. intros Hle. qc_to_q. nra.
  - apply Qcnot_lt_le. intros Hlt. qc_to_q. nra.
Qed.

Section Convex.

Variables (alpha lo hi : Qc).
Hypothesis alpha_pos : 0 < alpha.
Hypothesis alpha_le1 : alpha ≤ 1.

Lemma ema_from_within (prev : Qc) (xs : list Qc) :
  lo ≤ prev ∧ prev ≤ hi →
  Forall (fun x => lo ≤ x ∧ x ≤ hi) xs →
  Forall (fun y => lo ≤ y ∧ y ≤ hi) (ema_from alpha prev xs).
Proof using alpha_pos alpha_le1.
  intros Hp Hxs. revert prev Hp.
  induction Hxs as [|x xs Hx _ IH]; intros prev Hp; cbn; constructor.
  - split; qc_to_q; nra.
  - apply IH. split; qc_to_q; nra.
Qed.

Lemma ema_within (xs : list Qc) :
  Forall (fun x => lo ≤ x ∧ x ≤ hi) xs →
  Forall (fun y => lo ≤ y ∧ y ≤ hi) (ema alpha xs).
Proof using alpha_pos alpha_le1.
  destruct 1 as [|x xs Hx Hxs]; cbn; constructor; [exact Hx|].
  apply ema_from_within; assumption.
Qed.

End Convex.

Lemma sum_from_within (lo hi : Qc) (xs : list Qc) (start k : nat) :
  Forall (fun x => lo ≤ x ∧ x ≤ hi) xs →
  (start + k ≤ length xs)%nat →
  Qc_of_Z (Z.of_nat k) * lo ≤ sum_from xs start k
  ∧ sum_from xs start k ≤ Qc_of_Z (Z.of_nat k) * hi.
Proof.
  intros Hxs. revert start. induction k as [|k IH]; intros start Hlen.
  - cbn [sum_from]. change (Z.of_nat 0) with 0%Z. split; qc_to_q; lra.
  - cbn [sum_from].
    destruct (lookup_lt_is_Some_2 xs start ltac:(lia)) as [x Hx].
    rewrite Hx. cbn [default].
    rewrite Forall_lookup in Hxs. pose proof (Hxs _ _ Hx) as [Hx1 Hx2].
    rewrite <- Forall_lookup in Hxs.
    destruct (IH (S start) ltac:(lia)) as [H1 H2].
    replace (Z.of_nat (S k)) with (Z.of_nat k + 1)%Z by lia.
    rewrite Z2Qc_inj_add.
    remember (Qc_of_Z (Z.of_nat k)) as n. remember (sum_from xs (S start) k) as s.
    clear Heqn Heqs IH. unfold id.
    split; qc_to_q; nra.
Qed.

(** X6: when every close lies between [lo] and [hi], so does every
    entry of an exponential average of span [k >= 1], and so does every
    defined entry of a simple moving average. *)
Theorem moving_averages_within_price_range
        (lo hi : Qc) (closes : list Qc) (span : Z) (k i : nat) (x : fval) :
  Forall (fun c => lo ≤ c ∧ c ≤ hi) closes →
  (1 ≤ span)%Z → (1 ≤ k)%nat →
  (ewm_mean span (Fin <$> closes) !! i = Some x →
   ∃ q, x = Fin q ∧ lo ≤ q ∧ q ≤ hi)
  ∧ (rolling_mean k (Fin <$> closes) !! i = Some x →
     x = NaN ∨ ∃ q, x = Fin q ∧ lo ≤ q ∧ q ≤ hi).
Proof.
  intros Hrange Hspan Hk. split.
  - rewrite ewm_mean_fin, list_lookup_fmap.
    destruct (ema (alpha_of_span span) closes !! i) as [q|] eqn:Hq;
      [|discriminate].
    cbn. intros [= <-]. exists q. split; [reflexivity|].
    destruct (alpha_of_span_range span Hspan) as [Ha1 Ha2].
    pose proof (ema_within _ lo hi Ha1 Ha2 closes Hrange) as Hw.
    rewrite Forall_lookup in Hw. exact (Hw _ _ Hq).
  - intros Hx. assert (Hi := lookup_lt_Some _ _ _ Hx).
    rewrite rolling_mean_length, length_fmap in Hi.
    rewrite rolling_mean_fin_lookup in Hx by assumption.
    apply (inj Some) in Hx. destruct (k <=? i + 1)%nat eqn:Hki;
      [|left; congruence].
    right. apply Nat.leb_le in Hki. eexists. split; [symmetry; exact Hx|].
    unfold mean_at.
    destruct (sum_from_within lo hi closes (i + 1 - k) k Hrange ltac:(lia))
      as [H1 H2].
    assert (Hkpos : 0 < Qc_of_Z (Z.of_nat k)) by (apply Qc_of_Z_pos; lia).
    assert (Hne : Qc_of_Z (Z.of_nat k) ≠ 0).
    { intros Heq. rewrite Heq in Hkpos. exact (Qclt_not_eq _ _ Hkpos eq_refl). }
    assert (Hm : sum_from closes (i + 1 - k) k / Qc_of_Z (Z.of_nat k)
                 * Qc_of_Z (Z.of_nat k) = sum_from closes (i + 1 - k) k)
      by (field; exact Hne).
    remember (sum_from closes (i + 1 - k) k) as s.
    remember (Qc_of_Z (Z.of_nat k)) as n.
    remember (s / n) as m. clear Heqs Heqn Heqm Hne Hx.
    split.
    + apply Qcnot_lt_le. intros Hlt. qc_to_q. nra.
    + apply Qcnot_lt_le. intros Hlt. qc_to_q. nra.
Qed.

(** ** What the display functions show *)

Lemma ui_bind_log {A B : Type} (m : ui A) (f : A → ui B) :
  (m ≫= f).1
  = m.1 ++ match m.2 with Returned a => (f a).1 | Raised _ => [] end.
Proof.
  destruct m as [log [a|e]]; cbn; [|rewrite app_nil_r; reflexivity].
  destruct (f a). reflexivity.
Qed.

Lemma ui_bind_res {A B : Type} (m : ui A) (f : A → ui B) :
  (m ≫= f).2 = match m.2 with Returned a => (f a).2 | Raised e => Raised e end.
Proof.
  destruct m as [log [a|e]]; cbn; [|reflexivity]. destruct (f a). reflexivity.
Qed.

Lemma show_metric_num (label : string) (f : fmt) (info : gmap string pyvalue)
      (key : string) (x : fval) :
  info !! key = Some (VNum x) →
  show_metric label f info key = ([Metric label f x], Returned tt).
Proof. intros H. unfold show_metric, subscript. rewrite H. reflexivity. Qed.

Lemma show_metric_other (label : string) (f : fmt)
      (info : gmap string pyvalue) (key repr : string) :
  info !! key = Some (VOther repr) →
  show_metric label f info key = ([], Raised (FormatError f (VOther repr))).
Proof. intros H. unfold show_metric, subscript. rewrite H. reflexivity. Qed.

Lemma has_value_true (info : gmap string pyvalue) (key : string) :
  has_value info key = true
  ↔ ∃ v, info !! key = Some v ∧ v ≠ VNone.
Proof.
  unfold has_value. destruct (info !! key) as [[]|]; split;
    try discriminate; try (intros (v & [= <-] & H); congruence);
    try (intros (v & [=] & _)); intros _; eexists; (split; [reflexivity|discriminate]).
Qed.

(** A step guarded by [has_value] depends on the dictionary through
    the one key only. *)
Lemma guarded_metric_ext (info info' : gmap string pyvalue)
      (label : string) (f : fmt) (key : string) (other : ui unit) :
  (has_value info key = true → info' !! key = info !! key) →
  has_value info' key = has_value info key →
  (if has_value info' key then show_metric label f info' key else other)
  = (if has_value info key then show_metric label f info key else other).
Proof.
  intros Hsame Hhas. rewrite Hhas.
  destruct (has_value info key) eqn:Hv; [|reflexivity].
  unfold show_metric, subscript. rewrite (Hsame eq_refl). reflexivity.
Qed.

Lemma has_value_delete_none (info : gmap string pyvalue) (k key : string) :
  info !! k = Some VNone →
  has_value (delete k info) key = has_value info key.
Proof.
  intros Hk. unfold has_value. destruct (decide (k = key)) as [<-|Hne].
  - rewrite lookup_delete_eq, Hk. reflexivity.
  - rewrite lookup_delete_ne by exact Hne. reflexivity.
Qed.

Lemma guarded_metric_delete (info : gmap string pyvalue) (k : string)
      (label : string) (f : fmt) (key : string) (other : ui unit) :
  info !! k = Some VNone →
  (if has_value (delete k info) key
   then show_metric label f (delete k info) key else other)
  = (if has_value info key then show_metric label f info key else other).
Proof.
  intros Hk. apply guarded_metric_ext.
  - intros Hv. destruct (decide (k = key)) as [<-|Hne].
    + unfold has_value in Hv. rewrite Hk in Hv. discriminate.
    + apply lookup_delete_ne. exact Hne.
  - apply has_value_delete_none. exact Hk.
Qed.

(** X7: a key of [ticker.info] whose value is [None] is treated as a
    key that is missing: both display functions show the same with the
    key removed. *)
Theorem none_value_same_as_missing_key
        (symbol : string) (info : gmap string pyvalue) (k : string) :
  info !! k = Some VNone →
  display_key_statistics_and_price symbol (Returned (delete k info))
  = display_key_statistics_and_price symbol (Returned info)
  ∧ display_fundamental_analysis symbol (Returned (delete k info))
    = display_fundamental_analysis symbol (Returned info).
Proof.
  intros Hk. split.
  - unfold display_key_statistics_and_price, when, lift.
    cbn [mbind ui_mbind ui_bind].
    rewrite !(guarded_metric_delete info k) by exact Hk. reflexivity.
  - unfold display_fundamental_analysis, when, lift.
    cbn [mbind ui_mbind ui_bind].
    rewrite !(guarded_metric_delete info k) by exact Hk. reflexivity.
Qed.

Lemma has_value_insert_ne (info : gmap string pyvalue) (k key : string)
      (v : pyvalue) :
  k ≠ key → has_value (<[k := v]> info) key = has_value info key.
Proof.
  intros Hne. unfold has_value. rewrite lookup_insert_ne by exact Hne.
  reflexivity.
Qed.

Lemma guarded_metric_insert_ne (info : gmap string pyvalue) (k : string)
      (v : pyvalue) (label : string) (f : fmt) (key : string)
      (other : ui unit) :
  k ≠ key →
  (if has_value (<[k := v]> info) key
   then show_metric label f (<[k := v]> info) key else other)
  = (if has_value info key then show_metric label f info key else other).
Proof.
  intros Hne. apply guarded_metric_ext.
  - intros _. apply lookup_insert_ne. exact Hne.
  - apply has_value_insert_ne. exact Hne.
Qed.

(** X8: a fallback key is not read when the key it stands in for has a
    value: [regularMarketPrice] when [currentPrice] has one, [forwardPE]
    when [trailingPE] has one, [forwardEPS] when [trailingEPS] has one.
    Whatever the fallback holds, what is shown is the same. *)
Theorem fallback_key_not_read_when_primary_has_value
        (symbol : string) (info : gmap string pyvalue) (v : pyvalue) :
  (has_value info "currentPrice" = true →
   display_key_statistics_and_price
     symbol (Returned (<["regularMarketPrice" := v]> info))
   = display_key_statistics_and_price symbol (Returned info))
  ∧ (has_value info "trailingPE" = true →
     display_fundamental_analysis symbol (Returned (<["forwardPE" := v]> info))
     = display_fundamental_analysis symbol (Returned info))
  ∧ (has_value info "trailingEPS" = true →
     display_fundamental_analysis symbol (Returned (<["forwardEPS" := v]> info))
     = display_fundamental_analysis symbol (Returned info)).
Proof.
  split; [|split]; intros Hprimary.
  - unfold display_key_statistics_and_price, when, lift.
    cbn [mbind ui_mbind ui_bind].
    rewrite (guarded_metric_insert_ne info _ v _ _ "marketCap") by done.
    rewrite (guarded_metric_insert_ne info _ v _ _ "fiftyTwoWeekHigh") by done.
    rewrite (guarded_metric_insert_ne info _ v _ _ "fiftyTwoWeekLow") by done.
    rewrite (guarded_metric_insert_ne info _ v _ _ "averageVolume") by done.
    rewrite (guarded_metric_insert_ne info _ v _ _ "currentPrice") by done.
    rewrite Hprimary. reflexivity.
  - unfold display_fundamental_analysis, when, lift.
    cbn [mbind ui_mbind ui_bind].
    rewrite (guarded_metric_insert_ne info _ v _ _ "trailingPE") by done.
    rewrite (guarded_metric_insert_ne info _ v _ _ "trailingEPS") by done.
    rewrite (guarded_metric_insert_ne info _ v _ _ "forwardEPS") by done.
    rewrite (guarded_metric_insert_ne info _ v _ _ "dividendYield") by done.
    rewrite (guarded_metric_insert_ne info _ v _ _ "totalAssets") by done.
    rewrite (guarded_metric_insert_ne info _ v _ _ "totalLiabilities") by done.
    rewrite (guarded_metric_insert_ne info _ v _ _ "totalStockholderEquity")
      by done.
    rewrite (guarded_metric_insert_ne info _ v _ _ "revenue") by done.
    rewrite (guarded_metric_insert_ne info _ v _ _ "grossProfits") by done.
    rewrite (guarded_metric_insert_ne info _ v _ _ "netIncomeToCommon") by done.
    rewrite Hprimary. reflexivity.
  - unfold display_fundamental_analysis, when, lift.
    cbn [mbind ui_mbind ui_bind].
    rewrite (guarded_metric_insert_ne info _ v _ _ "trailingPE") by done.
    rewrite (guarded_metric_insert_ne info _ v _ _ "forwardPE") by done.
    rewrite (guarded_metric_insert_ne info _ v _ _ "trailingEPS") by done.
    rewrite (guarded_metric_insert_ne info _ v _ _ "dividendYield") by done.
    rewrite (guarded_metric_insert_ne info _ v _ _ "totalAssets") by done.
    rewrite (guarded_metric_insert_ne info _ v _ _ "totalLiabilities") by done.
    rewrite (guarded_metric_insert_ne info _ v _ _ "totalStockholderEquity")
      by done.
    rewrite (guarded_metric_insert_ne info _ v _ _ "revenue") by done.
    rewrite (guarded_metric_insert_ne info _ v _ _ "grossProfits") by done.
    rewrite (guarded_metric_insert_ne info _ v _ _ "netIncomeToCommon") by done.
    rewrite Hprimary. reflexivity.
Qed.

(** *** Failures stay inside the display functions *)

Lemma calm_settled (n : nat) (m : ui unit) : calm n m → settled n m.
Proof.
  intros [Hq Hn]. exists m.1, []. rewrite app_nil_r. repeat split; auto.
Qed.

Lemma calm_then_settled (a b : nat) (m k : ui unit) :
  calm a m → settled b k → settled (a + b) (m ;; k).
Proof.
  intros [Hq Ha] (shown & last & Hlog & Hs & Hb & Hlast).
  unfold settled. rewrite ui_bind_log, ui_bind_res.
  destruct m as [log [[]|e]]; cbn in *.
  - exists (log ++ shown), last. rewrite Hlog, app_assoc.
    split; [reflexivity|]. split; [apply Forall_app; split; assumption|].
    split; [rewrite length_app; lia | exact Hlast].
  - exists log, []. repeat split; auto. lia.
Qed.

Lemma calm_show_metric (label : string) (f : fmt)
      (info : gmap string pyvalue) (key : string) :
  calm 1 (show_metric label f info key).
Proof.
  unfold show_metric, subscript, calm.
  destruct (info !! key) as [[| |]|]; cbn; repeat constructor.
Qed.

Lemma calm_when (b : bool) (m : ui unit) : calm 1 m → calm 1 (when b m).
Proof.
  intros H. destruct b; [exact H|]. split; cbn; [constructor | lia].
Qed.

Lemma calm_or_info (b : bool) (m : ui unit) (text : string) :
  calm 1 m → calm 1 (if b then m else emit (Info text)).
Proof.
  intros H. destruct b; [exact H|]. split; cbn; [repeat constructor | lia].
Qed.

Lemma settled_or_warning (b : bool) (m : ui unit) (text : string) :
  settled 1 m → settled 1 (if b then m else emit (Warning text None)).
Proof.
  intros H. destruct b; [exact H|].
  exists [], [Warning text None]. repeat split; cbn; auto.
  right. split; [eauto | reflexivity].
Qed.

Lemma try_except_settled (n : nat) (body : ui unit) (text : string) :
  settled n body →
  ∃ shown last,
    try_except body (fun e => emit (Warning text (Some e)))
    = (shown ++ last, Returned tt)
    ∧ Forall (fun e => quiet e = true) shown ∧ (length shown ≤ n)%nat
    ∧ (last = [] ∨ ∃ t c, last = [Warning t c]).
Proof.
  intros (shown & last & Hlog & Hs & Hn & Hlast).
  destruct body as [log [[]|e]]; cbn in *; subst log.
  - exists shown, last. repeat split; auto.
    destruct Hlast as [-> | [Hw _]]; auto.
  - destruct Hlast as [-> | [_ Hr]]; [|discriminate].
    exists shown, [Warning text (Some e)]. rewrite app_nil_r.
    repeat split; eauto.
Qed.

Lemma lift_bind_returned {A B : Type} (a : A) (f : A → ui B) :
  lift (Returned a) ≫= f = f a.
Proof. unfold lift. cbn. destruct (f a). reflexivity. Qed.

Lemma emit_then (e : event) (m : ui unit) : (emit e;; m) = (e :: m.1, m.2).
Proof. destruct m. reflexivity. Qed.

Lemma display_key_statistics_shape
      (symbol : string) (ticker_info : outcome (gmap string pyvalue)) :
  ∃ shown last,
    display_key_statistics_and_price symbol ticker_info
    = (Write ("**" ++ symbol ++ "**") :: shown ++ last, Returned tt)
    ∧ Forall (fun e => quiet e = true) shown ∧ (length shown ≤ 5)%nat
    ∧ (last = [] ∨ ∃ t c, last = [Warning t c]).
Proof.
  unfold display_key_statistics_and_price. rewrite emit_then.
  match goal with
  | |- context [try_except ?body (fun e => emit (Warning ?text (Some e)))] =>
      destruct (try_except_settled 5 body text)
        as (shown & last & Heq & Hq & Hn & Hlast)
  end.
  { destruct ticker_info as [info|e].
    - rewrite lift_bind_returned.
      apply (calm_then_settled 1 4); [apply calm_when, calm_show_metric|].
      apply (calm_then_settled 1 3); [apply calm_when, calm_show_metric|].
      apply (calm_then_settled 1 2); [apply calm_when, calm_show_metric|].
      apply (calm_then_settled 1 1); [apply calm_when, calm_show_metric|].
      destruct (has_value info "currentPrice");
        [apply calm_settled, calm_show_metric|].
      apply settled_or_warning, calm_settled, calm_show_metric.
    - exists [], []. cbn. repeat split; auto. lia. }
  exists shown, last. rewrite Heq. repeat split; assumption.
Qed.

Lemma display_fundamental_shape
      (symbol : string) (ticker_info : outcome (gmap string pyvalue)) :
  ∃ shown last,
    display_fundamental_analysis symbol ticker_info
    = (Write ("**" ++ symbol ++ "**") :: shown ++ last, Returned tt)
    ∧ Forall (fun e => quiet e = true) shown ∧ (length shown ≤ 9)%nat
    ∧ (last = [] ∨ ∃ t c, last = [Warning t c]).
Proof.
  unfold display_fundamental_analysis. rewrite emit_then.
  match goal with
  | |- context [try_except ?body (fun e => emit (Warning ?text (Some e)))] =>
      destruct (try_except_settled 9 body text)
        as (shown & last & Heq & Hq & Hn & Hlast)
  end.
  { destruct ticker_info as [info|e].
    - rewrite lift_bind_returned.
      apply (calm_then_settled 1 8).
      { destruct (has_value info "trailingPE"); [apply calm_show_metric|].
        apply calm_or_info, calm_show_metric. }
      apply (calm_then_settled 1 7).
      { destruct (has_value info "trailingEPS"); [apply calm_show_metric|].
        apply calm_or_info, calm_show_metric. }
      apply (calm_then_settled 1 6); [apply calm_or_info, calm_show_metric|].
      apply (calm_then_settled 1 5); [apply calm_when, calm_show_metric|].
      apply (calm_then_settled 1 4); [apply calm_when, calm_show_metric|].
      apply (calm_then_settled 1 3); [apply calm_or_info, calm_show_metric|].
      apply (calm_then_settled 1 2); [apply calm_when, calm_show_metric|].
      apply (calm_then_settled 1 1); [apply calm_when, calm_show_metric|].
      apply calm_settled, calm_or_info, calm_show_metric.
    - exists [], []. cbn. repeat split; auto. lia. }
  exists shown, last. rewrite Heq. repeat split; assumption.
Qed.

(** X9: the display functions never raise.  After the header line they
    show metrics and notes, at most five for the statistics and nine for
    the fundamentals, then at most one warning, which comes last; when
    the provider fails, the header and the warning are all they show. *)
Theorem display_functions_contain_failures
        (symbol : string) (ticker_info : outcome (gmap string pyvalue)) :
  (∃ shown last,
     display_key_statistics_and_price symbol ticker_info
     = (Write ("**" ++ symbol ++ "**") :: shown ++ last, Returned tt)
     ∧ Forall (fun e => quiet e = true) shown ∧ (length shown ≤ 5)%nat
     ∧ (last = [] ∨ ∃ t c, last = [Warning t c]))
  ∧ (∃ shown last,
       display_fundamental_analysis symbol ticker_info
       = (Write ("**" ++ symbol ++ "**") :: shown ++ last, Returned tt)
       ∧ Forall (fun e => quiet e = true) shown ∧ (length shown ≤ 9)%nat
       ∧ (last = [] ∨ ∃ t c, last = [Warning t c]))
  ∧ (∀ e, ticker_info = Raised e →
       display_key_statistics_and_price symbol ticker_info
       = ([Write ("**" ++ symbol ++ "**");
           Warning ("Could not retrieve financial statistics for "
                    ++ symbol ++ ": ") (Some e)], Returned tt)
       ∧ display_fundamental_analysis symbol ticker_info
         = ([Write ("**" ++ symbol ++ "**");
             Warning ("Could not retrieve fundamental analysis data for "
                      ++ symbol ++ ": ") (Some e)], Returned tt)).
Proof.
  split; [apply display_key_statistics_shape|].
  split; [apply display_fundamental_shape|].
  intros e ->. split; reflexivity.
Qed.

(** *** The notes of the balance sheet and of the income statement *)

Lemma elem_of_then (e : event) (m k : ui unit) :
  m.2 = Returned tt → e ∈ (m;; k).1 ↔ e ∈ m.1 ∨ e ∈ k.1.
Proof.
  intros Hr. rewrite ui_bind_log, Hr. apply elem_of_app.
Qed.

Lemma then_returns (m k : ui unit) :
  m.2 = Returned tt → k.2 = Returned tt → (m;; k).2 = Returned tt.
Proof. intros Hm Hk. rewrite ui_bind_res, Hm. exact Hk. Qed.

Lemma try_except_returned (m : ui unit) (handler : exn → ui unit) :
  m.2 = Returned tt → try_except m handler = m.
Proof. destruct m as [log r]. cbn. intros ->. reflexivity. Qed.

Section Numeric.

Variable info : gmap string pyvalue.
Hypothesis numeric : ∀ k v, info !! k = Some v → numeric_or_none v = true.

Lemma guarded_returns (label : string) (f : fmt) (key : string)
      (other : ui unit) :
  other.2 = Returned tt →
  (if has_value info key then show_metric label f info key else other).2
  = Returned tt.
Proof using numeric.
  intros Ho. unfold has_value, show_metric, subscript.
  destruct (info !! key) as [v|] eqn:Hv; [|exact Ho].
  specialize (numeric _ _ Hv). destruct v; [exact Ho|reflexivity|discriminate].
Qed.

End Numeric.

Lemma info_in_guarded (text : string) (info : gmap string pyvalue)
      (label : string) (f : fmt) (key : string) (other : ui unit) :
  Info text ∈ (if has_value info key
               then show_metric label f info key else other).1
  ↔ has_value info key = false ∧ Info text ∈ other.1.
Proof.
  destruct (has_value info key); [|tauto].
  split; [|intros [? _]; discriminate].
  unfold show_metric, subscript.
  destruct (info !! key) as [[| |]|]; cbn; intros Hin;
    try (apply elem_of_nil in Hin; contradiction).
  apply list_elem_of_singleton in Hin. discriminate.
Qed.

Ltac solve_returns numeric :=
  repeat first
    [ reflexivity
    | apply then_returns
    | apply (guarded_returns _ numeric) ].

Ltac close_case :=
  first
    [ assumption
    | contradiction
    | discriminate
    | match goal with
      | H : Info _ = Info _ |- _ => cbn in H; congruence
      end ].

(** X10: with numeric values, the note on limited balance-sheet
    information is shown exactly when [totalStockholderEquity] has no
    value, and the note on the limited income statement exactly when
    [netIncomeToCommon] has none: each [else] belongs to the last [if] of
    its group, whatever the other keys of the group hold. *)
Theorem limited_notes_follow_last_key_only
        (symbol : string) (info : gmap string pyvalue) :
  (∀ k v, info !! k = Some v → numeric_or_none v = true) →
  let shown := (display_fundamental_analysis symbol (Returned info)).1 in
  (Info ("Limited Balance Sheet information available for " ++ symbol ++ ".")
     ∈ shown
   ↔ has_value info "totalStockholderEquity" = false)
  ∧ (Info ("Limited Income Statement information available for "
           ++ symbol ++ ".") ∈ shown
     ↔ has_value info "netIncomeToCommon" = false).
Proof.
  intros numeric. cbn zeta.
  unfold display_fundamental_analysis. rewrite emit_then, lift_bind_returned.
  unfold when. rewrite try_except_returned by solve_returns numeric.
  cbn [fst].
  split.
  - rewrite elem_of_cons.
    repeat (rewrite elem_of_then by solve_returns numeric).
    rewrite !info_in_guarded. cbn [fst emit mret ui_mret ui_ret].
    rewrite !list_elem_of_singleton, !elem_of_nil.
    split.
    + intros H. decompose [or and] H; clear H; close_case.
    + intros H. do 6 right. left. split; [exact H | reflexivity].
  - rewrite elem_of_cons.
    repeat (rewrite elem_of_then by solve_returns numeric).
    rewrite !info_in_guarded. cbn [fst emit mret ui_mret ui_ret].
    rewrite !list_elem_of_singleton, !elem_of_nil.
    split.
    + intros H. decompose [or and] H; clear H; close_case.
    + intros H. do 9 right. split; [exact H | reflexivity].
Qed.

(** ** Charts *)

Lemma chart_one_of_columns (symbol : string) (data : DataFrame)
      (sma20 sma50 rsi_col macd_col signal middle upper lower : Series) :
  empty data = false →
  columns data !! "SMA_20" = Some sma20 →
  columns data !! "SMA_50" = Some sma50 →
  columns data !! "RSI" = Some rsi_col →
  columns data !! "MACD" = Some macd_col →
  columns data !! "Signal_Line" = Some signal →
  columns data !! "Middle_Band" = Some middle →
  columns data !! "Upper_Band" = Some upper →
  columns data !! "Lower_Band" = Some lower →
  chart_one symbol (Some data)
  = ([Write ("**" ++ symbol ++ "**");
      PlotlyChart
        (mkFigure
           [Candlestick (index data)
              ((fun b => Fin (open b)) <$> bars data)
              ((fun b => Fin (high b)) <$> bars data)
              ((fun b => Fin (low b)) <$> bars data)
              ((fun b => Fin (close b)) <$> bars data) "Candlestick";
            Scatter (index data) ((fun b => Fin (close b)) <$> bars data)
                    "Close Price" None false;
            Scatter (index data) sma20 "SMA 20" None false;
            Scatter (index data) sma50 "SMA 50" None false;
            Scatter (index data) rsi_col "RSI" (Some "y2") false;
            Scatter (index data) macd_col "MACD" (Some "y3") false;
            Scatter (index data) signal "Signal Line" (Some "y3") false;
            Scatter (index data) middle "Middle Band" None true;
            Scatter (index data) upper "Upper Band" None true;
            Scatter (index data) lower "Lower Band" None true;
            BarTrace (index data) ((fun b => Fin (volume b)) <$> bars data)
                     "Volume" "y4"]
           ("Historical Stock Price Analysis for " ++ symbol))],
     Returned tt).
Proof.
  intros He H1 H2 H3 H4 H5 H6 H7 H8.
  unfold chart_one. rewrite He. cbn [negb].
  unfold chart_figure, add_line, has_column, column, getitem.
  cbn [String.eqb Ascii.eqb Bool.eqb].
  rewrite H1, H2, H3, H4, H5, H6, H7, H8. reflexivity.
Qed.

Lemma chart_one_empty (symbol : string) (data : DataFrame) :
  empty data = true →
  chart_one symbol (Some data)
  = ([Write ("**" ++ symbol ++ "**");
      Info ("No historical data available to display charts for "
            ++ symbol ++ ".")], Returned tt).
Proof. intros He. unfold chart_one. rewrite He. reflexivity. Qed.

Ltac in_names :=
  unfold indicator_names;
  repeat first [ apply list_elem_of_here | apply list_elem_of_further ].

(** X11: the chart of a frame the engine returned with rows has eleven
    traces, in this order, each with one point per row; the columns
    EMA_12, EMA_26 and Volume_SMA_20 are computed and not drawn.  For a
    frame returned without rows a note is shown in place of the chart. *)
Theorem chart_of_engine_result
        (sqrt : Qc → Qc) (h : gmap nat DataFrame) (l : nat) (bs : list Bar)
        (symbol : string) :
  h !! l = Some (from_bars bs) →
  ∃ out,
    calculate_technical_indicators sqrt (PyRef l) h
    = Some (PyRef l, <[l := out]> h)
    ∧ (bars out = [] →
       chart_one symbol (Some out)
       = ([Write ("**" ++ symbol ++ "**");
           Info ("No historical data available to display charts for "
                 ++ symbol ++ ".")], Returned tt))
    ∧ (bars out ≠ [] →
       ∃ fig,
         chart_one symbol (Some out)
         = ([Write ("**" ++ symbol ++ "**"); PlotlyChart fig], Returned tt)
         ∧ trace_name <$> traces fig
           = ["Candlestick"; "Close Price"; "SMA 20"; "SMA 50"; "RSI";
              "MACD"; "Signal Line"; "Middle Band"; "Upper Band";
              "Lower Band"; "Volume"]
         ∧ Forall (trace_points (length (bars out))) (traces fig)).
Proof.
  intros Hl.
  destruct (calculate_fresh sqrt h l bs Hl) as (out & Hcall & Hbars & Hne & He).
  exists out. split; [exact Hcall|]. split.
  - intros Hnil. apply chart_one_empty. unfold empty. rewrite Hnil. reflexivity.
  - intros Hrows.
    assert (Hbs : bs ≠ []).
    { intros ->. apply Hrows. rewrite Hbars. apply select_nil_r. }
    specialize (Hne Hbs).
    assert (Hcol : ∀ name, name ∈ indicator_names →
              ∃ s, columns out !! name = Some s
                   ∧ length s = length (bars out)).
    { intros name Hin.
      assert (Hs : is_Some (columns out !! name)).
      { apply elem_of_dom. rewrite Hne, dropna_dom, attached_fresh_dom.
        apply elem_of_list_to_set. exact Hin. }
      destruct Hs as [s Hs]. exists s. split; [exact Hs|].
      rewrite Hne in Hs |- *. exact (proj1 (dropna_fresh_dense sqrt bs name s Hs)). }
    destruct (Hcol "SMA_20") as (s1 & H1 & L1); [in_names|].
    destruct (Hcol "SMA_50") as (s2 & H2 & L2); [in_names|].
    destruct (Hcol "RSI") as (s3 & H3 & L3); [in_names|].
    destruct (Hcol "MACD") as (s4 & H4 & L4); [in_names|].
    destruct (Hcol "Signal_Line") as (s5 & H5 & L5); [in_names|].
    destruct (Hcol "Middle_Band") as (s6 & H6 & L6); [in_names|].
    destruct (Hcol "Upper_Band") as (s7 & H7 & L7); [in_names|].
    destruct (Hcol "Lower_Band") as (s8 & H8 & L8); [in_names|].
    eexists. split.
    + apply (chart_one_of_columns symbol out s1 s2 s3 s4 s5 s6 s7 s8);
        try assumption.
      unfold empty. destruct (bars out); [destruct (Hrows eq_refl)|reflexivity].
    + split; [reflexivity|]. cbn [traces].
      repeat constructor; unfold index; rewrite ?length_fmap; auto.
Qed.

(** X12: for a history of fewer than fifty bars the engine leaves no
    row, and [generate_charts] shows the note that no historical data is
    available and no chart. *)
Theorem short_history_shows_no_chart
        (sqrt : Qc → Qc) (h : gmap nat DataFrame) (l : nat) (bs : list Bar)
        (symbol : string) :
  h !! l = Some (from_bars bs) →
  (length bs < 50)%nat →
  ∃ out,
    calculate_technical_indicators sqrt (PyRef l) h
    = Some (PyRef l, <[l := out]> h)
    ∧ generate_charts [(symbol, Some out)]
      = ([Subheader "Historical Price Trends and Technical Indicators";
          Write ("**" ++ symbol ++ "**");
          Info ("No historical data available to display charts for "
                ++ symbol ++ ".")], Returned tt).
Proof.
  intros Hl Hshort.
  destruct (calculate_fresh sqrt h l bs Hl) as (out & Hcall & Hbars & Hne & He).
  exists out. split; [exact Hcall|].
  unfold generate_charts, for_each. cbn [fst snd].
  rewrite chart_one_empty; [reflexivity|].
  unfold empty. destruct bs as [|b bs].
  - rewrite (He eq_refl). reflexivity.
  - rewrite (Hne ltac:(discriminate)), dropna_fresh_short by exact Hshort.
    reflexivity.
Qed.

(** ** Fetching *)

Lemma fetch_cases (symbol period : string) (answer : outcome DataFrame)
      (h : gmap nat DataFrame) :
  (∃ message,
     fetch_historical_data symbol period answer h = ([message], (PyNone, h))
     ∧ quiet message = false
     ∧ (∀ df, answer = Returned df → empty df = true))
  ∨ (∃ l df,
       fetch_historical_data symbol period answer h
       = ([], (PyRef l, <[l := df]> h))
       ∧ answer = Returned df ∧ empty df = false ∧ h !! l = None).
Proof.
  unfold fetch_historical_data. destruct answer as [df|e].
  - destruct (empty df) eqn:He.
    + left. eexists. split; [reflexivity|]. split; [reflexivity|].
      intros df' [= <-]. exact He.
    + right. exists (fresh (dom h)), df. repeat split; try assumption.
      apply not_elem_of_dom. apply is_fresh.
  - left. eexists. split; [reflexivity|]. split; [reflexivity|]. discriminate.
Qed.

(** ** The symbols typed in *)

Lemma split_comma_length (s : list ascii) :
  length (split_comma s) = S (length (filter (fun c => is_comma c = true) s)).
Proof.
  induction s as [|c s IH]; [reflexivity|].
  cbn [split_comma]. rewrite filter_cons.
  change (Ascii.eqb c ",") with (is_comma c).
  destruct (decide (is_comma c = true)) as [Hc|Hc].
  - rewrite Hc. cbn. rewrite IH. reflexivity.
  - apply not_true_is_false in Hc. rewrite Hc.
    destruct (split_comma s) as [|w ws]; [discriminate|]. exact IH.
Qed.

Lemma split_comma_no_comma (s : list ascii) :
  Forall (Forall (fun c => is_comma c = false)) (split_comma s).
Proof.
  induction s as [|c s IH]; [repeat constructor|].
  cbn [split_comma]. destruct (Ascii.eqb c ",") eqn:Hc.
  - constructor; [constructor | exact IH].
  - destruct (split_comma s) as [|w ws]; [repeat constructor; exact Hc|].
    inversion IH as [|? ? Hw Hws]; subst.
    constructor; [constructor; assumption | assumption].
Qed.

Lemma lstrip_Forall (P : ascii → Prop) (s : list ascii) :
  Forall P s → Forall P (lstrip s).
Proof.
  induction 1 as [|c s Hc Hs IH]; [constructor|].
  cbn. destruct (is_space c); [exact IH | constructor; assumption].
Qed.

Lemma strip_Forall (P : ascii → Prop) (s : list ascii) :
  Forall P s → Forall P (strip s).
Proof.
  intros H. unfold strip.
  apply Forall_reverse, lstrip_Forall, Forall_reverse, lstrip_Forall, H.
Qed.

Lemma lstrip_head (s : list ascii) (c : ascii) :
  head (lstrip s) = Some c → is_space c = false.
Proof.
  induction s as [|x s IH]; [discriminate|]. cbn.
  destruct (is_space x) eqn:Hx; [exact IH|]. cbn. intros [= <-]. exact Hx.
Qed.

Lemma lstrip_last (s : list ascii) (c : ascii) :
  last (lstrip s) = Some c → last s = Some c.
Proof.
  induction s as [|x s IH]; [discriminate|]. cbn [lstrip].
  destruct (is_space x); [|auto]. intros H. specialize (IH H).
  destruct s; [discriminate|]. exact IH.
Qed.

Lemma strip_ends (s : list ascii) (c : ascii) :
  (head (strip s) = Some c → is_space c = false)
  ∧ (last (strip s) = Some c → is_space c = false).
Proof.
  unfold strip. split.
  - rewrite head_reverse. intros H. apply lstrip_last in H.
    rewrite last_reverse in H. exact (lstrip_head _ _ H).
  - rewrite last_reverse. apply lstrip_head.
Qed.

Lemma upper_char_spec (c : ascii) :
  is_lower (upper_char c) = false
  ∧ (is_comma c = false → is_comma (upper_char c) = false)
  ∧ (is_space c = false → is_space (upper_char c) = false).
Proof.
  destruct c as [[] [] [] [] [] [] [] []]; vm_compute; repeat split; congruence.
Qed.

Lemma upper_head (s : list ascii) : head (upper s) = upper_char <$> head s.
Proof. destruct s; reflexivity. Qed.

Lemma upper_last (s : list ascii) : last (upper s) = upper_char <$> last s.
Proof. unfold upper. apply fmap_last. Qed.

Lemma normalised_word (w : list ascii) :
  Forall (fun c => is_comma c = false) w →
  Forall (fun c => is_comma c = false ∧ is_lower c = false) (upper (strip w))
  ∧ (∀ c, head (upper (strip w)) = Some c → is_space c = false)
  ∧ (∀ c, last (upper (strip w)) = Some c → is_space c = false).
Proof.
  intros Hw. split; [|split].
  - unfold upper. apply Forall_fmap.
    eapply Forall_impl; [apply strip_Forall, Hw|].
    intros c Hc. cbn. destruct (upper_char_spec c) as (H1 & H2 & _). auto.
  - intros c. rewrite upper_head.
    destruct (head (strip w)) as [x|] eqn:Hx; [|discriminate].
    cbn. intros [= <-]. apply upper_char_spec.
    exact (proj1 (strip_ends w x) Hx).
  - intros c. rewrite upper_last.
    destruct (last (strip w)) as [x|] eqn:Hx; [|discriminate].
    cbn. intros [= <-]. apply upper_char_spec.
    exact (proj2 (strip_ends w x) Hx).
Qed.

(** X14: the symbols read from the text box.  There is one symbol more
    than there are commas in the text, so the list is never empty; no
    symbol holds a comma or a lower-case letter, and none starts or ends
    with white space. *)
Theorem parsed_symbols_are_normalised (text : string) :
  ascii_text text →
  length (parse_symbols text)
  = S (length (filter (fun c => is_comma c = true)
                      (String.list_ascii_of_string text)))
  ∧ ∀ symbol, symbol ∈ parse_symbols text →
      let cs := String.list_ascii_of_string symbol in
      Forall (fun c => is_comma c = false ∧ is_lower c = false) cs
      ∧ (∀ c, head cs = Some c → is_space c = false)
      ∧ (∀ c, last cs = Some c → is_space c = false).
Proof.
  intros _. unfold parse_symbols. split.
  - rewrite length_fmap. apply split_comma_length.
  - intros symbol Hin. apply list_elem_of_fmap in Hin as (w & -> & Hw).
    cbn zeta. rewrite String.list_ascii_of_string_of_list_ascii.
    apply normalised_word.
    pose proof (split_comma_no_comma (String.list_ascii_of_string text)) as Hall.
    rewrite Forall_forall in Hall. exact (Hall _ Hw).
Qed.

(** ** The script *)

(** *** The dictionary *)

Lemma dict_set_elem {V : Type} (k : string) (v : V) (d : list (string * V))
      (s : string) (x : V) :
  (s, x) ∈ dict_set k v d → (s = k ∧ x = v) ∨ (s, x) ∈ d.
Proof.
  induction d as [|[k' v'] d IH]; cbn.
  - intros H. apply list_elem_of_singleton in H. injection H as -> ->. auto.
  - destruct (String.eqb k k') eqn:Hk.
    + apply String.eqb_eq in Hk as ->.
      intros [H | H]%elem_of_cons.
      * injection H as -> ->. auto.
      * right. apply list_elem_of_further. exact H.
    + intros [H | H]%elem_of_cons.
      * right. rewrite H. apply list_elem_of_here.
      * destruct (IH H) as [? | ?]; [auto|].
        right. apply list_elem_of_further. assumption.
Qed.

Lemma dict_set_keys {V : Type} (k : string) (v : V) (d : list (string * V)) :
  (dict_set k v d).*1 = if decide (k ∈ d.*1) then d.*1 else d.*1 ++ [k].
Proof.
  induction d as [|[k' v'] d IH]; cbn.
  - rewrite decide_False by apply not_elem_of_nil. reflexivity.
  - destruct (String.eqb k k') eqn:Hk.
    + apply String.eqb_eq in Hk as ->.
      rewrite decide_True by apply list_elem_of_here. reflexivity.
    + apply String.eqb_neq in Hk. cbn. rewrite IH.
      destruct (decide (k ∈ d.*1)) as [Hin|Hin].
      * rewrite decide_True by (apply list_elem_of_further; exact Hin).
        reflexivity.
      * rewrite decide_False; [reflexivity|].
        intros [H | H]%elem_of_cons; [contradiction | contradiction].
Qed.

Lemma dict_set_key_in {V : Type} (k : string) (v : V) (d : list (string * V))
      (s : string) :
  s ∈ (dict_set k v d).*1 ↔ s = k ∨ s ∈ d.*1.
Proof.
  rewrite dict_set_keys. destruct (decide (k ∈ d.*1)) as [Hin|Hin].
  - split; [auto|]. intros [-> | H]; assumption.
  - rewrite elem_of_app, list_elem_of_singleton. tauto.
Qed.

Lemma dict_set_NoDup_keys {V : Type} (k : string) (v : V)
      (d : list (string * V)) :
  NoDup d.*1 → NoDup (dict_set k v d).*1.
Proof.
  intros Hnd. rewrite dict_set_keys.
  destruct (decide (k ∈ d.*1)) as [Hin|Hin]; [exact Hnd|].
  apply NoDup_app. split; [exact Hnd|]. split.
  - intros x Hx Hk. apply list_elem_of_singleton in Hk as ->. contradiction.
  - apply NoDup_singleton.
Qed.

Lemma dict_set_NoDup_values {V : Type} (k : string) (v : V)
      (d : list (string * V)) :
  NoDup d.*2 → v ∉ d.*2 → NoDup (dict_set k v d).*2.
Proof.
  induction d as [|[k' v'] d IH]; cbn; intros Hnd Hv.
  - apply NoDup_singleton.
  - apply NoDup_cons in Hnd as [Hv' Hnd].
    apply not_elem_of_cons in Hv as [Hne Hv].
    destruct (String.eqb k k'); cbn.
    + apply NoDup_cons. split; assumption.
    + apply NoDup_cons. split; [|apply IH; assumption].
      intros Hin. apply list_elem_of_fmap in Hin as ([s x] & Hx & Hin).
      cbn in Hx. subst x. apply dict_set_elem in Hin as [[_ ->] | Hin];
        [congruence|].
      apply Hv'. apply list_elem_of_fmap. exists (s, v'). auto.
Qed.

Lemma dict_set_same {V : Type} (k : string) (v : V) (d : list (string * V)) :
  NoDup d.*1 → (k, v) ∈ d → dict_set k v d = d.
Proof.
  induction d as [|[k' v'] d IH]; cbn; intros Hnd Hin.
  - apply elem_of_nil in Hin. contradiction.
  - apply NoDup_cons in Hnd as [Hk' Hnd].
    destruct (String.eqb k k') eqn:Hk.
    + apply String.eqb_eq in Hk as ->.
      apply elem_of_cons in Hin as [H | H]; [congruence|].
      destruct Hk'. apply list_elem_of_fmap. exists (k', v). auto.
    + apply String.eqb_neq in Hk.
      apply elem_of_cons in Hin as [H | H]; [congruence|].
      rewrite IH by assumption. reflexivity.
Qed.

(** *** The loop over the frames *)

Section Script.

Variable sqrt : Qc → Qc.

Lemma indicators_all_spec (items d : list (string * pyval))
      (h : gmap nat DataFrame) :
  NoDup d.*1 → NoDup items.*2 →
  (∀ item, item ∈ items → item ∈ d) →
  (∀ item, item ∈ items → references_rows h item.2) →
  ∃ h',
    indicators_all sqrt items d h = Some (d, h')
    ∧ (∀ s l df, (s, PyRef l) ∈ items → h !! l = Some df →
         h' !! l = Some (dropna (attached sqrt df)))
    ∧ (∀ l, PyRef l ∉ items.*2 → h' !! l = h !! l).
Proof.
  intros Hkeys. revert h.
  induction items as [|[s v] items IH]; intros h Hvals Hsub Hrows.
  - exists h. repeat split; auto. intros s l df Hin.
    apply elem_of_nil in Hin. contradiction.
  - cbn in Hvals. apply NoDup_cons in Hvals as [Hv Hvals].
    destruct (Hrows (s, v) (list_elem_of_here _ _)) as (l & df & Hv0 & Hl & He).
    cbn in Hv0. subst v. cbn [indicators_all].
    rewrite (calculate_nonempty sqrt h l df Hl He). cbn [mbind option_bind fst snd].
    rewrite dict_set_same; [|exact Hkeys|apply Hsub, list_elem_of_here].
    destruct (IH (<[l := dropna (attached sqrt df)]> h) Hvals) as (h' & Hrun & Hdone & Hrest).
    { intros item Hin. apply Hsub, list_elem_of_further, Hin. }
    { intros [s' v'] Hin.
      destruct (Hrows (s', v') (list_elem_of_further _ _ _ Hin))
        as (l' & df' & Hv' & Hl' & He').
      cbn in Hv'. subst v'. exists l', df'. split; [reflexivity|].
      split; [|exact He']. rewrite lookup_insert_ne; [exact Hl'|].
      intros <-. apply Hv. apply list_elem_of_fmap. exists (s', PyRef l). auto. }
    exists h'. split; [exact Hrun|]. split.
    + intros s' l' df' Hin Hl'. apply elem_of_cons in Hin as [Heq | Hin].
      * injection Heq as -> ->. rewrite Hrest; [|exact Hv].
        rewrite lookup_insert_eq. rewrite Hl in Hl'. injection Hl' as <-.
        reflexivity.
      * apply (Hdone s'); [exact Hin|]. rewrite lookup_insert_ne; [exact Hl'|].
        intros <-. apply Hv. apply list_elem_of_fmap. exists (s', PyRef l). auto.
    + intros l' Hnot. apply not_elem_of_cons in Hnot as [Hne Hnot].
      cbn in Hne. rewrite (Hrest l' Hnot). apply lookup_insert_ne. congruence.
Qed.

End Script.

(** *** What is shown never raises *)

Lemma for_each_returns {A : Type} (f : A → ui unit) (l : list A) :
  (∀ x, (f x).2 = Returned tt) → (for_each f l).2 = Returned tt.
Proof.
  intros Hf. induction l as [|x l IH]; [reflexivity|].
  cbn [for_each]. apply then_returns; [apply Hf | exact IH].
Qed.

Lemma add_line_returns (col name : string) (yaxis : option string)
      (dashed : bool) (data : DataFrame) (fig : list trace) :
  ∃ fig', add_line col name yaxis dashed data fig = ([], Returned fig').
Proof.
  unfold add_line, has_column, column.
  destruct (getitem col data); eexists; reflexivity.
Qed.

Lemma bind_returns_pure {A B : Type} (m : ui A) (f : A → ui B) :
  (∃ a, m = ([], Returned a)) →
  (∀ a, ∃ b, f a = ([], Returned b)) →
  ∃ b, m ≫= f = ([], Returned b).
Proof.
  intros [a ->] Hf. destruct (Hf a) as [b Hb]. exists b.
  cbn. rewrite Hb. reflexivity.
Qed.

Lemma chart_figure_returns (symbol : string) (data : DataFrame) :
  ∃ fig, chart_figure symbol data = ([], Returned fig).
Proof.
  unfold chart_figure.
  repeat (apply bind_returns_pure;
          [ first
              [ apply add_line_returns
              | unfold has_column, column, getitem;
                cbn [String.eqb Ascii.eqb Bool.eqb];
                eexists; reflexivity ]
          | intros ?; cbn zeta ]).
  eexists. reflexivity.
Qed.

Lemma chart_one_returns (symbol : string) (data : option DataFrame) :
  (chart_one symbol data).2 = Returned tt.
Proof.
  unfold chart_one. rewrite emit_then. cbn [snd].
  destruct data as [df|]; [|reflexivity].
  destruct (empty df); [reflexivity|]. cbn [negb].
  destruct (chart_figure_returns symbol df) as [fig ->]. reflexivity.
Qed.

Lemma generate_charts_returns (items : list (string * option DataFrame)) :
  (generate_charts items).2 = Returned tt.
Proof.
  unfold generate_charts. destruct items as [|item items]; [reflexivity|].
  rewrite emit_then. cbn [snd]. apply for_each_returns.
  intros x. apply chart_one_returns.
Qed.

Lemma display_all_returns (p : provider) (d : list (string * pyval))
      (h : gmap nat DataFrame) :
  (display_all p d h).2 = Returned tt.
Proof.
  unfold display_all. destruct d as [|item d]; [reflexivity|].
  rewrite emit_then. cbn [snd].
  apply then_returns.
  { apply for_each_returns. intros x. unfold show_frame. rewrite emit_then.
    reflexivity. }
  rewrite emit_then. cbn [snd]. apply then_returns.
  { apply for_each_returns. intros x.
    destruct (display_key_statistics_shape x.1 (info_statistics p x.1))
      as (shown & last & -> & _). reflexivity. }
  rewrite emit_then. cbn [snd]. apply then_returns.
  { apply for_each_returns. intros x.
    destruct (display_fundamental_shape x.1 (info_fundamentals p x.1))
      as (shown & last & -> & _). reflexivity. }
  apply generate_charts_returns.
Qed.

(** *** The loop that fetches *)

Section Fetching.

Variables (p : provider) (period : string) (all : list string).

Lemma fetch_all_well_fetched (symbols : list string) (n : nat)
      (d : list (string * pyval)) (h : gmap nat DataFrame) :
  well_fetched p period all d h →
  (∀ i s, symbols !! i = Some s → all !! (n + i)%nat = Some s) →
  ∃ log d' h',
    fetch_all p period n symbols d h = (log, (d', h'))
    ∧ well_fetched p period all d' h'
    ∧ (∀ s, s ∈ d.*1 → s ∈ d'.*1)
    ∧ (∀ i s df, symbols !! i = Some s →
         history p (n + i)%nat s period = Returned df → empty df = false →
         s ∈ d'.*1).
Proof.
  revert n d h. induction symbols as [|s0 rest IH]; intros n d h Hgood Hidx.
  - exists [], d, h. repeat split; auto; try apply Hgood.
    intros i s df Hi. discriminate.
  - cbn [fetch_all].
    assert (Hrest : ∀ i s, rest !! i = Some s → all !! (S n + i)%nat = Some s).
    { intros i s Hi. replace (S n + i)%nat with (n + S i)%nat by lia.
      apply Hidx. exact Hi. }
    destruct (fetch_cases s0 period (history p n s0 period) h)
      as [(message & Heq & _ & He) | (l & df & Heq & Ha & He & Hfresh)];
      rewrite Heq.
    + destruct (IH (S n) d h Hgood Hrest) as (log & d' & h' & Hrun & Hg & Hk & Hs).
      rewrite Hrun. exists ([message] ++ log), d', h'.
      split; [reflexivity|]. split; [exact Hg|]. split; [exact Hk|].
      intros [|i] s df Hi Hh Hne.
      * injection Hi as <-. rewrite Nat.add_0_r in Hh.
        rewrite (He df Hh) in Hne. discriminate.
      * replace (n + S i)%nat with (S n + i)%nat in Hh by lia.
        exact (Hs i s df Hi Hh Hne).
    + destruct Hgood as (Hk1 & Hv1 & Hel).
      assert (Hgood' : well_fetched p period all (dict_set s0 (PyRef l) d)
                                    (<[l := df]> h)).
      { split; [apply dict_set_NoDup_keys, Hk1|]. split.
        - apply dict_set_NoDup_values; [exact Hv1|].
          intros Hin. apply list_elem_of_fmap in Hin as ([s x] & Hx & Hin).
          cbn in Hx. subst x.
          destruct (Hel _ _ Hin) as (l' & df' & [= <-] & Hl' & _). congruence.
        - intros s v Hin. apply dict_set_elem in Hin as [[-> ->] | Hin].
          + exists l, df. split; [reflexivity|].
            split; [apply lookup_insert_eq|].
            exists n. split; [|split; assumption].
            rewrite <- (Nat.add_0_r n). apply Hidx. reflexivity.
          + destruct (Hel _ _ Hin) as (l' & df' & -> & Hl' & Hf).
            exists l', df'. split; [reflexivity|]. split; [|exact Hf].
            rewrite lookup_insert_ne; [exact Hl'|]. congruence. }
      destruct (IH (S n) _ _ Hgood' Hrest)
        as (log & d' & h' & Hrun & Hg & Hk & Hs).
      rewrite Hrun. exists ([] ++ log), d', h'.
      split; [reflexivity|]. split; [exact Hg|]. split.
      * intros s Hin. apply Hk, dict_set_key_in. right. exact Hin.
      * intros [|i] s df' Hi Hh Hne.
        -- injection Hi as <-. apply Hk, dict_set_key_in. left. reflexivity.
        -- replace (n + S i)%nat with (S n + i)%nat in Hh by lia.
           exact (Hs i s df' Hi Hh Hne).
Qed.

End Fetching.

(** X15: one run of the script never ends in an exception.  The keys of
    the dictionary it ends with are distinct; every value refers to the
    engine's result, computed once, on a frame with rows that the
    provider returned for that symbol; and every symbol for which some
    fetch returned a frame with rows is a key. *)
Theorem script_stores_engine_result_of_fetched_data
        (sqrt : Qc → Qc) (p : provider) (text period : string) :
  ∃ log d h,
    run_script sqrt p text period = Some (log, d, h)
    ∧ NoDup d.*1
    ∧ (∀ s v, (s, v) ∈ d →
         ∃ l df m,
           v = PyRef l
           ∧ parse_symbols text !! m = Some s
           ∧ history p m s period = Returned df
           ∧ empty df = false
           ∧ h !! l = Some (dropna (attached sqrt df)))
    ∧ (∀ m s df,
         parse_symbols text !! m = Some s →
         history p m s period = Returned df → empty df = false →
         s ∈ d.*1).
Proof.
  unfold run_script. cbn zeta.
  destruct (fetch_all_well_fetched p period (parse_symbols text)
              (parse_symbols text) 0 [] ∅)
    as (flog & d & h & Hrun & (Hk & Hv & Hel) & _ & Hall).
  { split; [constructor|]. split; [constructor|].
    intros s v Hin. apply elem_of_nil in Hin. contradiction. }
  { intros i s Hi. exact Hi. }
  rewrite Hrun.
  destruct (indicators_all_spec sqrt d d h Hk Hv) as (h' & Hind & Hdone & _).
  { auto. }
  { intros [s v] Hin. destruct (Hel s v Hin) as (l & df & -> & Hl & m & _ & _ & He).
    exists l, df. repeat split; assumption. }
  rewrite Hind. cbn [mbind option_bind fst snd].
  pose proof (display_all_returns p d h') as Hret.
  destruct (display_all p d h') as [log res]. cbn in Hret. subst res.
  eexists _, d, h'. split; [reflexivity|]. split; [exact Hk|]. split.
  - intros s v Hin.
    destruct (Hel s v Hin) as (l & df & -> & Hl & m & Hm & Hh & He).
    exists l, df, m. repeat split; try assumption.
    exact (Hdone s l df Hin Hl).
  - intros m s df Hm Hh He. exact (Hall m s df Hm Hh He).
Qed.

(** ** The properties above on concrete inputs *)

Lemma flat_prices_leave_no_row_witness :
  let h : gmap nat DataFrame := {[ 0%nat := from_bars flat3 ]} in
  h !! 0%nat = Some (from_bars flat3)
  ∧ Forall (fun b => close b = Qc_of_Z 10) flat3
  ∧ ∃ out,
      calculate_technical_indicators sqrt_floor (PyRef 0) h
      = Some (PyRef 0, <[0%nat := out]> h)
      ∧ bars out = [].
Proof.
  cbn zeta.
  assert (Hl : ({[ 0%nat := from_bars flat3 ]} : gmap nat DataFrame) !! 0%nat
               = Some (from_bars flat3)) by reflexivity.
  assert (Hflat : Forall (fun b => close b = Qc_of_Z 10) flat3)
    by (repeat constructor).
  split; [exact Hl|]. split; [exact Hflat|].
  exact (flat_prices_leave_no_row sqrt_floor _ 0%nat flat3 (Qc_of_Z 10)
           Hl Hflat).
Defined.

Lemma Qc_of_Z_neq (a b : Z) : a ≠ b → Qc_of_Z a ≠ Qc_of_Z b.
Proof.
  intros Hne Heq. apply (f_equal this) in Heq. unfold Qc_of_Z in Heq.
  cbn [this] in Heq. injection Heq as Heq. contradiction.
Qed.

Lemma price_change_in_first_fifty_drops_49_witness :
  let h : gmap nat DataFrame := {[ 0%nat := from_bars rising50 ]} in
  h !! 0%nat = Some (from_bars rising50)
  ∧ (50 ≤ length rising50)%nat
  ∧ (0 < 49)%nat
  ∧ rising50 !! 0%nat = Some (bar_of_close 0 1)
  ∧ rising50 !! 1%nat = Some (bar_of_close 1 2)
  ∧ close (bar_of_close 0 1) ≠ close (bar_of_close 1 2)
  ∧ ∃ out,
      calculate_technical_indicators sqrt_floor (PyRef 0) h
      = Some (PyRef 0, <[0%nat := out]> h)
      ∧ bars out = drop 49 rising50.
Proof.
  cbn zeta.
  assert (Hl : ({[ 0%nat := from_bars rising50 ]} : gmap nat DataFrame) !! 0%nat
               = Some (from_bars rising50)) by reflexivity.
  assert (Hlen : (50 ≤ length rising50)%nat) by (vm_compute; lia).
  assert (Hj : (0 < 49)%nat) by lia.
  assert (Ha : rising50 !! 0%nat = Some (bar_of_close 0 1)) by reflexivity.
  assert (Hb : rising50 !! 1%nat = Some (bar_of_close 1 2)) by reflexivity.
  assert (Hne : close (bar_of_close 0 1) ≠ close (bar_of_close 1 2))
    by (apply Qc_of_Z_neq; lia).
  repeat (split; [assumption|]).
  destruct (price_change_in_first_fifty_drops_49 sqrt_floor _ 0%nat rising50
              0%nat _ _ Hl Hlen Hj Ha Hb Hne) as (out & Hcall & Hdrop & _).
  exists out. split; assumption.
Defined.

Lemma trim_keeps_values_of_original_rows_witness :
  let h : gmap nat DataFrame := {[ 0%nat := from_bars flat3 ]} in
  h !! 0%nat = Some (from_bars flat3)
  ∧ flat3 ≠ []
  ∧ ∃ out k,
      calculate_technical_indicators sqrt_floor (PyRef 0) h
      = Some (PyRef 0, <[0%nat := out]> h)
      ∧ bars out = drop k flat3.
Proof.
  cbn zeta.
  assert (Hl : ({[ 0%nat := from_bars flat3 ]} : gmap nat DataFrame) !! 0%nat
               = Some (from_bars flat3)) by reflexivity.
  assert (Hne : flat3 ≠ []) by discriminate.
  split; [exact Hl|]. split; [exact Hne|].
  destruct (trim_keeps_values_of_original_rows sqrt_floor _ 0%nat flat3 Hl Hne)
    as (out & k & Hcall & Hdrop & _).
  exists out, k. split; assumption.
Defined.

Lemma second_call_loses_rows_witness :
  let h : gmap nat DataFrame := {[ 0%nat := from_bars rising50 ]} in
  h !! 0%nat = Some (from_bars rising50)
  ∧ ∃ out1 out2,
      calculate_technical_indicators sqrt_floor (PyRef 0) h
      = Some (PyRef 0, <[0%nat := out1]> h)
      ∧ calculate_technical_indicators sqrt_floor (PyRef 0) (<[0%nat := out1]> h)
        = Some (PyRef 0, <[0%nat := out2]> (<[0%nat := out1]> h))
      ∧ bars out1 ≠ []
      ∧ (length (bars out2) < length (bars out1))%nat.
Proof.
  cbn zeta.
  assert (Hl : ({[ 0%nat := from_bars rising50 ]} : gmap nat DataFrame) !! 0%nat
               = Some (from_bars rising50)) by reflexivity.
  split; [exact Hl|].
  destruct (second_call_loses_rows sqrt_floor _ 0%nat rising50 Hl)
    as (out1 & out2 & H1 & H2 & _ & Hlt).
  destruct (rising50_first_call out1 H1) as [_ Hrows].
  assert (Hne : bars out1 ≠ []).
  { intros Hnil. rewrite Hnil in Hrows. discriminate Hrows. }
  exists out1, out2. split; [exact H1|]. split; [exact H2|].
  split; [exact Hne|]. exact (Hlt Hne).
Defined.

Lemma rsi_saturates_on_one_way_prices_witness :
  defined_at (rsi (Fin <$> [Qc_of_Z 1; Qc_of_Z 2])) 1 = true
  ∧ ((∀ j a b, [Qc_of_Z 1; Qc_of_Z 2] !! j = Some a →
               [Qc_of_Z 1; Qc_of_Z 2] !! S j = Some b → a ≤ b) →
     rsi (Fin <$> [Qc_of_Z 1; Qc_of_Z 2]) !! 1%nat
     = Some (Fin (Qc_of_Z 100))).
Proof.
  assert (Hdef : defined_at (rsi (Fin <$> [Qc_of_Z 1; Qc_of_Z 2])) 1 = true)
    by (vm_compute; reflexivity).
  split; [exact Hdef|].
  exact (proj1 (rsi_saturates_on_one_way_prices [Qc_of_Z 1; Qc_of_Z 2] 1 Hdef)).
Defined.

Lemma moving_averages_within_price_range_witness :
  Forall (fun c => Qc_of_Z 10 ≤ c ∧ c ≤ Qc_of_Z 10) (closes_of flat3)
  ∧ (1 ≤ 12)%Z ∧ (1 ≤ 2)%nat
  ∧ (ewm_mean 12 (Fin <$> closes_of flat3) !! 1%nat = Some (Fin (Qc_of_Z 10)) →
     ∃ q, Fin (Qc_of_Z 10) = Fin q ∧ Qc_of_Z 10 ≤ q ∧ q ≤ Qc_of_Z 10).
Proof.
  assert (Hr : Forall (fun c => Qc_of_Z 10 ≤ c ∧ c ≤ Qc_of_Z 10)
                      (closes_of flat3))
    by (repeat constructor; apply Qcle_refl).
  assert (Hs : (1 ≤ 12)%Z) by lia.
  assert (Hk : (1 ≤ 2)%nat) by lia.
  split; [exact Hr|]. split; [exact Hs|]. split; [exact Hk|].
  exact (proj1 (moving_averages_within_price_range _ _ _ 12 2 1
                  (Fin (Qc_of_Z 10)) Hr Hs Hk)).
Defined.

Lemma none_value_same_as_missing_key_witness :
  let info : gmap string pyvalue := {[ "marketCap" := VNone ]} in
  info !! "marketCap" = Some VNone
  ∧ display_key_statistics_and_price "AAPL"
      (Returned (delete "marketCap" info))
    = display_key_statistics_and_price "AAPL" (Returned info).
Proof.
  cbn zeta.
  assert (Hk : ({[ "marketCap" := VNone ]} : gmap string pyvalue)
               !! "marketCap" = Some VNone) by reflexivity.
  split; [exact Hk|].
  exact (proj1 (none_value_same_as_missing_key "AAPL" _ "marketCap" Hk)).
Defined.

Lemma fallback_key_not_read_when_primary_has_value_witness :
  let info : gmap string pyvalue := {[ "currentPrice" := VNum (Fin 1) ]} in
  has_value info "currentPrice" = true
  ∧ display_key_statistics_and_price
      "AAPL" (Returned (<["regularMarketPrice" := VOther "n/a"]> info))
    = display_key_statistics_and_price "AAPL" (Returned info).
Proof.
  cbn zeta.
  assert (Hp : has_value ({[ "currentPrice" := VNum (Fin 1) ]}
                          : gmap string pyvalue) "currentPrice" = true)
    by reflexivity.
  split; [exact Hp|].
  exact (proj1 (fallback_key_not_read_when_primary_has_value
                  "AAPL" _ (VOther "n/a")) Hp).
Defined.

Lemma limited_notes_follow_last_key_only_witness :
  let info : gmap string pyvalue := {[ "totalAssets" := VNum (Fin 1) ]} in
  (∀ k v, info !! k = Some v → numeric_or_none v = true)
  ∧ Info "Limited Balance Sheet information available for AAPL."
      ∈ (display_fundamental_analysis "AAPL" (Returned info)).1.
Proof.
  cbn zeta.
  assert (Hn : ∀ k v, ({[ "totalAssets" := VNum (Fin 1) ]}
                       : gmap string pyvalue) !! k = Some v →
                      numeric_or_none v = true).
  { intros k v Hk. apply lookup_singleton_Some in Hk as [_ <-]. reflexivity. }
  split; [exact Hn|].
  apply (proj1 (limited_notes_follow_last_key_only "AAPL" _ Hn)).
  reflexivity.
Defined.

Lemma chart_of_engine_result_witness :
  let h : gmap nat DataFrame := {[ 0%nat := from_bars rising50 ]} in
  h !! 0%nat = Some (from_bars rising50)
  ∧ ∃ out fig,
      calculate_technical_indicators sqrt_floor (PyRef 0) h
      = Some (PyRef 0, <[0%nat := out]> h)
      ∧ bars out ≠ []
      ∧ chart_one "AAPL" (Some out)
        = ([Write "**AAPL**"; PlotlyChart fig], Returned tt)
      ∧ trace_name <$> traces fig
        = ["Candlestick"; "Close Price"; "SMA 20"; "SMA 50"; "RSI";
           "MACD"; "Signal Line"; "Middle Band"; "Upper Band";
           "Lower Band"; "Volume"]
      ∧ Forall (trace_points 1) (traces fig).
Proof.
  cbn zeta.
  assert (Hl : ({[ 0%nat := from_bars rising50 ]} : gmap nat DataFrame) !! 0%nat
               = Some (from_bars rising50)) by reflexivity.
  split; [exact Hl|].
  destruct (chart_of_engine_result sqrt_floor _ 0%nat rising50 "AAPL" Hl)
    as (out & Hcall & _ & Hchart).
  destruct (rising50_first_call out Hcall) as [_ Hrows].
  assert (Hne : bars out ≠ []).
  { intros Hnil. rewrite Hnil in Hrows. discriminate Hrows. }
  destruct (Hchart Hne) as (fig & Hfig & Hnames & Hpoints).
  rewrite Hrows in Hpoints.
  exists out, fig. split; [exact Hcall|]. split; [exact Hne|].
  split; [exact Hfig|]. split; [exact Hnames|]. exact Hpoints.
Defined.

Lemma short_history_shows_no_chart_witness :
  let h : gmap nat DataFrame := {[ 0%nat := from_bars flat3 ]} in
  h !! 0%nat = Some (from_bars flat3)
  ∧ (length flat3 < 50)%nat
  ∧ ∃ out,
      calculate_technical_indicators sqrt_floor (PyRef 0) h
      = Some (PyRef 0, <[0%nat := out]> h)
      ∧ generate_charts [("AAPL", Some out)]
        = ([Subheader "Historical Price Trends and Technical Indicators";
            Write "**AAPL**";
            Info "No historical data available to display charts for AAPL."],
           Returned tt).
Proof.
  cbn zeta.
  assert (Hl : ({[ 0%nat := from_bars flat3 ]} : gmap nat DataFrame) !! 0%nat
               = Some (from_bars flat3)) by reflexivity.
  assert (Hs : (length flat3 < 50)%nat) by (cbn; lia).
  split; [exact Hl|]. split; [exact Hs|].
  exact (short_history_shows_no_chart sqrt_floor _ 0%nat flat3 "AAPL" Hl Hs).
Defined.

Lemma parsed_symbols_are_normalised_witness :
  ascii_text "aapl, msft"
  ∧ length (parse_symbols "aapl, msft") = 2%nat.
Proof.
  assert (Ha : ascii_text "aapl, msft")
    by (unfold ascii_text; repeat constructor).
  split; [exact Ha|].
  exact (proj1 (parsed_symbols_are_normalised "aapl, msft" Ha)).
Defined.
